(** * devproxy: the request parser, the connection handler and the forwarder

    A shallow embedding of [src/devproxy/parser.py] and
    [src/devproxy/server.py], with the Python values they handle:
    [bytes] as lists of bytes, [str] as lists of Unicode code points,
    [int] as [Z], a [dict] as an association list in insertion order,
    and exceptions as values of an error monad. *)

From Stdlib Require Import String Ascii.
From Stdlib Require Import List ZArith NArith Lia Bool.
From Stdlib.Strings Require Import Byte.
From Stdlib Require Decimal DecimalString DecimalZ DecimalPos DecimalN DecimalFacts.
Import ListNotations.
Local Open Scope Z_scope.

(** ** Python values and builtins *)

Module Py.

Definition bytes := list byte.
Definition str := list N.

(** [b"..."] and ["..."] literals (ASCII only). *)
Definition b (s : string) : bytes := list_byte_of_string s.
Definition u (s : string) : str := map Byte.to_N (list_byte_of_string s).

Definition CR : byte := x0d.
Definition LF : byte := x0a.
Definition CRLF : bytes := [CR; LF].

(** [len(x)] *)
Definition len {A : Type} (l : list A) : Z := Z.of_nat (length l).

(** [not x], for a sequence. *)
Definition is_empty {A : Type} (l : list A) : bool :=
  match l with [] => true | _ => false end.

(** [str(n)] for an [int]. *)
Definition str_of_int (z : Z) : string := DecimalString.NilEmpty.string_of_int (Z.to_int z).

(** *** Sequences: the operations [bytes] and [str] share *)

Section Sequences.
Context {A : Type} (eqb : A -> A -> bool).

Fixpoint seq_eqb (x y : list A) : bool :=
  match x, y with
  | [], [] => true
  | a :: x', c :: y' => eqb a c && seq_eqb x' y'
  | _, _ => false
  end.

(** [s.startswith(prefix)] *)
Fixpoint startswith (prefix s : list A) : bool :=
  match prefix, s with
  | [], _ => true
  | p :: prefix', c :: s' => eqb p c && startswith prefix' s'
  | _ :: _, [] => false
  end.

(** The first occurrence of a non-empty [sep] in [s]: what is before it
    and what is after it ([s.partition(sep)] when [sep] occurs). *)
Fixpoint find_sep (sep s : list A) : option (list A * list A) :=
  if startswith sep s then Some ([], skipn (length sep) s)
  else match s with
       | [] => None
       | c :: s' =>
           match find_sep sep s' with
           | Some (pre, post) => Some (c :: pre, post)
           | None => None
           end
       end.

(** [sep in s] *)
Definition contains (sep s : list A) : bool :=
  match find_sep sep s with Some _ => true | None => false end.

(** [s.split(sep, maxsplit)] with a non-empty [sep] and [maxsplit >= 0]. *)
Fixpoint split (sep : list A) (maxsplit : nat) (s : list A) : list (list A) :=
  match maxsplit with
  | O => [s]
  | S m =>
      match find_sep sep s with
      | None => [s]
      | Some (pre, post) => pre :: split sep m post
      end
  end.

Fixpoint dropwhile (p : A -> bool) (s : list A) : list A :=
  match s with
  | [] => []
  | c :: s' => if p c then dropwhile p s' else s
  end.

(** [x in [a, b, ...]] *)
Definition elem (x : list A) (l : list (list A)) : bool :=
  existsb (seq_eqb x) l.
End Sequences.

Definition str_eqb : str -> str -> bool := seq_eqb N.eqb.
Definition bytes_eqb : bytes -> bytes -> bool := seq_eqb Byte.eqb.

(** *** [str] methods *)

(** The characters [str.strip()] removes: those for which [str.isspace()]
    holds. *)
Definition isspace (c : N) : bool :=
  ((0x09 <=? c) && (c <=? 0x0D) || (0x1C <=? c) && (c <=? 0x20)
   || (c =? 0x85) || (c =? 0xA0) || (c =? 0x1680)
   || (0x2000 <=? c) && (c <=? 0x200A)
   || (c =? 0x2028) || (c =? 0x2029) || (c =? 0x202F) || (c =? 0x205F)
   || (c =? 0x3000))%N.

Definition lstrip (p : N -> bool) (s : str) : str := dropwhile p s.
Definition rstrip (p : N -> bool) (s : str) : str := rev (dropwhile p (rev s)).

(** [s.strip()] *)
Definition strip (s : str) : str := rstrip isspace (lstrip isspace s).

(** *** [int] *)

(** What [int(s)] does on a string: a value, or one of its two
    [ValueError]s, "invalid literal for int()" and the one for a literal
    of more digits than the interpreter converts. *)
Inductive int_result : Type :=
  | IntValue (n : Z)
  | IntInvalidLiteral
  | IntDigitLimit.

(** The code points of the digits zero of Unicode 14, the version of
    Python 3.11: each begins a run of the ten decimal digits of a script,
    in their order. *)
Definition decimal_zeros : list N :=
  [0x30; 0x660; 0x6F0; 0x7C0; 0x966; 0x9E6; 0xA66; 0xAE6; 0xB66; 0xBE6; 0xC66;
   0xCE6; 0xD66; 0xDE6; 0xE50; 0xED0; 0xF20; 0x1040; 0x1090; 0x17E0; 0x1810;
   0x1946; 0x19D0; 0x1A80; 0x1A90; 0x1B50; 0x1BB0; 0x1C40; 0x1C50; 0xA620;
   0xA8D0; 0xA900; 0xA9D0; 0xA9F0; 0xAA50; 0xABF0; 0xFF10; 0x104A0; 0x10D30;
   0x11066; 0x110F0; 0x11136; 0x111D0; 0x112F0; 0x11450; 0x114D0; 0x11650;
   0x116C0; 0x11730; 0x118E0; 0x11950; 0x11C50; 0x11D50; 0x11DA0; 0x16A60;
   0x16AC0; 0x16B50; 0x1D7CE; 0x1D7D8; 0x1D7E2; 0x1D7EC; 0x1D7F6; 0x1E140;
   0x1E2F0; 0x1E950; 0x1FBF0]%N.

(** The value of a decimal digit of any script. *)
Definition decimal (c : N) : option N :=
  match find (fun zero => (zero <=? c) && (c <=? zero + 9))%N decimal_zeros with
  | Some zero => Some (c - zero)%N
  | None => None
  end.

(** What [int] makes of a string before it reads it: a character below
    127 stays, any other white space becomes a space and any other decimal
    digit its ASCII digit, and the string is cut after the first character
    that is neither, which becomes a question mark. *)
Fixpoint to_ascii_decimal (s : str) : str :=
  match s with
  | [] => []
  | c :: s' =>
      if (c <? 127)%N then c :: to_ascii_decimal s'
      else if isspace c then 0x20%N :: to_ascii_decimal s'
      else match decimal c with
           | Some d => (0x30 + d)%N :: to_ascii_decimal s'
           | None => [0x3F%N]
           end
  end.

(** The white space [int] skips around the number, once the string is
    ASCII. *)
Definition is_c_space (c : N) : bool :=
  ((0x09 <=? c) && (c <=? 0x0D) || (c =? 0x20))%N.

Definition is_digit (c : N) : bool := ((0x30 <=? c) && (c <=? 0x39))%N.

(** The run of digits and underscores a number begins with: its value,
    its number of digits, whether it ends with an underscore, and what
    follows it; [None] when two underscores follow each other. *)
Fixpoint digits_run (after_underscore : bool) (acc : Z) (count : nat) (s : str)
  : option (Z * nat * bool * str) :=
  match s with
  | c :: s' =>
      if is_digit c
      then digits_run false (acc * 10 + Z.of_N (c - 0x30)) (S count) s'
      else if (c =? 0x5F)%N
      then if after_underscore then None else digits_run true acc count s'
      else Some (acc, count, after_underscore, s)
  | [] => Some (acc, count, after_underscore, [])
  end.

(** The digits [int] converts at most. *)
Definition MAX_STR_DIGITS : nat := 4300.

(** [int(s)], in base ten: white space, an optional sign, digits with
    single underscores between them, white space. The number of digits is
    checked once the run of digits is read, before what follows it. *)
Definition int_str (s : str) : int_result :=
  let text := dropwhile is_c_space (to_ascii_decimal s) in
  let signed :=
    match text with
    | c :: text' =>
        if (c =? 0x2D)%N then (-1, text')
        else if (c =? 0x2B)%N then (1, text') else (1, text)
    | [] => (1, [])
    end in
  match snd signed with
  | [] => IntInvalidLiteral
  | c :: _ =>
      if (c =? 0x5F)%N then IntInvalidLiteral
      else
        match digits_run false 0 O (snd signed) with
        | None => IntInvalidLiteral
        | Some (n, count, ends_with_underscore, rest) =>
            if ends_with_underscore then IntInvalidLiteral
            else if (MAX_STR_DIGITS <? count)%nat then IntDigitLimit
            else if (count =? 0)%nat then IntInvalidLiteral
            else if is_empty (dropwhile is_c_space rest)
            then IntValue (fst signed * n)
            else IntInvalidLiteral
        end
  end.

(** *** UTF-8 *)

Definition is_cont (c : byte) : bool :=
  let n := Byte.to_N c in ((0x80 <=? n) && (n <=? 0xBF))%N.
Definition low6 (c : byte) : N := (Byte.to_N c - 0x80)%N.

Definition is_surrogate (c : N) : bool := ((0xD800 <=? c) && (c <=? 0xDFFF))%N.
Definition is_scalar (c : N) : bool := ((c <=? 0x10FFFF) && negb (is_surrogate c))%N.
Definition scalar (c : N) : Prop := is_scalar c = true.

(** [bs.decode('utf-8')]: [None] stands for [UnicodeDecodeError]. The strict
    codec refuses stray continuation bytes, overlong forms, surrogates and
    code points above U+10FFFF. *)
Fixpoint decode_utf8 (bs : bytes) : option str :=
  match bs with
  | [] => Some []
  | b0 :: t0 =>
      let n0 := Byte.to_N b0 in
      if (n0 <? 0x80)%N then option_map (cons n0) (decode_utf8 t0)
      else if (n0 <? 0xC2)%N then None
      else if (n0 <? 0xE0)%N then
        match t0 with
        | b1 :: t1 =>
            if is_cont b1
            then option_map (cons ((n0 - 0xC0) * 64 + low6 b1)%N) (decode_utf8 t1)
            else None
        | _ => None
        end
      else if (n0 <? 0xF0)%N then
        match t0 with
        | b1 :: b2 :: t2 =>
            let c := (((n0 - 0xE0) * 64 + low6 b1) * 64 + low6 b2)%N in
            if is_cont b1 && is_cont b2 && (0x800 <=? c)%N && negb (is_surrogate c)
            then option_map (cons c) (decode_utf8 t2)
            else None
        | _ => None
        end
      else if (n0 <? 0xF5)%N then
        match t0 with
        | b1 :: b2 :: b3 :: t3 =>
            let c := ((((n0 - 0xF0) * 64 + low6 b1) * 64 + low6 b2) * 64 + low6 b3)%N in
            if is_cont b1 && is_cont b2 && is_cont b3
               && (0x10000 <=? c)%N && (c <=? 0x10FFFF)%N
            then option_map (cons c) (decode_utf8 t3)
            else None
        | _ => None
        end
      else None
  end.

Definition byte_of (n : N) : byte :=
  match Byte.of_N (n mod 256) with Some x => x | None => x00 end.

Definition encode_char (c : N) : option bytes :=
  if (c <? 0x80)%N then Some [byte_of c]
  else if (c <? 0x800)%N then
    Some [byte_of (0xC0 + c / 64); byte_of (0x80 + c mod 64)]
  else if (c <? 0x10000)%N then
    if is_surrogate c then None
    else Some [byte_of (0xE0 + c / 4096); byte_of (0x80 + (c / 64) mod 64);
               byte_of (0x80 + c mod 64)]
  else if (c <=? 0x10FFFF)%N then
    Some [byte_of (0xF0 + c / 262144); byte_of (0x80 + (c / 4096) mod 64);
          byte_of (0x80 + (c / 64) mod 64); byte_of (0x80 + c mod 64)]
  else None.

(** [s.encode('utf-8')]: [None] stands for [UnicodeEncodeError]. *)
Fixpoint encode_utf8 (s : str) : option bytes :=
  match s with
  | [] => Some []
  | c :: s' =>
      match encode_char c, encode_utf8 s' with
      | Some x, Some y => Some (x ++ y)
      | _, _ => None
      end
  end.

(** *** [dict] with [str] keys, in insertion order *)

Definition dict := list (str * str).

(** [d.get(k)] *)
Fixpoint dict_get (k : str) (d : dict) : option str :=
  match d with
  | [] => None
  | (k', v) :: d' => if str_eqb k k' then Some v else dict_get k d'
  end.

(** [k in d] *)
Definition dict_mem (k : str) (d : dict) : bool :=
  match dict_get k d with Some _ => true | None => false end.

(** [d[k] = v]: an existing key keeps its place, a new one goes last. *)
Fixpoint dict_set (k v : str) (d : dict) : dict :=
  match d with
  | [] => [(k, v)]
  | (k', v') :: d' =>
      if str_eqb k k' then (k', v) :: d' else (k', v') :: dict_set k v d'
  end.

Definition keys (d : dict) : list str := map fst d.

(** *** Exceptions *)

(** The [ValueError]s of the program, by message: those the parser raises
    itself, with the exception a [raise ... from e] chains to, and those of
    the builtins and of the stream reader it calls ([UnicodeDecodeError]
    and [UnicodeEncodeError] are subclasses of [ValueError]; the two of
    [readline] are those of a line longer than the reader's limit). *)
Inductive value_error : Type :=
  | SeparatorFoundOverLimit
  | SeparatorNotFoundOverLimit
  | RequestLineTimeout (after : Z)
  | DisconnectedBeforeRequestLine
  | RequestLineTooLong (n : Z)
  | NotEnoughValuesToUnpack (expected got : nat)
  | UnsupportedHTTPVersion (version : str)
  | MalformedRequestLine (request_line : str) (cause : value_error)
  | HeaderTimeout (after : Z)
  | DisconnectedMidHeaders
  | HeadersTooBig (n : Z)
  | HeaderTooLong (n : Z)
  | TooManyHeaders (n : Z)
  | InvalidLiteralForInt (s : str)
  | ExceedsIntDigitLimit
  | InvalidContentLength (value : str)
  | BodyTooBig (n : Z)
  | NegativeReadSize
  | BodyTimeout (after : Z)
  | DisconnectedBeforeFullBody
  | UnicodeDecodeError
  | UnicodeEncodeError.

(** The exception classes the program tells apart. [TimeoutError] is
    [asyncio.TimeoutError], which from Python 3.11 on is the builtin
    [TimeoutError]; [OSError] is an [OSError] of any other class than
    those two, such as a refused connection or a broken pipe. *)
Inductive exn : Type :=
  | ValueError (e : value_error)
  | TimeoutError
  | IncompleteReadError
  | ConnectionResetError
  | OSError.

Inductive result (A : Type) : Type :=
  | Return (a : A)
  | Raise (e : exn).
Arguments Return {A} a.
Arguments Raise {A} e.

Definition bind {A B : Type} (m : result A) (k : A -> result B) : result B :=
  match m with
  | Return a => k a
  | Raise e => Raise e
  end.

Definition decode (bs : bytes) : result str :=
  match decode_utf8 bs with
  | Some s => Return s
  | None => Raise (ValueError UnicodeDecodeError)
  end.

Definition encode (s : str) : result bytes :=
  match encode_utf8 s with
  | Some x => Return x
  | None => Raise (ValueError UnicodeEncodeError)
  end.

End Py.

(** ** [parser.py] *)

Module Parser.
Import Py.

Record HTTPRequest : Type := {
  method : str;
  path : str;
  version : str;
  headers : dict;
  body : bytes
}.

Module HTTPLimits.
Definition MAX_REQUEST_LINE : Z := 4096.
Definition MAX_HEADER_SIZE : Z := 8192.
Definition MAX_HEADERS : Z := 100.
Definition MAX_TOTAL_HEADERS : Z := 65536.
Definition MAX_BODY_SIZE : Z := 10000000.
(** The three timeouts, in seconds. *)
Definition REQUEST_TIMEOUT : Z := 5.
Definition HEADER_TIMEOUT : Z := 10.
Definition BODY_TIMEOUT : Z := 30.
End HTTPLimits.
Import HTTPLimits.

(** *** The client's byte stream

    The error a connection is lost with: the one of the socket call that
    failed, which the transport gives to [connection_lost] and the stream
    protocol stores on the reader. It is an [OSError]: a reset, a timeout
    of the socket, or any other. *)
Inductive connection_error : Type := Reset | TimedOut | Failed.

Definition exception_of (c : connection_error) : exn :=
  match c with
  | Reset => ConnectionResetError
  | TimedOut => TimeoutError
  | Failed => OSError
  end.

(** An [asyncio.StreamReader] as the parser finds it: the bytes the client
    sent and have not been read yet, the error stored on the reader if the
    connection is lost already, and what a read finds once the bytes do
    not suffice: end of stream, a client that sends nothing more until the
    timeout of the read fires, or the loss of the connection, whose error
    is stored on the reader from then on. The connection is taken not to
    be lost between two reads that the buffer serves: its error is stored
    before the parser starts, or when a read has to wait. *)
Inductive stream_end : Type := EOF | Stall | Lost (c : connection_error).

Record StreamReader : Type := {
  buffer : bytes;
  exception : option connection_error;
  at_end : stream_end
}.

(** The reader's limit on a line, [_DEFAULT_LIMIT] of [asyncio.streams]:
    neither the server nor the tests set another. *)
Definition DEFAULT_LIMIT : Z := 65536.

(** The reader with other bytes left, and the reader once the connection
    is lost. *)
Definition with_buffer (r : StreamReader) (bs : bytes) : StreamReader :=
  {| buffer := bs; exception := exception r; at_end := at_end r |}.

Definition set_exception (r : StreamReader) (c : connection_error) : StreamReader :=
  {| buffer := buffer r; exception := Some c; at_end := at_end r |}.

(** The bytes up to the first line feed, included, and the rest. *)
Fixpoint take_line (bs : bytes) : option (bytes * bytes) :=
  match bs with
  | [] => None
  | c :: bs' =>
      if Byte.eqb c LF then Some ([c], bs')
      else match take_line bs' with
           | Some (line, rest) => Some (c :: line, rest)
           | None => None
           end
  end.

(** [await asyncio.wait_for(reader.readline(), timeout)]. The error
    stored on the reader is raised before the buffer is looked at.
    Otherwise the read gives a line with its line feed, and at end of
    stream what is left, possibly nothing; a line whose bytes before the
    line feed are more than the limit is taken off the buffer and raises
    a [ValueError], and so do bytes without a line feed that are more than
    the limit, which are all dropped. *)
Definition readline (timeout : Z) (r : StreamReader) : result bytes * StreamReader :=
  match exception r with
  | Some c => (Raise (exception_of c), r)
  | None =>
      match take_line (buffer r) with
      | Some (line, rest) =>
          if len line - 1 >? DEFAULT_LIMIT
          then (Raise (ValueError SeparatorFoundOverLimit), with_buffer r rest)
          else (Return line, with_buffer r rest)
      | None =>
          if len (buffer r) >? DEFAULT_LIMIT
          then (Raise (ValueError SeparatorNotFoundOverLimit), with_buffer r [])
          else
            match at_end r with
            | EOF => (Return (buffer r), with_buffer r [])
            | Stall => (Raise TimeoutError, r)
            | Lost c => (Raise (exception_of c), set_exception r c)
            end
      end
  end.

(** [await asyncio.wait_for(reader.readexactly(n), timeout)]: the size is
    checked first, then the error stored on the reader. *)
Definition readexactly (timeout : Z) (n : Z) (r : StreamReader)
  : result bytes * StreamReader :=
  if n <? 0 then (Raise (ValueError NegativeReadSize), r)
  else
    match exception r with
    | Some c => (Raise (exception_of c), r)
    | None =>
        if n =? 0 then (Return [], r)
        else if n <=? len (buffer r) then
          (Return (firstn (Z.to_nat n) (buffer r)),
           with_buffer r (skipn (Z.to_nat n) (buffer r)))
        else
          match at_end r with
          | EOF => (Raise IncompleteReadError, with_buffer r [])
          | Stall => (Raise TimeoutError, r)
          | Lost c => (Raise (exception_of c), set_exception r c)
          end
    end.

(** ["invalid literal" in str(e)], on the errors the body phase can see. *)
Definition mentions_invalid_literal (e : value_error) : bool :=
  match e with InvalidLiteralForInt _ => true | _ => false end.

Section ParseRequest.
(** The builtin [int] on [str]. *)
Variable int : str -> int_result.

(** Lines 51 to 60: the request line, decoded. *)
Definition parse_request_line (request_line : str) : result (str * str * str) :=
  let attempt :=
    match split N.eqb (u " ") 2 request_line with
    | [method; path; version] =>
        if elem N.eqb version [u "HTTP/1.0"; u "HTTP/1.1"]
        then Return (method, path, version)
        else Raise (ValueError (UnsupportedHTTPVersion version))
    | parts => Raise (ValueError (NotEnoughValuesToUnpack 3 (length parts)))
    end in
  match attempt with
  | Raise (ValueError e) => Raise (ValueError (MalformedRequestLine request_line e))
  | other => other
  end.

(** Lines 39 to 60: the request-line phase. *)
Definition read_request_line (r : StreamReader)
  : result (str * str * str) * StreamReader :=
  match readline REQUEST_TIMEOUT r with
  | (Raise TimeoutError, r') =>
      (Raise (ValueError (RequestLineTimeout REQUEST_TIMEOUT)), r')
  | (Raise e, r') => (Raise e, r')
  | (Return request_line_bytes, r') =>
      if is_empty request_line_bytes
      then (Raise (ValueError DisconnectedBeforeRequestLine), r')
      else if len request_line_bytes >? MAX_REQUEST_LINE
      then (Raise (ValueError (RequestLineTooLong (len request_line_bytes))), r')
      else (bind (decode request_line_bytes)
              (fun s => parse_request_line (strip s)), r')
  end.

(** Lines 63 to 94: the header loop. Each turn reads one line; [fuel]
    bounds the number of turns. *)
Fixpoint read_headers (fuel : nat) (r : StreamReader)
    (total_size header_count : Z) (headers : dict)
  : option (result (dict * Z * Z) * StreamReader) :=
  match fuel with
  | O => None
  | S fuel' =>
      match readline HEADER_TIMEOUT r with
      | (Raise TimeoutError, r') =>
          Some (Raise (ValueError (HeaderTimeout HEADER_TIMEOUT)), r')
      | (Raise e, r') => Some (Raise e, r')
      | (Return header_line_bytes, r') =>
          if is_empty header_line_bytes
          then Some (Raise (ValueError DisconnectedMidHeaders), r')
          else
            let total_size := total_size + len header_line_bytes in
            if total_size >? MAX_TOTAL_HEADERS
            then Some (Raise (ValueError (HeadersTooBig total_size)), r')
            else
              match decode header_line_bytes with
              | Raise e => Some (Raise e, r')
              | Return s =>
                  let header_line := strip s in
                  if is_empty header_line
                  then Some (Return (headers, total_size, header_count), r')
                  else if len header_line >? MAX_HEADER_SIZE
                  then Some (Raise (ValueError (HeaderTooLong (len header_line))), r')
                  else
                    let header_count := header_count + 1 in
                    if header_count >? MAX_HEADERS
                    then Some (Raise (ValueError (TooManyHeaders header_count)), r')
                    else if negb (contains N.eqb (u ": ") header_line)
                    then read_headers fuel' r' total_size header_count headers
                    else
                      match split N.eqb (u ": ") 1 header_line with
                      | [key; value] =>
                          read_headers fuel' r' total_size header_count
                            (dict_set key value headers)
                      | parts =>
                          Some (Raise (ValueError
                                  (NotEnoughValuesToUnpack 2 (length parts))), r')
                      end
              end
      end
  end.

(** Lines 98 to 120: the body phase. *)
Definition read_body (r : StreamReader) (headers : dict)
  : result bytes * StreamReader :=
  match dict_get (u "Content-Length") headers with
  | None => (Return [], r)
  | Some value =>
      let attempt :=
        match int value with
        | IntValue content_length =>
            if content_length >? MAX_BODY_SIZE
            then (Raise (ValueError (BodyTooBig content_length)), r)
            else readexactly BODY_TIMEOUT content_length r
        | IntInvalidLiteral => (Raise (ValueError (InvalidLiteralForInt value)), r)
        | IntDigitLimit => (Raise (ValueError ExceedsIntDigitLimit), r)
        end in
      match attempt with
      | (Raise (ValueError e), r') =>
          if mentions_invalid_literal e
          then (Raise (ValueError (InvalidContentLength value)), r')
          else (Raise (ValueError e), r')
      | (Raise TimeoutError, r') =>
          (Raise (ValueError (BodyTimeout BODY_TIMEOUT)), r')
      | (Raise IncompleteReadError, r') =>
          (Raise (ValueError DisconnectedBeforeFullBody), r')
      | other => other
      end
  end.

(** The turns the header loop is given: a turn that does not leave the
    loop counts one more header, and the loop stops above [MAX_HEADERS]. *)
Definition header_turns : nat := S (Z.to_nat MAX_HEADERS).

(** [parse_request_production(reader, client_addr)]: what it returns or
    raises, and the reader it leaves. [None] only if the header loop were
    to run out of turns. *)
Definition parse_request_production (r : StreamReader)
  : option (result HTTPRequest * StreamReader) :=
  match read_request_line r with
  | (Raise e, r1) => Some (Raise e, r1)
  | (Return (method, path, version), r1) =>
      match read_headers header_turns r1 0 0 [] with
      | None => None
      | Some (Raise e, r2) => Some (Raise e, r2)
      | Some (Return (headers, _, _), r2) =>
          match read_body r2 headers with
          | (Raise e, r3) => Some (Raise e, r3)
          | (Return body, r3) =>
              Some (Return {| method := method; path := path; version := version;
                              headers := headers; body := body |}, r3)
          end
      end
  end.
End ParseRequest.

End Parser.

(** ** [server.py] *)

Module Server.
Import Py Parser.

Definition PROXY_PREFIX : str := u "/proxy".

(** *** Metrics *)

Record Metrics : Type := {
  request_count : Z;
  error_count : Z
}.

Definition increment_requests (m : Metrics) : Metrics :=
  {| request_count := request_count m + 1; error_count := error_count m |}.
Definition increment_errors (m : Metrics) : Metrics :=
  {| request_count := request_count m; error_count := error_count m + 1 |}.
Definition snapshot (m : Metrics) : Z * Z := (request_count m, error_count m).

(** *** The client's writer

    An [asyncio.StreamWriter] as the handler uses it: the byte strings
    given to [write], in order, and whether the transport is closing.
    Writing to the client is buffered and does not raise, and neither
    [drain] nor [wait_closed] of the client's writer is taken to raise. *)
Record StreamWriter : Type := {
  written : list bytes;
  closing : bool
}.

Definition write (w : StreamWriter) (data : bytes) : StreamWriter :=
  {| written := written w ++ [data]; closing := closing w |}.
Definition is_closing (w : StreamWriter) : bool := closing w.
Definition close (w : StreamWriter) : StreamWriter :=
  {| written := written w; closing := true |}.

(** *** Response generators *)

Definition NL : str := [0x0A%N].

(** [str(n)] as a [str] and as [bytes]. *)
Definition str_int (n : Z) : str := u (str_of_int n).
Definition bytes_int (n : Z) : bytes := b (str_of_int n).

Definition generate_response (request : HTTPRequest) (metrics : Metrics)
  : result bytes :=
  if str_eqb (path request) (u "/metrics") then
    let '(reqs, errs) := snapshot metrics in
    encode (u "requests_total " ++ str_int reqs ++ NL
            ++ u " errors_total " ++ str_int errs ++ NL)
  else
    encode (u "Hello from DevProxy! You requested: "
            ++ method request ++ u " " ++ path request).

(** The bytes [send_response] writes. *)
Definition response_200 (body : bytes) : bytes :=
  b "HTTP/1.1 200 OK" ++ CRLF
  ++ b "Content-Type: text/plain; charset=utf-8" ++ CRLF
  ++ b "Content-Length: " ++ bytes_int (len body) ++ CRLF
  ++ b "Connection: close" ++ CRLF
  ++ CRLF ++ body.

Definition send_response (writer : StreamWriter) (body : bytes) : StreamWriter :=
  write writer (response_200 body).

(** The responses of [handle_client]'s three [except] clauses. *)
Definition error_msg : bytes := b "BAD REQUEST".

Definition error_response : bytes :=
  b "HTTP/1.1 400 Bad Request" ++ CRLF
  ++ b "Content-Type: text/plain; charset=utf-8" ++ CRLF
  ++ b "Content-Length: " ++ bytes_int (len error_msg) ++ CRLF
  ++ b "Connection: close" ++ CRLF
  ++ CRLF ++ error_msg.

Definition timeout_response : bytes :=
  b "HTTP/1.1 408 Request Timeout" ++ CRLF
  ++ b "Content-Type: text/plain; charset=utf-8" ++ CRLF
  ++ b "Content-Length: 15" ++ CRLF
  ++ b "Connection: close" ++ CRLF
  ++ CRLF ++ b "Request Timeout".

Definition internal_error : bytes :=
  b "HTTP/1.1 500 Internal Server Error" ++ CRLF
  ++ b "Content-Type: text/plain; charset=utf-8" ++ CRLF
  ++ b "Content-Length: 25" ++ CRLF
  ++ b "Connection: close" ++ CRLF
  ++ CRLF ++ b "Internal Server Error".

(** The two responses of [proxy_to_upstream]'s [except] clauses. *)
Definition gateway_timeout : bytes :=
  b "HTTP/1.1 504 Gateway Timeout" ++ CRLF ++ b "Content-Length: 0" ++ CRLF ++ CRLF.

Definition bad_gateway : bytes :=
  b "HTTP/1.1 502 Bad Gateway" ++ CRLF ++ b "Content-Length: 0" ++ CRLF ++ CRLF.

(** *** The upstream

    What the upstream side does once connected: whether [drain] raises
    after the request is written, what each [read(4096)] gives, a chunk
    (an empty one at end of stream) or an exception, and whether
    [wait_closed] raises once the connection is closed. It raises when the
    connection was lost with an error, the one the stream protocol stored
    when a [drain] or a [read] failed. What
    [wait_for(open_connection(...), 5.0)] gives is a [result Upstream]:
    the connection, [TimeoutError] after the 5 seconds, or the error of the
    connection attempt. *)
Record Upstream : Type := {
  drain_raises : option exn;
  reads : list (result bytes);
  wait_closed_raises : option exn
}.

(** What one call of the forwarder did: the client's writer after it, the
    byte strings written to the upstream, in order, whether the upstream
    connection was opened and closed, and the exception the call ends
    with when it raises. *)
Record Forwarded : Type := {
  client : StreamWriter;
  sent_upstream : list bytes;
  upstream_closed : bool;
  raised : option exn
}.

(** Lines 116 and 117: one [write] per header. *)
Fixpoint write_headers (headers : dict) (sent : list bytes)
  : result unit * list bytes :=
  match headers with
  | [] => (Return tt, sent)
  | (key, val) :: rest =>
      match encode (key ++ u ": " ++ val ++ [0x0D; 0x0A]%N) with
      | Raise e => (Raise e, sent)
      | Return line => write_headers rest (sent ++ [line])
      end
  end.

(** Lines 126 to 131: the streaming loop. *)
Fixpoint stream_response (chunks : list (result bytes)) (client_writer : StreamWriter)
  : result unit * StreamWriter :=
  match chunks with
  | [] => (Return tt, client_writer)
  | Raise e :: _ => (Raise e, client_writer)
  | Return chunk :: rest =>
      if is_empty chunk then (Return tt, client_writer)
      else stream_response rest (write client_writer chunk)
  end.

(** Lines 106 to 131: the body of the [try]. *)
Definition forward (client_writer : StreamWriter) (request : HTTPRequest)
    (upstream_host : str) (upstream_port : Z) (up : Upstream)
  : result unit * StreamWriter * list bytes :=
  match encode (method request ++ u " " ++ path request ++ u " "
                ++ version request ++ [0x0D; 0x0A]%N) with
  | Raise e => (Raise e, client_writer, [])
  | Return request_line =>
      let headers :=
        dict_set (u "Host") (upstream_host ++ u ":" ++ str_int upstream_port)
          (headers request) in
      match write_headers headers [request_line] with
      | (Raise e, sent) => (Raise e, client_writer, sent)
      | (Return _, sent) =>
          let sent := sent ++ [CRLF] in
          let sent := if is_empty (body request) then sent
                      else sent ++ [body request] in
          match drain_raises up with
          | Some e => (Raise e, client_writer, sent)
          | None =>
              let '(streamed, client_writer) :=
                stream_response (reads up) client_writer in
              (streamed, client_writer, sent)
          end
      end
  end.

(** [proxy_to_upstream(client_reader, client_writer, request)]. The two
    [except] clauses answer what the [try] raised; the [finally] closes
    the upstream connection when it was opened and awaits [wait_closed],
    whose exception, if it raises, is the one the call ends with. *)
Definition proxy_to_upstream (client_writer : StreamWriter) (request : HTTPRequest)
    (upstream_host : str) (upstream_port : Z) (connection : result Upstream)
  : Forwarded :=
  let '(attempt, client_writer, sent) :=
    match connection with
    | Raise e => (Raise e, client_writer, [])
    | Return up => forward client_writer request upstream_host upstream_port up
    end in
  let client_writer :=
    match attempt with
    | Return _ => client_writer
    | Raise TimeoutError =>
        if negb (is_closing client_writer)
        then write client_writer gateway_timeout else client_writer
    | Raise _ =>
        if negb (is_closing client_writer)
        then write client_writer bad_gateway else client_writer
    end in
  {| client := client_writer;
     sent_upstream := sent;
     upstream_closed := match connection with Return _ => true | Raise _ => false end;
     raised := match connection with
               | Return up => wait_closed_raises up
               | Raise _ => None
               end |}.

(** *** The connection handler *)

(** What handling one connection did: the client's writer and the metrics
    after it, and the forwarder's run when the request was proxied. *)
Record Handled : Type := {
  writer_after : StreamWriter;
  metrics_after : Metrics;
  forwarded : option Forwarded
}.

(** Lines 177 to 179: the path the forwarder is given. *)
Definition proxied_path (request_path : str) : str :=
  let new_path := skipn (length PROXY_PREFIX) request_path in
  if is_empty new_path || negb (startswith N.eqb (u "/") new_path)
  then u "/" ++ lstrip (N.eqb 0x2F) new_path
  else new_path.

Section Handler.
Variable int : str -> int_result.
(** The module's [UPSTREAM_HOST] and [UPSTREAM_PORT], read from the
    environment when the module is loaded. *)
Variable UPSTREAM_HOST : str.
Variable UPSTREAM_PORT : Z.

(** Lines 169 to 192: the body of the [try]. It returns or raises, and
    leaves the client's writer with what was written to it, by the
    forwarder when the request was proxied. *)
Definition serve (reader : StreamReader) (writer : StreamWriter)
    (metrics : Metrics) (connection : result Upstream)
  : option (result unit * StreamWriter * option Forwarded) :=
  match parse_request_production int reader with
  | None => None
  | Some (Raise e, _) => Some (Raise e, writer, None)
  | Some (Return request, _) =>
      if startswith N.eqb PROXY_PREFIX (path request) then
        let proxied_request :=
          {| method := method request;
             path := proxied_path (path request);
             version := version request;
             headers := headers request;
             body := body request |} in
        let run := proxy_to_upstream writer proxied_request
                     UPSTREAM_HOST UPSTREAM_PORT connection in
        match raised run with
        | Some e => Some (Raise e, client run, Some run)
        | None => Some (Return tt, client run, Some run)
        end
      else
        match generate_response request metrics with
        | Raise e => Some (Raise e, writer, None)
        | Return response => Some (Return tt, send_response writer response, None)
        end
  end.

(** [handle_client(reader, writer, metrics, semaphore)], for one
    connection; [connection] is what connecting to the upstream gives if
    the handler forwards. *)
Definition handle_client (reader : StreamReader) (writer : StreamWriter)
    (metrics : Metrics) (connection : result Upstream) : option Handled :=
  let metrics := increment_requests metrics in
  match serve reader writer metrics connection with
  | None => None
  | Some (Return _, writer, run) =>
      Some {| writer_after := close writer; metrics_after := metrics;
              forwarded := run |}
  | Some (Raise (ValueError _), writer, run) =>
      Some {| writer_after := close (write writer error_response);
              metrics_after := increment_errors metrics;
              forwarded := run |}
  | Some (Raise TimeoutError, writer, run) =>
      Some {| writer_after := close (write writer timeout_response);
              metrics_after := increment_errors metrics;
              forwarded := run |}
  | Some (Raise _, writer, run) =>
      Some {| writer_after := close (write writer internal_error);
              metrics_after := increment_errors metrics;
              forwarded := run |}
  end.
End Handler.

(** *** [send_error_response]

    Lines 65 to 80; the handler does not call it. The reason phrase is
    that of the three known statuses, "Unknown" for any other. *)
Definition status_reason (status : Z) : string :=
  if status =? 400 then "Bad Request"
  else if status =? 408 then "Request Timeout"
  else if status =? 500 then "Internal Server Error"
  else "Unknown".

(** The bytes [send_error_response] writes, around the encoded body. *)
Definition error_response_for (status : Z) (body : bytes) : bytes :=
  b "HTTP/1.1 " ++ bytes_int status ++ b " " ++ b (status_reason status) ++ CRLF
  ++ b "Content-Type: text/plain; charset=utf-8" ++ CRLF
  ++ b "Content-Length: " ++ bytes_int (len body) ++ CRLF
  ++ b "Connection: close" ++ CRLF
  ++ CRLF ++ body.

Definition send_error_response (writer : StreamWriter) (status : Z) (message : str)
  : result StreamWriter :=
  match encode (u "Error " ++ str_int status ++ u ": " ++ message) with
  | Raise e => Raise e
  | Return body => Return (write writer (error_response_for status body))
  end.

(** *** The module's upstream, lines 11 and 12

    [os.environ] as a partial map from names to values. *)
Definition environ : Type := str -> option str.

(** [os.getenv(name, default)] *)
Definition getenv (env : environ) (name default : str) : str :=
  match env name with Some value => value | None => default end.

(** [int(s)] as an expression that returns or raises. *)
Definition int_of (int : str -> int_result) (s : str) : result Z :=
  match int s with
  | IntValue n => Return n
  | IntInvalidLiteral => Raise (ValueError (InvalidLiteralForInt s))
  | IntDigitLimit => Raise (ValueError ExceedsIntDigitLimit)
  end.

Definition upstream_host_of (env : environ) : str :=
  getenv env (u "UPSTREAM_HOST") (u "localhost").

Definition upstream_port_of (int : str -> int_result) (env : environ) : result Z :=
  int_of int (getenv env (u "UPSTREAM_PORT") (u "3001")).

End Server.

(** ** [config.py] *)

Module Configuration.
Import Py Server.

Record Config : Type := {
  host : str;
  port : Z;
  upstream_host : str;
  upstream_port : Z;
  max_connections : Z
}.

(** [Config.from_env()]: the arguments of the constructor are evaluated in
    their order, and the first [int] that raises ends the call. *)
Definition from_env (int : str -> int_result) (env : environ) : result Config :=
  let host := getenv env (u "DEVPROXY_HOST") (u "127.0.0.1") in
  bind (int_of int (getenv env (u "DEVPROXY_PORT") (u "8889"))) (fun port =>
  let upstream_host := getenv env (u "UPSTREAM_HOST") (u "localhost") in
  bind (int_of int (getenv env (u "UPSTREAM_PORT") (u "3001"))) (fun upstream_port =>
  bind (int_of int (getenv env (u "MAX_CONNECTIONS") (u "1000"))) (fun max_connections =>
  Return {| host := host; port := port; upstream_host := upstream_host;
            upstream_port := upstream_port;
            max_connections := max_connections |}))).

End Configuration.

(** ** [tests/test_path_handling.py] *)

Module Tests.
Import Py Server.

Definition strip_proxy_prefix (path : str) : str :=
  if negb (startswith N.eqb PROXY_PREFIX path) then path
  else
    let new_path := skipn (length PROXY_PREFIX) path in
    if is_empty new_path || negb (startswith N.eqb (u "/") new_path)
    then u "/" ++ lstrip (N.eqb 0x2F) new_path
    else new_path.

End Tests.

(** ** HTTP messages on the wire

    What the properties below say of requests and responses as byte
    strings: the tokens of a request line, and the headers and the body a
    client reads in a response. *)

Module Wire.
Import Py.

(** A visible ASCII character, as the tokens of a request line are made of. *)
Definition visible (c : byte) : bool :=
  ((0x21 <=? Byte.to_N c) && (Byte.to_N c <=? 0x7E))%N.

(** ASCII white space: what ends a line, and what [strip] removes. *)
Definition ascii_space (c : byte) : bool :=
  ((Byte.to_N c <? 0x80) && isspace (Byte.to_N c))%N.

Definition token (t : bytes) : bool :=
  negb (is_empty t) && forallb visible t.

(** A response up to the first blank line, and what follows it. *)
Definition response_head_body (resp : bytes) : option (bytes * bytes) :=
  find_sep Byte.eqb (CRLF ++ CRLF) resp.

Definition response_body (resp : bytes) : option bytes :=
  option_map snd (response_head_body resp).

(** The value of the first header line [name: value] of a response. *)
Definition response_header (name resp : bytes) : option bytes :=
  match response_head_body resp with
  | None => None
  | Some (head, _) =>
      match find_sep Byte.eqb (CRLF ++ name ++ b ": ") head with
      | None => None
      | Some (_, rest) =>
          match find_sep Byte.eqb CRLF rest with
          | Some (value, _) => Some value
          | None => Some rest
          end
      end
  end.

(** What C2 asks of a response: [Connection: close], and a
    [Content-Length] that is the length of the body. *)
Definition closes_and_frames (resp : bytes) : bool :=
  match response_header (b "Connection") resp,
        response_header (b "Content-Length") resp,
        response_body resp with
  | Some connection, Some content_length, Some body =>
      bytes_eqb connection (b "close")
      && bytes_eqb content_length (b (str_of_int (len body)))
  | _, _, _ => false
  end.

Definition not_CR (x : byte) : Prop := Byte.eqb CR x = false.

(** No match of [sep] starts in [pre] when [s] follows it. *)
Fixpoint misses (sep pre s : bytes) : bool :=
  match pre with
  | [] => true
  | c :: pre' => negb (startswith Byte.eqb sep (pre ++ s)) && misses sep pre' s
  end.

End Wire.

(** ** Connections to run the handler on *)

Module Examples.
Import Py Parser Server.

(** A client that sent [bs] and closed its side, one that sent [bs] and
    then nothing more, and one whose connection is lost once [bs] is
    read. *)
Definition closed_after (bs : bytes) : StreamReader :=
  {| buffer := bs; exception := None; at_end := EOF |}.
Definition stalled_after (bs : bytes) : StreamReader :=
  {| buffer := bs; exception := None; at_end := Stall |}.
Definition lost_after (bs : bytes) (c : connection_error) : StreamReader :=
  {| buffer := bs; exception := None; at_end := Lost c |}.

Definition fresh_writer : StreamWriter := {| written := []; closing := false |}.
Definition closing_writer : StreamWriter := {| written := []; closing := true |}.
Definition no_metrics : Metrics := {| request_count := 0; error_count := 0 |}.

Definition get (target : string) : bytes :=
  b "GET " ++ b target ++ b " HTTP/1.1" ++ CRLF
  ++ b "Host: localhost" ++ CRLF ++ CRLF.

(** An upstream that answers with one chunk and closes. *)
Definition answering (chunk : bytes) : result Upstream :=
  Return {| drain_raises := None; reads := [Return chunk; Return []];
            wait_closed_raises := None |}.

End Examples.

(** ** What the further properties speak of *)

Module Views.
Import Py Parser Parser.HTTPLimits Server.

(** The parser's errors that name a timeout, and those that name a client
    that went away. *)
Definition is_timeout_error (e : value_error) : bool :=
  match e with
  | RequestLineTimeout _ | HeaderTimeout _ | BodyTimeout _ => true
  | _ => false
  end.

Definition is_disconnect_error (e : value_error) : bool :=
  match e with
  | DisconnectedBeforeRequestLine | DisconnectedMidHeaders
  | DisconnectedBeforeFullBody => true
  | _ => false
  end.

(** The connection of a reader is lost with an error: it is stored on the
    reader already, or it is once the buffered bytes are read. *)
Definition lost_with (r : StreamReader) (c : connection_error) : Prop :=
  exception r = Some c \/ at_end r = Lost c.

(** An exception of a read fits the stream: a [ValueError] is that of the
    size asked for or of the limit on a line, a [TimeoutError] that of a
    client that stalls or of a connection lost with a timeout, an
    [IncompleteReadError] that of a stream that is closed and not lost,
    and any other is the error the connection is lost with. *)
Definition read_fits (r : StreamReader) (e : exn) : Prop :=
  match e with
  | ValueError v => is_timeout_error v = false /\ is_disconnect_error v = false
  | TimeoutError => at_end r = Stall \/ lost_with r TimedOut
  | IncompleteReadError => exception r = None /\ at_end r = EOF
  | _ => exists c, lost_with r c /\ exception_of c = e
  end.

(** An exception of the parser fits the stream it read: a timeout error
    only a client that stalls or a connection lost with a timeout, a
    disconnection error only a stream that is closed and not lost; an
    exception that is no [ValueError] is the error the connection is lost
    with, and neither [TimeoutError] nor [IncompleteReadError]. *)
Definition fits (r : StreamReader) (e : exn) : Prop :=
  match e with
  | ValueError v =>
      (is_timeout_error v = true -> at_end r = Stall \/ lost_with r TimedOut)
      /\ (is_disconnect_error v = true -> exception r = None /\ at_end r = EOF)
  | TimeoutError | IncompleteReadError => False
  | _ => exists c, lost_with r c /\ exception_of c = e
  end.

(** The response of the [except] clause of [handle_client] that catches
    an exception. *)
Definition answer_to (e : exn) : bytes :=
  match e with
  | ValueError _ => error_response
  | TimeoutError => timeout_response
  | _ => internal_error
  end.

(** A stored header came from a line split at its first [": "], within
    the limit on one header. *)
Definition header_ok (kv : str * str) : Prop :=
  contains N.eqb (u ": ") (fst kv) = false
  /\ len (fst kv) + 2 + len (snd kv) <= MAX_HEADER_SIZE.

(** The chunks of an upstream response up to the end of the stream or to
    the read that raises. *)
Fixpoint relayed (chunks : list (result bytes)) : list bytes :=
  match chunks with
  | Return chunk :: rest => if is_empty chunk then [] else chunk :: relayed rest
  | _ => []
  end.

(** *** Requests in ASCII *)

Definition printable (c : N) : bool := ((0x20 <=? c) && (c <=? 0x7E))%N.
Definition graphic (c : N) : bool := ((0x21 <=? c) && (c <=? 0x7E))%N.

(** The bytes of an ASCII string. *)
Definition ascii_bytes (s : str) : bytes := map byte_of s.

Definition first_graphic (s : str) : bool :=
  match s with c :: _ => graphic c | [] => true end.

Definition last_graphic (s : str) : bool :=
  match rev s with c :: _ => graphic c | [] => false end.

(** A header the parser stores as it is written: printable, the name free
    of [": "] and not starting with a space, the value not ending with
    one, the line within the limit. *)
Definition header_text (kv : str * str) : bool :=
  let '(k, v) := kv in
  forallb printable k && forallb printable v
  && negb (contains N.eqb (u ": ") k)
  && first_graphic (k ++ u ":") && last_graphic v
  && (len k + 2 + len v <=? MAX_HEADER_SIZE).

Fixpoint distinct (ks : list str) : bool :=
  match ks with
  | [] => true
  | k :: ks' => negb (existsb (str_eqb k) ks') && distinct ks'
  end.

(** The bytes of the header lines, line ends included. *)
Fixpoint headers_size (hs : dict) : Z :=
  match hs with
  | [] => 0
  | (k, v) :: hs' => len k + 2 + len v + 2 + headers_size hs'
  end.

(** A request that the parser reads back as it is written on the wire. *)
Definition well_formed (int : str -> int_result) (request : HTTPRequest) : bool :=
  negb (is_empty (method request)) && forallb graphic (method request)
  && forallb graphic (path request)
  && elem N.eqb (version request) [u "HTTP/1.0"; u "HTTP/1.1"]
  && (len (method request) + len (path request) + 12 <=? MAX_REQUEST_LINE)
  && forallb header_text (headers request)
  && distinct (keys (headers request))
  && (len (headers request) <=? MAX_HEADERS)
  && (headers_size (headers request) + 2 <=? MAX_TOTAL_HEADERS)
  && match dict_get (u "Content-Length") (headers request) with
     | Some value =>
         match int value with
         | IntValue n => (n =? len (body request)) && (n <=? MAX_BODY_SIZE)
         | _ => false
         end
     | None => is_empty (body request)
     end.

(** What the header loop stores from the lines of [hs], in their order. *)
Definition stored (hs acc : dict) : dict :=
  fold_left (fun d kv => dict_set (fst kv) (snd kv) d) hs acc.

Definition header_wire (kv : str * str) : bytes :=
  ascii_bytes (fst kv ++ u ": " ++ snd kv) ++ CRLF.

(** A request on the wire: request line, header lines, blank line, body. *)
Definition wire (request : HTTPRequest) : bytes :=
  ascii_bytes (method request ++ u " " ++ path request ++ u " " ++ version request)
  ++ CRLF
  ++ concat (map header_wire (headers request))
  ++ CRLF ++ body request.

End Views.

(** * Properties *)

(** ** The Python builtins *)

Module PyLemmas.
Import Py.

Section SequenceLemmas.
Context {A : Type} (eqb : A -> A -> bool).
Hypothesis eqb_spec : forall x y, eqb x y = true <-> x = y.

Lemma seq_eqb_eq (x y : list A) : seq_eqb eqb x y = true <-> x = y.
Proof.
  revert y; induction x as [|a x IH]; intros [|c y]; simpl;
    try (split; [discriminate | discriminate]); try tauto.
  rewrite andb_true_iff, eqb_spec, IH.
  split; [intros [-> ->]; reflexivity | intros [= -> ->]; auto].
Qed.

Lemma seq_eqb_refl (x : list A) : seq_eqb eqb x x = true.
Proof. apply seq_eqb_eq; reflexivity. Qed.

Lemma seq_eqb_neq (x y : list A) : x <> y -> seq_eqb eqb x y = false.
Proof.
  intros H; destruct (seq_eqb eqb x y) eqn:E; [|reflexivity].
  apply seq_eqb_eq in E; contradiction.
Qed.

Lemma startswith_app (p s : list A) : startswith eqb p (p ++ s) = true.
Proof.
  induction p as [|a p IH]; simpl; [reflexivity|].
  rewrite IH, andb_true_r. apply eqb_spec; reflexivity.
Qed.

Lemma startswith_inv (p s : list A) :
  startswith eqb p s = true -> s = p ++ skipn (length p) s.
Proof.
  revert s; induction p as [|a p IH]; intros s H; simpl in *; [reflexivity|].
  destruct s as [|c s]; [discriminate|].
  apply andb_true_iff in H as [H1 H2].
  apply eqb_spec in H1; subst c. simpl. f_equal. apply IH, H2.
Qed.

(** A separator is not found before its first element occurs. *)
Lemma find_sep_skip (c0 : A) (sep pre s : list A) :
  Forall (fun x => eqb c0 x = false) pre ->
  find_sep eqb (c0 :: sep) (pre ++ s) =
    match find_sep eqb (c0 :: sep) s with
    | Some (p, q) => Some (pre ++ p, q)
    | None => None
    end.
Proof.
  induction 1 as [|x pre Hx _ IH].
  - simpl app. destruct (find_sep eqb (c0 :: sep) s) as [[p q]|]; reflexivity.
  - change ((x :: pre) ++ s) with (x :: (pre ++ s)).
    cbn [find_sep startswith]. rewrite Hx. cbn [andb].
    rewrite IH. destruct (find_sep eqb (c0 :: sep) s) as [[p q]|]; reflexivity.
Qed.

Lemma find_sep_here (sep s : list A) :
  find_sep eqb sep (sep ++ s) = Some ([], s).
Proof.
  destruct sep as [|c0 sep]; [destruct s; reflexivity|].
  cbn [find_sep app].
  change (c0 :: sep ++ s) with ((c0 :: sep) ++ s).
  rewrite startswith_app. cbn [app length skipn].
  f_equal. f_equal.
  clear. induction sep as [|a l IH]; simpl; auto.
Qed.

(** Where a one-element separator first occurs. *)
Lemma find_sep_single (c0 : A) (pre s : list A) :
  Forall (fun x => eqb c0 x = false) pre ->
  find_sep eqb [c0] (pre ++ c0 :: s) = Some (pre, s).
Proof.
  intros H. rewrite find_sep_skip by assumption.
  change (c0 :: s) with ([c0] ++ s). rewrite find_sep_here.
  rewrite app_nil_r. reflexivity.
Qed.

Lemma find_sep_none (c0 : A) (sep s : list A) :
  Forall (fun x => eqb c0 x = false) s ->
  find_sep eqb (c0 :: sep) s = None.
Proof.
  induction 1 as [|x s Hx _ IH]; [reflexivity|].
  cbn [find_sep startswith]. rewrite Hx. cbn [andb]. rewrite IH. reflexivity.
Qed.

(** What [find_sep] returns rebuilds the sequence. *)
Lemma find_sep_parts (sep s pre post : list A) :
  find_sep eqb sep s = Some (pre, post) -> s = pre ++ sep ++ post.
Proof.
  revert pre post; induction s as [|c s IH]; intros pre post H.
  - cbn [find_sep] in H. destruct (startswith eqb sep []) eqn:E; [|discriminate].
    injection H as <- <-. apply startswith_inv in E. exact E.
  - cbn [find_sep] in H. destruct (startswith eqb sep (c :: s)) eqn:E.
    + injection H as <- <-. apply startswith_inv in E. exact E.
    + destruct (find_sep eqb sep s) as [[p q]|] eqn:F; [|discriminate].
      injection H as <- <-. simpl. f_equal. apply IH. reflexivity.
Qed.

(** [find_sep] finds the first occurrence. *)
Lemma find_sep_first (sep s pre post : list A) :
  find_sep eqb sep s = Some (pre, post) ->
  forall pre' post', s = pre' ++ sep ++ post' -> (length pre <= length pre')%nat.
Proof.
  revert pre post; induction s as [|c s IH]; intros pre post H pre' post' Hs.
  - cbn [find_sep] in H. destruct (startswith eqb sep []); [|discriminate].
    injection H as <- _. simpl. lia.
  - cbn [find_sep] in H. destruct (startswith eqb sep (c :: s)) eqn:E.
    + injection H as <- _. simpl. lia.
    + destruct (find_sep eqb sep s) as [[p q]|] eqn:F; [|discriminate].
      injection H as <- _.
      destruct pre' as [|c' pre'].
      * simpl in Hs. rewrite Hs, startswith_app in E. discriminate.
      * injection Hs as -> Hs. simpl.
        apply le_n_S. apply (IH p q eq_refl pre' post' Hs).
Qed.

Lemma dropwhile_app_stop (p : A -> bool) (l1 l2 : list A) (c : A) :
  Forall (fun x => p x = true) l1 -> p c = false ->
  dropwhile p (l1 ++ c :: l2) = c :: l2.
Proof.
  induction 1 as [|x l1 Hx _ IH]; intros Hc; simpl.
  - rewrite Hc; reflexivity.
  - rewrite Hx. apply IH, Hc.
Qed.

Section Preserved.
Variable P : A -> Prop.

Lemma Forall_skipn (n : nat) (s : list A) : Forall P s -> Forall P (skipn n s).
Proof.
  revert s; induction n as [|n IH]; intros s H; [exact H|].
  destruct s as [|c s]; [constructor|]. inversion H; subst. apply IH; assumption.
Qed.

Lemma Forall_find_sep (sep s pre post : list A) :
  Forall P s -> find_sep eqb sep s = Some (pre, post) ->
  Forall P pre /\ Forall P post.
Proof.
  revert pre post; induction s as [|c s IH]; intros pre post Hs H.
  - cbn [find_sep] in H. destruct (startswith eqb sep []); [|discriminate].
    injection H as <- <-. split; [constructor | apply Forall_skipn, Hs].
  - cbn [find_sep] in H. destruct (startswith eqb sep (c :: s)).
    + injection H as <- <-. split; [constructor | apply Forall_skipn, Hs].
    + destruct (find_sep eqb sep s) as [[p q]|] eqn:F; [|discriminate].
      injection H as <- <-. inversion Hs; subst.
      destruct (IH p q) as [Hp Hq]; auto.
Qed.

Lemma Forall_split (sep : list A) (n : nat) (s : list A) :
  Forall P s -> Forall (Forall P) (split eqb sep n s).
Proof.
  revert s; induction n as [|n IH]; intros s Hs; simpl.
  - constructor; [exact Hs | constructor].
  - destruct (find_sep eqb sep s) as [[p q]|] eqn:F.
    + destruct (Forall_find_sep _ _ _ _ Hs F) as [Hp Hq].
      constructor; [exact Hp | apply IH, Hq].
    + constructor; [exact Hs | constructor].
Qed.

Lemma Forall_dropwhile (p : A -> bool) (s : list A) :
  Forall P s -> Forall P (dropwhile p s).
Proof.
  induction 1 as [|c s Hc Hs IH]; simpl; [constructor|].
  destruct (p c); [exact IH | constructor; assumption].
Qed.
End Preserved.
End SequenceLemmas.

Lemma N_eqb_spec (x y : N) : N.eqb x y = true <-> x = y.
Proof. apply N.eqb_eq. Qed.

Lemma Byte_eqb_spec (x y : byte) : Byte.eqb x y = true <-> x = y.
Proof. split; [apply Byte.byte_dec_bl | apply Byte.byte_dec_lb]. Qed.

Lemma str_eqb_eq (x y : str) : str_eqb x y = true <-> x = y.
Proof. apply seq_eqb_eq, N_eqb_spec. Qed.

Lemma str_eqb_refl (x : str) : str_eqb x x = true.
Proof. apply str_eqb_eq; reflexivity. Qed.

Lemma str_eqb_neq (x y : str) : x <> y -> str_eqb x y = false.
Proof. apply seq_eqb_neq, N_eqb_spec. Qed.

Lemma str_eqb_sym (x y : str) : str_eqb x y = str_eqb y x.
Proof.
  destruct (str_eqb x y) eqn:E.
  - apply str_eqb_eq in E; subst. symmetry; apply str_eqb_refl.
  - destruct (str_eqb y x) eqn:E'; [|reflexivity].
    apply str_eqb_eq in E'; subst. rewrite str_eqb_refl in E; discriminate.
Qed.

Lemma Forall_strip (P : N -> Prop) (s : str) : Forall P s -> Forall P (strip s).
Proof.
  intros H. unfold strip, rstrip, lstrip.
  apply Forall_rev, Forall_dropwhile, Forall_rev, Forall_dropwhile, H.
Qed.

End PyLemmas.

(** ** The request parser *)

Module ParserProofs.
Import Py PyLemmas Parser Parser.HTTPLimits Wire.

(** *** The header loop never runs out of turns *)

Lemma read_headers_total (fuel : nat) :
  forall r total_size header_count headers,
    header_count <= MAX_HEADERS ->
    MAX_HEADERS < header_count + Z.of_nat fuel ->
    exists out, read_headers fuel r total_size header_count headers = Some out.
Proof.
  induction fuel as [|fuel IH]; intros r ts hc hs Hle Hlt; [lia|].
  cbn [read_headers].
  destruct (readline HEADER_TIMEOUT r) as [[line|e] r'].
  2:{ destruct e; eauto. }
  destruct (is_empty line); [eauto|].
  destruct (ts + len line >? MAX_TOTAL_HEADERS); [eauto|].
  destruct (decode line) as [s|e]; [|eauto].
  destruct (is_empty (strip s)); [eauto|].
  destruct (len (strip s) >? MAX_HEADER_SIZE); [eauto|].
  destruct (hc + 1 >? MAX_HEADERS) eqn:Hc; [eauto|].
  assert (hc + 1 <= MAX_HEADERS) by lia.
  destruct (negb (contains N.eqb (u ": ") (strip s))).
  - apply IH; lia.
  - destruct (split N.eqb (u ": ") 1 (strip s)) as [|k [|v [|x l]]]; eauto.
    apply IH; lia.
Qed.

Section Parse.
Variable int : str -> int_result.

(** [parse_request_production] always returns or raises. *)
Lemma parse_request_production_total (r : StreamReader) :
  exists out, parse_request_production int r = Some out.
Proof.
  unfold parse_request_production.
  destruct (read_request_line r) as [[[[m p] v]|e] r1]; [|eauto].
  destruct (read_headers_total header_turns r1 0 0 [])
    as [[[[[hs ts] hc]|e] r2] H];
    [unfold MAX_HEADERS; lia | unfold header_turns, MAX_HEADERS; lia | | ];
    rewrite H; [|eauto].
  destruct (read_body int r2 hs) as [[bd|e] r3]; eauto.
Qed.
End Parse.

(** *** ASCII lines *)

Lemma visible_ascii (c : byte) : visible c = true -> (Byte.to_N c <? 0x80)%N = true.
Proof. destruct c; intros H; try discriminate H; reflexivity. Qed.

Lemma visible_not_space (c : byte) : visible c = true -> isspace (Byte.to_N c) = false.
Proof. destruct c; intros H; try discriminate H; reflexivity. Qed.

Lemma visible_not_sp (c : byte) : visible c = true -> N.eqb 0x20 (Byte.to_N c) = false.
Proof. destruct c; intros H; try discriminate H; reflexivity. Qed.

Lemma decode_ascii (bs : bytes) :
  Forall (fun c => (Byte.to_N c <? 0x80)%N = true) bs ->
  decode_utf8 bs = Some (map Byte.to_N bs).
Proof.
  induction 1 as [|c bs Hc _ IH]; [reflexivity|].
  cbn [decode_utf8 map]. rewrite Hc, IH. reflexivity.
Qed.

Lemma strip_core (c l : N) (mid ws : str) :
  isspace c = false -> isspace l = false ->
  Forall (fun x => isspace x = true) ws ->
  strip ((c :: mid ++ [l]) ++ ws) = c :: mid ++ [l].
Proof.
  intros Hc Hl Hws. unfold strip, lstrip, rstrip.
  cbn [app dropwhile]. rewrite Hc.
  change (c :: (mid ++ [l]) ++ ws) with ((c :: mid ++ [l]) ++ ws).
  rewrite rev_app_distr.
  change (c :: mid ++ [l]) with ((c :: mid) ++ [l]).
  rewrite (rev_app_distr (c :: mid) [l]). cbn [rev app].
  rewrite (dropwhile_app_stop isspace (rev ws) (rev mid ++ [c]) l);
    [| apply Forall_rev, Hws | exact Hl].
  change (l :: rev mid ++ [c]) with ([l] ++ (rev mid ++ [c])).
  rewrite rev_app_distr, rev_app_distr. cbn [rev app].
  rewrite rev_involutive. reflexivity.
Qed.

Lemma split_three (m p v : str) :
  Forall (fun x => N.eqb 0x20 x = false) m ->
  Forall (fun x => N.eqb 0x20 x = false) p ->
  split N.eqb (u " ") 2 (m ++ u " " ++ p ++ u " " ++ v) = [m; p; v].
Proof.
  intros Hm Hp. change (u " ") with [0x20%N]. cbn [split app].
  rewrite (find_sep_single N.eqb N_eqb_spec) by assumption.
  rewrite (find_sep_single N.eqb N_eqb_spec) by assumption.
  reflexivity.
Qed.

(** *** The [dict] of headers *)

Lemma dict_get_set_same (k v : str) (d : dict) : dict_get k (dict_set k v d) = Some v.
Proof.
  induction d as [|[k' v'] d IH]; simpl.
  - rewrite str_eqb_refl; reflexivity.
  - destruct (str_eqb k k') eqn:E; simpl; rewrite E; [reflexivity | exact IH].
Qed.

Lemma dict_get_set_other (k k0 v : str) (d : dict) :
  k0 <> k -> dict_get k0 (dict_set k v d) = dict_get k0 d.
Proof.
  intros Hne. induction d as [|[k' v'] d IH]; simpl.
  - rewrite str_eqb_neq by assumption; reflexivity.
  - destruct (str_eqb k k') eqn:E; simpl.
    + apply str_eqb_eq in E; subst k'. rewrite str_eqb_neq by assumption.
      reflexivity.
    + destruct (str_eqb k0 k'); [reflexivity | exact IH].
Qed.

Lemma keys_dict_set (k v : str) (d : dict) :
  keys (dict_set k v d) = if dict_mem k d then keys d else keys d ++ [k].
Proof.
  unfold dict_mem, keys. induction d as [|[k' v'] d IH]; simpl; [reflexivity|].
  destruct (str_eqb k k') eqn:E; simpl; [reflexivity|].
  rewrite IH. destruct (dict_get k d); reflexivity.
Qed.

(** What [dict_set] does to the entries: the entry of the key is replaced
    where it stands, or a new entry is added at the end. *)
Lemma dict_set_entries (k v : str) (d : dict) :
  (exists pre old post,
      d = pre ++ (k, old) :: post /\ dict_get k pre = None
      /\ dict_set k v d = pre ++ (k, v) :: post)
  \/ (dict_get k d = None /\ dict_set k v d = d ++ [(k, v)]).
Proof.
  induction d as [|[k' v'] d IH]; simpl.
  - right; auto.
  - destruct (str_eqb k k') eqn:E.
    + apply str_eqb_eq in E; subst k'. left. exists [], v', d. auto.
    + destruct IH as [(pre & old & post & Hd & Hpre & Hset)|[Hnone Hset]].
      * left. exists ((k', v') :: pre), old, post. simpl. rewrite E.
        subst d. rewrite Hset. auto.
      * right. rewrite Hset. auto.
Qed.

(** *** A read that returns

    A read returns only from a reader on which no error is stored, and
    leaves none. *)

Lemma readline_returns (timeout : Z) (r r' : StreamReader) (line : bytes) :
  readline timeout r = (Return line, r') ->
  exception r = None /\ exception r' = None /\ at_end r' = at_end r.
Proof.
  unfold readline. destruct (exception r) as [c|] eqn:Ex; [discriminate|].
  destruct (take_line (buffer r)) as [[l rest]|].
  - destruct (len l - 1 >? DEFAULT_LIMIT); [discriminate|].
    intros [= _ <-]. cbn. auto.
  - destruct (len (buffer r) >? DEFAULT_LIMIT); [discriminate|].
    destruct (at_end r) eqn:Ea; try discriminate.
    intros [= _ <-]. cbn. auto.
Qed.

Lemma read_headers_returns (fuel : nat) :
  forall r total_size header_count headers out r',
    read_headers fuel r total_size header_count headers = Some (Return out, r') ->
    exception r' = None.
Proof.
  induction fuel as [|fuel IH]; intros r ts hc hs out r' H; [discriminate|].
  cbn [read_headers] in H.
  destruct (readline HEADER_TIMEOUT r) as [[line|e] r1] eqn:E.
  2:{ destruct e; discriminate. }
  apply readline_returns in E as (_ & E & _).
  destruct (is_empty line); [discriminate|].
  destruct (ts + len line >? MAX_TOTAL_HEADERS); [discriminate|].
  destruct (decode line) as [s|e]; [|discriminate].
  destruct (is_empty (strip s)); [injection H as _ <-; exact E|].
  destruct (len (strip s) >? MAX_HEADER_SIZE); [discriminate|].
  destruct (hc + 1 >? MAX_HEADERS); [discriminate|].
  destruct (negb (contains N.eqb (u ": ") (strip s))); [apply IH in H; exact H|].
  destruct (split N.eqb (u ": ") 1 (strip s)) as [|k [|v [|x l]]];
    try discriminate.
  apply IH in H. exact H.
Qed.

Section Claims.
Variable int : str -> int_result.

(** C3, on the code: a request line whose version is not supported raises
    "Unsupported HTTP version" inside the [try] of lines 55 to 60, whose
    [except ValueError] replaces it by "Malformed request line", the error
    of a request line with too few tokens; the first error is only the
    cause chained to the second. *)
Theorem C3_unsupported_version_raised_as_malformed :
  parse_request_production int
    {| buffer := b "GET / HTTP/2.0" ++ CRLF ++ CRLF; exception := None; at_end := EOF |}
  = Some (Raise (ValueError (MalformedRequestLine (u "GET / HTTP/2.0")
                               (UnsupportedHTTPVersion (u "HTTP/2.0")))),
          {| buffer := CRLF; exception := None; at_end := EOF |})
  /\ parse_request_production int
       {| buffer := b "GET /" ++ CRLF ++ CRLF; exception := None; at_end := EOF |}
     = Some (Raise (ValueError (MalformedRequestLine (u "GET /")
                                  (NotEnoughValuesToUnpack 3 2))),
             {| buffer := CRLF; exception := None; at_end := EOF |}).
Proof. split; reflexivity. Qed.

(** C4: with a [Content-Length] header whose value is an integer [L],
    [0 <= L <= 10,000,000], the parser returns a request whose body is
    exactly [L] bytes, or raises; it returns the next [L] bytes of the
    stream when they are there, and raises "Client disconnected before
    sending full body" when the stream ends before them. Without a
    [Content-Length] header the body is empty and the reader is left as
    the header phase left it. *)
Theorem C4_content_length_body_exact :
  forall r m p v r1 hs ts hc r2,
    read_request_line r = (Return (m, p, v), r1) ->
    read_headers header_turns r1 0 0 [] = Some (Return (hs, ts, hc), r2) ->
    (forall value L,
        dict_get (u "Content-Length") hs = Some value ->
        int value = IntValue L ->
        0 <= L <= MAX_BODY_SIZE ->
        match parse_request_production int r with
        | Some (Return request, _) => len (body request) = L
        | Some (Raise _, _) => True
        | None => False
        end
        /\ (L <= len (buffer r2) ->
            exists r3,
              parse_request_production int r =
                Some (Return {| method := m; path := p; version := v;
                                headers := hs;
                                body := firstn (Z.to_nat L) (buffer r2) |}, r3)
              /\ buffer r3 = skipn (Z.to_nat L) (buffer r2))
        /\ (len (buffer r2) < L -> at_end r2 = EOF ->
            exists r3,
              parse_request_production int r =
                Some (Raise (ValueError DisconnectedBeforeFullBody), r3)))
    /\ (dict_get (u "Content-Length") hs = None ->
        parse_request_production int r =
          Some (Return {| method := m; path := p; version := v;
                          headers := hs; body := [] |}, r2)).
Proof.
  intros r m p v r1 hs ts hc r2 Hline Hheaders.
  unfold parse_request_production. rewrite Hline, Hheaders.
  unfold read_body. split.
  - intros value L Hget Hint [H0 Hmax]. rewrite Hget, Hint.
    assert (Hgt : (L >? MAX_BODY_SIZE) = false) by lia. rewrite Hgt.
    unfold readexactly.
    assert (Hneg : (L <? 0) = false) by lia. rewrite Hneg.
    rewrite (read_headers_returns _ _ _ _ _ _ _ Hheaders).
    destruct (L =? 0) eqn:Hz.
    + assert (L = 0) by lia. subst L. split; [reflexivity | split].
      * intros _. exists r2. split; reflexivity.
      * unfold len. lia.
    + destruct (L <=? len (buffer r2)) eqn:Hle.
      * cbn [body]. split; [|split].
        -- unfold len in *. rewrite length_firstn. lia.
        -- intros _. eexists. split; reflexivity.
        -- lia.
      * destruct (at_end r2) as [| |[| |]]; (split; [exact I | split]);
          try lia; try discriminate.
        intros _ _. eexists; reflexivity.
  - intros Hget. rewrite Hget. reflexivity.
Qed.

(** C5: a request line read from the stream that is longer than 4096
    bytes makes the parse fail with "Request line too long"; one of at
    most 4096 bytes passes the request-line phase, which yields its three
    tokens, when it decodes to a method, a space, a path, a space and
    [HTTP/1.0] or [HTTP/1.1] with white space around, and so when its
    bytes are two tokens of visible ASCII characters and the version,
    separated by single spaces and followed by the line ending. *)
Theorem C5_request_line_limit :
  forall r r' line,
    readline REQUEST_TIMEOUT r = (Return line, r') ->
    (len line > MAX_REQUEST_LINE ->
     parse_request_production int r =
       Some (Raise (ValueError (RequestLineTooLong (len line))), r'))
    /\ (forall s m p v,
           len line <= MAX_REQUEST_LINE ->
           decode_utf8 line = Some s ->
           strip s = m ++ u " " ++ p ++ u " " ++ v ->
           Forall (fun c => c <> 0x20%N) m ->
           Forall (fun c => c <> 0x20%N) p ->
           v = u "HTTP/1.0" \/ v = u "HTTP/1.1" ->
           read_request_line r = (Return (m, p, v), r'))
    /\ (forall M P V eol,
           line = M ++ b " " ++ P ++ b " " ++ V ++ eol ->
           token M = true -> token P = true ->
           V = b "HTTP/1.0" \/ V = b "HTTP/1.1" ->
           forallb ascii_space eol = true ->
           len line <= MAX_REQUEST_LINE ->
           read_request_line r =
             (Return (map Byte.to_N M, map Byte.to_N P, map Byte.to_N V), r')).
Proof.
  intros r r' line Hread. split; [|split].
  - intros Hlong. unfold parse_request_production, read_request_line.
    rewrite Hread.
    destruct line as [|c line]; [unfold len, MAX_REQUEST_LINE in Hlong; simpl in Hlong; lia|].
    cbn [is_empty].
    assert (Hgt : (len (c :: line) >? MAX_REQUEST_LINE) = true) by lia.
    rewrite Hgt. reflexivity.
  - intros s m p v Hshort Hdec Hstrip Hm Hp Hv.
    unfold read_request_line. rewrite Hread.
    destruct line as [|c line].
    { injection Hdec as <-. destruct m; discriminate Hstrip. }
    cbn [is_empty].
    assert (Hle : (len (c :: line) >? MAX_REQUEST_LINE) = false) by lia.
    rewrite Hle. unfold decode. rewrite Hdec. cbn [bind]. rewrite Hstrip.
    unfold parse_request_line. rewrite split_three.
    + destruct Hv as [-> | ->]; reflexivity.
    + eapply Forall_impl; [|exact Hm]. intros c0 Hc. apply N.eqb_neq.
      intros <-. apply Hc. reflexivity.
    + eapply Forall_impl; [|exact Hp]. intros c0 Hc. apply N.eqb_neq.
      intros <-. apply Hc. reflexivity.
  - intros M P V eol -> HM HP HV Heol Hshort.
    unfold read_request_line. rewrite Hread.
    unfold token in HM, HP.
    apply andb_true_iff in HM as [HM0 HM], HP as [_ HP].
    rewrite forallb_forall in HM, HP, Heol.
    destruct M as [|m0 M]; [discriminate|]. cbn [app is_empty].
    change (m0 :: M ++ b " " ++ P ++ b " " ++ V ++ eol)
      with ((m0 :: M) ++ b " " ++ P ++ b " " ++ V ++ eol) in *.
    assert (Hle : (len ((m0 :: M) ++ b " " ++ P ++ b " " ++ V ++ eol)
                   >? MAX_REQUEST_LINE) = false) by lia.
    rewrite Hle. clear Hle Hshort.
    assert (HV7 : exists l, V = b "HTTP/1." ++ [l] /\ visible l = true).
    { destruct HV as [-> | ->]; eexists; split; reflexivity. }
    destruct HV7 as (l & HVl & Hl).
    assert (Hvis : forall c, In c (b "HTTP/1.") -> visible c = true).
    { intros c Hc. simpl in Hc. intuition (subst; reflexivity). }
    unfold decode. rewrite decode_ascii.
    2:{ rewrite Forall_forall. intros c Hc.
        rewrite !in_app_iff in Hc.
        destruct Hc as [Hc|[Hc|[Hc|[Hc|[Hc|Hc]]]]].
        - apply visible_ascii, HM, Hc.
        - simpl in Hc. destruct Hc as [<-|[]]. reflexivity.
        - apply visible_ascii, HP, Hc.
        - simpl in Hc. destruct Hc as [<-|[]]. reflexivity.
        - apply visible_ascii. subst V. rewrite in_app_iff in Hc.
          destruct Hc as [Hc|[<-|[]]]; [apply Hvis, Hc | exact Hl].
        - specialize (Heol c Hc). unfold ascii_space in Heol.
          apply andb_true_iff in Heol. tauto. }
    cbn [bind].
    replace (map Byte.to_N ((m0 :: M) ++ b " " ++ P ++ b " " ++ V ++ eol))
      with ((Byte.to_N m0
               :: (map Byte.to_N M ++ u " " ++ map Byte.to_N P ++ u " "
                     ++ u "HTTP/1.") ++ [Byte.to_N l]) ++ map Byte.to_N eol).
    2:{ subst V. rewrite !map_app. cbn [map app]. rewrite <- !app_assoc.
        reflexivity. }
    rewrite strip_core.
    2:{ apply visible_not_space, HM. left; reflexivity. }
    2:{ apply visible_not_space, Hl. }
    2:{ rewrite Forall_forall. intros x Hx. apply in_map_iff in Hx.
        destruct Hx as (c & <- & Hc). specialize (Heol c Hc).
        unfold ascii_space in Heol. apply andb_true_iff in Heol. tauto. }
    replace (Byte.to_N m0
               :: (map Byte.to_N M ++ u " " ++ map Byte.to_N P ++ u " "
                     ++ u "HTTP/1.") ++ [Byte.to_N l])
      with (map Byte.to_N (m0 :: M) ++ u " " ++ map Byte.to_N P ++ u " "
              ++ map Byte.to_N V).
    2:{ subst V. rewrite !map_app. cbn [map app]. rewrite <- !app_assoc.
        reflexivity. }
    unfold parse_request_line. rewrite split_three.
    2:{ rewrite Forall_forall. intros x Hx. apply in_map_iff in Hx.
        destruct Hx as (c & <- & Hc). apply visible_not_sp, HM, Hc. }
    2:{ rewrite Forall_forall. intros x Hx. apply in_map_iff in Hx.
        destruct Hx as (c & <- & Hc). apply visible_not_sp, HP, Hc. }
    destruct HV as [-> | ->]; reflexivity.
Qed.

(** C7: in the header phase a line that is read, is not the blank line and
    lacks [": "] is skipped: the loop goes on with the same headers, the
    header count one higher and the line's bytes added to the total, and
    both limits apply to it as to any line. A line that contains [": "]
    is split at its first occurrence, no other one starts earlier, and the
    value is stored under the name, replacing the value an earlier line
    gave that name. *)
Theorem C7_header_line_skipped_or_stored :
  forall fuel r r' line total_size header_count headers,
    readline HEADER_TIMEOUT r = (Return line, r') ->
    line <> [] ->
    (total_size + len line > MAX_TOTAL_HEADERS ->
     read_headers (S fuel) r total_size header_count headers =
       Some (Raise (ValueError (HeadersTooBig (total_size + len line))), r'))
    /\ (forall s,
           total_size + len line <= MAX_TOTAL_HEADERS ->
           decode_utf8 line = Some s ->
           strip s <> [] ->
           len (strip s) <= MAX_HEADER_SIZE ->
           (header_count + 1 > MAX_HEADERS ->
            read_headers (S fuel) r total_size header_count headers =
              Some (Raise (ValueError (TooManyHeaders (header_count + 1))), r'))
           /\ (header_count + 1 <= MAX_HEADERS ->
               (contains N.eqb (u ": ") (strip s) = false ->
                read_headers (S fuel) r total_size header_count headers =
                  read_headers fuel r' (total_size + len line)
                    (header_count + 1) headers)
               /\ (forall key value,
                      find_sep N.eqb (u ": ") (strip s) = Some (key, value) ->
                      strip s = key ++ u ": " ++ value
                      /\ (forall key' value',
                            strip s = key' ++ u ": " ++ value' ->
                            (length key <= length key')%nat)
                      /\ read_headers (S fuel) r total_size header_count headers =
                           read_headers fuel r' (total_size + len line)
                             (header_count + 1) (dict_set key value headers)
                      /\ dict_get key (dict_set key value headers) = Some value
                      /\ (forall k, k <> key ->
                            dict_get k (dict_set key value headers)
                            = dict_get k headers)
                      /\ keys (dict_set key value headers)
                         = if dict_mem key headers then keys headers
                           else keys headers ++ [key]))).
Proof.
  intros fuel r r' line ts hc hs Hread Hne.
  assert (Hnonempty : is_empty line = false)
    by (destruct line; [contradiction | reflexivity]).
  split.
  - intros Hbig. cbn [read_headers]. rewrite Hread, Hnonempty.
    assert (Hgt : (ts + len line >? MAX_TOTAL_HEADERS) = true) by lia.
    rewrite Hgt. reflexivity.
  - intros s Hsize Hdec Hs Hlen.
    assert (Hstep :
      read_headers (S fuel) r ts hc hs =
        if hc + 1 >? MAX_HEADERS
        then Some (Raise (ValueError (TooManyHeaders (hc + 1))), r')
        else if negb (contains N.eqb (u ": ") (strip s))
        then read_headers fuel r' (ts + len line) (hc + 1) hs
        else match split N.eqb (u ": ") 1 (strip s) with
             | [key; value] =>
                 read_headers fuel r' (ts + len line) (hc + 1)
                   (dict_set key value hs)
             | parts =>
                 Some (Raise (ValueError
                                (NotEnoughValuesToUnpack 2 (length parts))), r')
             end).
    { cbn [read_headers]. rewrite Hread, Hnonempty.
      assert (Hgt : (ts + len line >? MAX_TOTAL_HEADERS) = false) by lia.
      rewrite Hgt. unfold decode. rewrite Hdec.
      assert (His : is_empty (strip s) = false)
        by (destruct (strip s); [contradiction | reflexivity]).
      rewrite His.
      assert (Hl : (len (strip s) >? MAX_HEADER_SIZE) = false) by lia.
      rewrite Hl. reflexivity. }
    split.
    + intros Hmany. rewrite Hstep.
      assert (Hgt : (hc + 1 >? MAX_HEADERS) = true) by lia.
      rewrite Hgt. reflexivity.
    + intros Hfew.
      assert (Hgt : (hc + 1 >? MAX_HEADERS) = false) by lia.
      rewrite Hgt in Hstep. split.
      * intros Hno. rewrite Hstep, Hno. reflexivity.
      * intros key value Hfind. split; [|split; [|split; [|split; [|split]]]].
        -- apply (find_sep_parts N.eqb N_eqb_spec). exact Hfind.
        -- apply (find_sep_first N.eqb N_eqb_spec _ _ _ _ Hfind).
        -- rewrite Hstep. unfold contains. cbn [split]. rewrite Hfind.
           reflexivity.
        -- apply dict_get_set_same.
        -- intros k Hk. apply dict_get_set_other, Hk.
        -- apply keys_dict_set.
Qed.
End Claims.

(** *** The claims on concrete streams *)

(** C4 on a request with three of six body bytes announced, on one cut short, and on one without [Content-Length]. *)
Lemma C4_witness :
  let head := b "POST /upload HTTP/1.1" ++ CRLF ++ b "Content-Length: 3" ++ CRLF
              ++ CRLF in
  let r := Examples.closed_after (head ++ b "abcdef") in
  let short := Examples.closed_after (head ++ b "ab") in
  let request body :=
    {| method := u "POST"; path := u "/upload"; version := u "HTTP/1.1";
       headers := [(u "Content-Length", u "3")]; body := body |} in
  (exists r3,
      parse_request_production int_str r = Some (Return (request (b "abc")), r3)
      /\ buffer r3 = b "def")
  /\ (exists r3,
         parse_request_production int_str short
         = Some (Raise (ValueError DisconnectedBeforeFullBody), r3))
  /\ parse_request_production int_str (Examples.closed_after (Examples.get "/"))
     = Some (Return {| method := u "GET"; path := u "/"; version := u "HTTP/1.1";
                       headers := [(u "Host", u "localhost")]; body := [] |},
             Examples.closed_after []).
Proof.
  cbv zeta. split; [|split].
  - destruct (C4_content_length_body_exact int_str
                (Examples.closed_after
                   (b "POST /upload HTTP/1.1" ++ CRLF ++ b "Content-Length: 3"
                    ++ CRLF ++ CRLF ++ b "abcdef"))
                (u "POST") (u "/upload") (u "HTTP/1.1")
                (Examples.closed_after
                   (b "Content-Length: 3" ++ CRLF ++ CRLF ++ b "abcdef"))
                [(u "Content-Length", u "3")] 21 1
                (Examples.closed_after (b "abcdef"))
                eq_refl eq_refl) as [Hlength _].
    destruct (Hlength (u "3") 3 eq_refl eq_refl) as (_ & Hfull & _).
    + unfold MAX_BODY_SIZE. lia.
    + apply Hfull. vm_compute. discriminate.
  - destruct (C4_content_length_body_exact int_str
                (Examples.closed_after
                   (b "POST /upload HTTP/1.1" ++ CRLF ++ b "Content-Length: 3"
                    ++ CRLF ++ CRLF ++ b "ab"))
                (u "POST") (u "/upload") (u "HTTP/1.1")
                (Examples.closed_after
                   (b "Content-Length: 3" ++ CRLF ++ CRLF ++ b "ab"))
                [(u "Content-Length", u "3")] 21 1
                (Examples.closed_after (b "ab"))
                eq_refl eq_refl) as [Hlength _].
    destruct (Hlength (u "3") 3 eq_refl eq_refl) as (_ & _ & Hshort).
    + unfold MAX_BODY_SIZE. lia.
    + apply Hshort; reflexivity.
  - destruct (C4_content_length_body_exact int_str
                (Examples.closed_after (Examples.get "/"))
                (u "GET") (u "/") (u "HTTP/1.1")
                (Examples.closed_after (b "Host: localhost" ++ CRLF ++ CRLF))
                [(u "Host", u "localhost")] 19 1
                (Examples.closed_after [])
                eq_refl eq_refl) as [_ Hnone].
    apply Hnone. reflexivity.
Defined.

(** C5 on a line of 4097 bytes and on the request line of a [GET]. *)
Lemma C5_witness :
  let long_line := repeat x41 4096 ++ [LF] in
  parse_request_production int_str (Examples.closed_after long_line)
  = Some (Raise (ValueError (RequestLineTooLong (len long_line))),
          Examples.closed_after [])
  /\ len long_line = 4097
  /\ read_request_line (Examples.closed_after (Examples.get "/index.html"))
     = (Return (u "GET", u "/index.html", u "HTTP/1.1"),
        Examples.closed_after (b "Host: localhost" ++ CRLF ++ CRLF)).
Proof.
  cbv zeta. split; [|split].
  - apply (proj1 (C5_request_line_limit int_str
                    (Examples.closed_after (repeat x41 4096 ++ [LF]))
                    (Examples.closed_after [])
                    (repeat x41 4096 ++ [LF]) eq_refl)).
    vm_compute. reflexivity.
  - vm_compute. reflexivity.
  - apply (proj2 (proj2 (C5_request_line_limit int_str
                    (Examples.closed_after (Examples.get "/index.html"))
                    (Examples.closed_after (b "Host: localhost" ++ CRLF ++ CRLF))
                    (b "GET /index.html HTTP/1.1" ++ CRLF) eq_refl))
             (b "GET") (b "/index.html") (b "HTTP/1.1") CRLF).
    + reflexivity.
    + reflexivity.
    + reflexivity.
    + right. reflexivity.
    + reflexivity.
    + vm_compute. discriminate.
Defined.

(** C7 on a header block with a line without separator and a repeated name, and at the two limits. *)
Lemma C7_witness :
  let r := Examples.closed_after
             (b "no separator here" ++ CRLF ++ b "Host: a" ++ CRLF
              ++ b "Host: b: c" ++ CRLF ++ CRLF) in
  let r1 := Examples.closed_after
              (b "Host: a" ++ CRLF ++ b "Host: b: c" ++ CRLF ++ CRLF) in
  let r2 := Examples.closed_after (b "Host: b: c" ++ CRLF ++ CRLF) in
  let r3 := Examples.closed_after CRLF in
  read_headers 4 r 0 0 [] = read_headers 3 r1 19 1 []
  /\ read_headers 3 r1 19 1 [] = read_headers 2 r2 28 2 [(u "Host", u "a")]
  /\ read_headers 2 r2 28 2 [(u "Host", u "a")]
     = read_headers 1 r3 40 3 [(u "Host", u "b: c")]
  /\ read_headers 4 r 0 0 []
     = Some (Return ([(u "Host", u "b: c")], 42, 3), Examples.closed_after [])
  /\ read_headers 1 r 65530 0 []
     = Some (Raise (ValueError (HeadersTooBig 65549)), r1)
  /\ read_headers 1 r 0 100 []
     = Some (Raise (ValueError (TooManyHeaders 101)), r1).
Proof.
  cbv zeta.
  assert (Hnonempty : forall (c : byte) l, c :: l <> []) by discriminate.
  split; [|split; [|split; [|split; [|split]]]].
  - destruct (C7_header_line_skipped_or_stored 3
                (Examples.closed_after
                   (b "no separator here" ++ CRLF ++ b "Host: a" ++ CRLF
                    ++ b "Host: b: c" ++ CRLF ++ CRLF))
                (Examples.closed_after
                   (b "Host: a" ++ CRLF ++ b "Host: b: c" ++ CRLF ++ CRLF))
                (b "no separator here" ++ CRLF) 0 0 []
                eq_refl (Hnonempty _ _)) as [_ Hline].
    destruct (Hline (u "no separator here" ++ [0x0D; 0x0A]%N)) as [_ Hfew];
      [vm_compute; discriminate | reflexivity | discriminate
      | vm_compute; discriminate |].
    destruct Hfew as [Hskip _]; [vm_compute; discriminate|].
    apply Hskip. reflexivity.
  - destruct (C7_header_line_skipped_or_stored 2
                (Examples.closed_after
                   (b "Host: a" ++ CRLF ++ b "Host: b: c" ++ CRLF ++ CRLF))
                (Examples.closed_after (b "Host: b: c" ++ CRLF ++ CRLF))
                (b "Host: a" ++ CRLF) 19 1 []
                eq_refl (Hnonempty _ _)) as [_ Hline].
    destruct (Hline (u "Host: a" ++ [0x0D; 0x0A]%N)) as [_ Hfew];
      [vm_compute; discriminate | reflexivity | discriminate
      | vm_compute; discriminate |].
    destruct Hfew as [_ Hstore]; [vm_compute; discriminate|].
    destruct (Hstore (u "Host") (u "a") eq_refl) as (_ & _ & Hstep & _).
    exact Hstep.
  - destruct (C7_header_line_skipped_or_stored 1
                (Examples.closed_after (b "Host: b: c" ++ CRLF ++ CRLF))
                (Examples.closed_after CRLF)
                (b "Host: b: c" ++ CRLF) 28 2 [(u "Host", u "a")]
                eq_refl (Hnonempty _ _)) as [_ Hline].
    destruct (Hline (u "Host: b: c" ++ [0x0D; 0x0A]%N)) as [_ Hfew];
      [vm_compute; discriminate | reflexivity | discriminate
      | vm_compute; discriminate |].
    destruct Hfew as [_ Hstore]; [vm_compute; discriminate|].
    destruct (Hstore (u "Host") (u "b: c") eq_refl) as (_ & _ & Hstep & _).
    exact Hstep.
  - reflexivity.
  - destruct (C7_header_line_skipped_or_stored 0
                (Examples.closed_after
                   (b "no separator here" ++ CRLF ++ b "Host: a" ++ CRLF
                    ++ b "Host: b: c" ++ CRLF ++ CRLF))
                (Examples.closed_after
                   (b "Host: a" ++ CRLF ++ b "Host: b: c" ++ CRLF ++ CRLF))
                (b "no separator here" ++ CRLF) 65530 0 []
                eq_refl (Hnonempty _ _)) as [Hbig _].
    apply Hbig. vm_compute. reflexivity.
  - destruct (C7_header_line_skipped_or_stored 0
                (Examples.closed_after
                   (b "no separator here" ++ CRLF ++ b "Host: a" ++ CRLF
                    ++ b "Host: b: c" ++ CRLF ++ CRLF))
                (Examples.closed_after
                   (b "Host: a" ++ CRLF ++ b "Host: b: c" ++ CRLF ++ CRLF))
                (b "no separator here" ++ CRLF) 0 100 []
                eq_refl (Hnonempty _ _)) as [_ Hline].
    destruct (Hline (u "no separator here" ++ [0x0D; 0x0A]%N)) as [Hmany _];
      [vm_compute; discriminate | reflexivity | discriminate
      | vm_compute; discriminate |].
    apply Hmany. vm_compute. reflexivity.
Defined.

End ParserProofs.

(** ** The connection handler and the forwarder *)

Module ServerProofs.
Import Py PyLemmas Parser Parser.HTTPLimits Server Tests Wire ParserProofs.

(** *** What is decoded can be encoded *)

Lemma is_scalar_iff (c : N) :
  is_scalar c = true <-> (c <= 0x10FFFF /\ (c < 0xD800 \/ 0xDFFF < c))%N.
Proof.
  unfold is_scalar, is_surrogate.
  rewrite andb_true_iff, negb_true_iff, andb_false_iff, N.leb_le, !N.leb_gt.
  tauto.
Qed.

Lemma is_cont_low6 (c : byte) : is_cont c = true -> (low6 c <= 63)%N.
Proof.
  unfold is_cont, low6. rewrite andb_true_iff, !N.leb_le. lia.
Qed.

Lemma decode_utf8_scalar_upto (n : nat) :
  forall bs s, (length bs <= n)%nat -> decode_utf8 bs = Some s -> Forall scalar s.
Proof.
  induction n as [|n IH]; intros bs s Hlen H.
  - destruct bs; [|simpl in Hlen; lia]. injection H as <-. constructor.
  - destruct bs as [|b0 t0]; [injection H as <-; constructor|].
    cbn [decode_utf8] in H. simpl in Hlen.
    destruct (N.ltb_spec (Byte.to_N b0) 0x80).
    { destruct (decode_utf8 t0) as [s0|] eqn:E; [|discriminate].
      injection H as <-. constructor; [apply is_scalar_iff; lia|].
      apply (IH t0); [lia | exact E]. }
    destruct (N.ltb_spec (Byte.to_N b0) 0xC2); [discriminate|].
    destruct (N.ltb_spec (Byte.to_N b0) 0xE0).
    { destruct t0 as [|b1 t1]; [discriminate|].
      destruct (is_cont b1) eqn:C1; [|discriminate].
      destruct (decode_utf8 t1) as [s0|] eqn:E; [|discriminate].
      injection H as <-. apply is_cont_low6 in C1.
      constructor; [apply is_scalar_iff; lia|].
      apply (IH t1); [simpl in Hlen; lia | exact E]. }
    destruct (N.ltb_spec (Byte.to_N b0) 0xF0).
    { destruct t0 as [|b1 [|b2 t2]]; try discriminate.
      match type of H with (if ?c then _ else _) = _ =>
        destruct c eqn:C; [|discriminate] end.
      destruct (decode_utf8 t2) as [s0|] eqn:E; [|discriminate].
      injection H as <-.
      rewrite !andb_true_iff, negb_true_iff in C.
      destruct C as [[[C1 C2] _] C4].
      apply is_cont_low6 in C1, C2.
      constructor.
      - unfold scalar, is_scalar. rewrite C4, andb_true_r. apply N.leb_le. lia.
      - apply (IH t2); [simpl in Hlen; lia | exact E]. }
    destruct (N.ltb_spec (Byte.to_N b0) 0xF5); [|discriminate].
    destruct t0 as [|b1 [|b2 [|b3 t3]]]; try discriminate.
    match type of H with (if ?c then _ else _) = _ =>
      destruct c eqn:C; [|discriminate] end.
    destruct (decode_utf8 t3) as [s0|] eqn:E; [|discriminate].
    injection H as <-.
    rewrite !andb_true_iff, !N.leb_le in C.
    constructor; [apply is_scalar_iff; lia|].
    apply (IH t3); [simpl in Hlen; lia | exact E].
Qed.

Lemma decode_utf8_scalar (bs : bytes) (s : str) :
  decode_utf8 bs = Some s -> Forall scalar s.
Proof. apply (decode_utf8_scalar_upto (length bs)). lia. Qed.

Lemma encode_char_scalar (c : N) : scalar c -> exists x, encode_char c = Some x.
Proof.
  unfold scalar, is_scalar, encode_char. intros H.
  apply andb_true_iff in H as [H1 H2]. apply negb_true_iff in H2.
  rewrite H1, H2.
  destruct (c <? 0x80)%N; [eauto|].
  destruct (c <? 0x800)%N; [eauto|].
  destruct (c <? 0x10000)%N; eauto.
Qed.

Lemma encode_scalar (s : str) : Forall scalar s -> exists x, encode s = Return x.
Proof.
  unfold encode. induction 1 as [|c s Hc _ [x IH]]; [simpl; eauto|].
  cbn [encode_utf8]. destruct (encode_char_scalar c Hc) as [y ->].
  destruct (encode_utf8 s); [eauto | discriminate].
Qed.

Lemma u_scalar (s : string) : Forall scalar (u s).
Proof.
  unfold u. apply Forall_forall. intros x Hx. apply in_map_iff in Hx.
  destruct Hx as (c & <- & _). destruct c; reflexivity.
Qed.

Lemma parse_request_line_scalar (line m p v : str) :
  Forall scalar line -> parse_request_line line = Return (m, p, v) ->
  Forall scalar m /\ Forall scalar p.
Proof.
  intros Hline. unfold parse_request_line.
  pose proof (Forall_split N.eqb scalar (u " ") 2 line Hline) as Hparts.
  destruct (split N.eqb (u " ") 2 line) as [|m' [|p' [|v' [|x l]]]];
    try discriminate.
  destruct (elem N.eqb v' [u "HTTP/1.0"; u "HTTP/1.1"]); [|discriminate].
  intros [= <- <- <-].
  inversion Hparts as [|? ? Hm Hrest]; subst.
  inversion Hrest as [|? ? Hp _]; subst. auto.
Qed.

Lemma read_request_line_scalar (r r1 : StreamReader) (m p v : str) :
  read_request_line r = (Return (m, p, v), r1) ->
  Forall scalar m /\ Forall scalar p.
Proof.
  unfold read_request_line.
  destruct (readline REQUEST_TIMEOUT r) as [[line|e] r'].
  2:{ destruct e; discriminate. }
  destruct (is_empty line); [discriminate|].
  destruct (len line >? MAX_REQUEST_LINE); [discriminate|].
  unfold decode. destruct (decode_utf8 line) as [s|] eqn:E; [|discriminate].
  cbn [bind]. intros [= H _].
  apply (parse_request_line_scalar (strip s) m p v); [|exact H].
  apply Forall_strip, (decode_utf8_scalar line), E.
Qed.

Section Parsed.
Variable int : str -> int_result.

(** The method and the path of a parsed request can be encoded. *)
Lemma parsed_request_scalar (r r' : StreamReader) (request : HTTPRequest) :
  parse_request_production int r = Some (Return request, r') ->
  Forall scalar (method request) /\ Forall scalar (path request).
Proof.
  unfold parse_request_production.
  destruct (read_request_line r) as [[[[m p] v]|e] r1] eqn:E; [|discriminate].
  destruct (read_headers header_turns r1 0 0 []) as [[[[[hs ts] hc]|e] r2]|];
    try discriminate.
  destruct (read_body int r2 hs) as [[bd|e] r3]; [|discriminate].
  intros [= <- _]. cbn [method path].
  apply (read_request_line_scalar r r1 m p v E).
Qed.
End Parsed.

Lemma generate_response_returns (request : HTTPRequest) (metrics : Metrics) :
  Forall scalar (method request) -> Forall scalar (path request) ->
  exists body, generate_response request metrics = Return body.
Proof.
  intros Hm Hp. unfold generate_response, snapshot, str_int, NL.
  destruct (str_eqb (path request) (u "/metrics")); apply encode_scalar.
  - repeat (apply Forall_app; split); try apply u_scalar;
      repeat constructor.
  - repeat (apply Forall_app; split); try apply u_scalar; assumption.
Qed.

(** *** The responses as a client reads them *)

Lemma find_sep_misses (sep pre s : bytes) :
  misses sep pre s = true ->
  find_sep Byte.eqb sep (pre ++ s) =
    match find_sep Byte.eqb sep s with
    | Some (p, q) => Some (pre ++ p, q)
    | None => None
    end.
Proof.
  induction pre as [|c pre IH]; intros H.
  - simpl. destruct (find_sep Byte.eqb sep s) as [[p q]|]; reflexivity.
  - cbn [misses] in H. apply andb_true_iff in H as [H1 H2].
    apply negb_true_iff in H1.
    change ((c :: pre) ++ s) with (c :: pre ++ s) in *.
    cbn [find_sep]. rewrite H1, (IH H2).
    destruct (find_sep Byte.eqb sep s) as [[p q]|]; reflexivity.
Qed.

Lemma uint_not_CR (d : Decimal.uint) :
  Forall not_CR (b (DecimalString.NilEmpty.string_of_uint d)).
Proof.
  induction d; simpl; constructor; (reflexivity || assumption).
Qed.

(** No digit, and no sign, of [str(n)] is a carriage return. *)
Lemma bytes_int_not_CR (z : Z) : Forall not_CR (bytes_int z).
Proof.
  unfold bytes_int, str_of_int. destruct (Z.to_int z) as [d|d].
  - apply uint_not_CR.
  - cbn [DecimalString.NilEmpty.string_of_int]. constructor;
      [reflexivity | apply uint_not_CR].
Qed.

Lemma response_200_read (body : bytes) :
  response_header (b "Connection") (response_200 body) = Some (b "close")
  /\ response_header (b "Content-Length") (response_200 body)
     = Some (bytes_int (len body))
  /\ response_body (response_200 body) = Some body.
Proof.
  pose proof (bytes_int_not_CR (len body)) as HD.
  set (D := bytes_int (len body)) in *.
  set (P1 := b "HTTP/1.1 200 OK" ++ CRLF
             ++ b "Content-Type: text/plain; charset=utf-8").
  set (L := CRLF ++ b "Content-Length: ").
  set (P2 := CRLF ++ b "Connection: close").
  assert (Hshape : response_200 body = (P1 ++ L) ++ D ++ P2 ++ (CRLF ++ CRLF) ++ body).
  { unfold response_200, P1, L, P2. fold D. rewrite <- !app_assoc. reflexivity. }
  assert (Hsplit : response_head_body (response_200 body)
                   = Some ((P1 ++ L) ++ D ++ P2, body)).
  { rewrite Hshape. unfold response_head_body.
    rewrite find_sep_misses by reflexivity.
    change (CRLF ++ CRLF) with (CR :: [LF; CR; LF]).
    rewrite (find_sep_skip Byte.eqb CR [LF; CR; LF] D) by exact HD.
    change (CR :: [LF; CR; LF]) with (CRLF ++ CRLF).
    rewrite find_sep_misses by reflexivity.
    rewrite (find_sep_here Byte.eqb Byte_eqb_spec).
    rewrite app_nil_r. reflexivity. }
  unfold response_header, response_body. rewrite Hsplit. cbn [option_map snd].
  split; [|split; [|reflexivity]].
  - rewrite <- app_assoc.
    rewrite find_sep_misses by reflexivity.
    rewrite find_sep_misses by reflexivity.
    change (CRLF ++ b "Connection" ++ b ": ")
      with (CR :: (LF :: b "Connection" ++ b ": ")).
    rewrite (find_sep_skip Byte.eqb CR _ D) by exact HD.
    reflexivity.
  - change (CRLF ++ b "Content-Length" ++ b ": ") with L.
    rewrite <- app_assoc.
    rewrite find_sep_misses by reflexivity.
    rewrite (find_sep_here Byte.eqb Byte_eqb_spec).
    change CRLF with (CR :: [LF]).
    rewrite (find_sep_skip Byte.eqb CR [LF] D) by exact HD.
    change (CR :: [LF]) with CRLF. unfold P2.
    rewrite (find_sep_here Byte.eqb Byte_eqb_spec).
    rewrite app_nil_r. reflexivity.
Qed.

(** C2, as the code has it: the 200, 400 and 408 responses carry
    [Connection: close] and a [Content-Length] that is the length of
    their body, whatever the body of the 200 response; the 500 response
    carries [Connection: close] and the body "Internal Server Error"; the
    502 and 504 responses carry [Content-Length: 0] and an empty body, and
    no [Connection] header. *)
Theorem C2_generated_responses_framing :
  (forall body,
      response_header (b "Connection") (response_200 body) = Some (b "close")
      /\ response_header (b "Content-Length") (response_200 body)
         = Some (bytes_int (len body))
      /\ response_body (response_200 body) = Some body)
  /\ (closes_and_frames error_response = true
      /\ response_body error_response = Some (b "BAD REQUEST"))
  /\ (closes_and_frames timeout_response = true
      /\ response_body timeout_response = Some (b "Request Timeout"))
  /\ (response_header (b "Connection") internal_error = Some (b "close")
      /\ response_body internal_error = Some (b "Internal Server Error"))
  /\ (response_header (b "Connection") gateway_timeout = None
      /\ response_header (b "Content-Length") gateway_timeout = Some (b "0")
      /\ response_body gateway_timeout = Some [])
  /\ (response_header (b "Connection") bad_gateway = None
      /\ response_header (b "Content-Length") bad_gateway = Some (b "0")
      /\ response_body bad_gateway = Some []).
Proof.
  split; [exact response_200_read|].
  repeat split; vm_compute; reflexivity.
Qed.

(** The 500 response announces 25 bytes and carries the 21 of its body. *)
Lemma internal_error_content_length :
  response_header (b "Content-Length") internal_error = Some (b "25")
  /\ option_map len (response_body internal_error) = Some 21.
Proof. split; vm_compute; reflexivity. Qed.

(** C2 does not hold of the 504 response: the forwarder writes it, and it
    has no [Connection: close] header. *)
Lemma C2_gateway_timeout_lacks_connection_close :
  written (client (proxy_to_upstream {| written := []; closing := false |}
                     {| method := u "GET"; path := u "/"; version := u "HTTP/1.1";
                        headers := []; body := [] |}
                     (u "localhost") 3001 (Raise TimeoutError)))
  = [gateway_timeout]
  /\ response_header (b "Connection") gateway_timeout = None
  /\ closes_and_frames gateway_timeout = false.
Proof. repeat split; vm_compute; reflexivity. Qed.

(** *** The connection handler's error responses *)

(** [handle_client] always ends, with the client's writer closed. *)
Lemma handle_client_total (int : str -> int_result) (host : str) (port : Z)
    (reader : StreamReader) (writer : StreamWriter) (metrics : Metrics)
    (connection : result Upstream) :
  exists handled,
    handle_client int host port reader writer metrics connection = Some handled
    /\ closing (writer_after handled) = true
    /\ request_count (metrics_after handled) = request_count metrics + 1.
Proof.
  unfold handle_client, serve.
  destruct (parse_request_production_total int reader) as [[[request|e] r'] ->].
  - destruct (startswith N.eqb PROXY_PREFIX (path request)).
    + destruct (raised _) as [[]|]; eexists; repeat split.
    + destruct (generate_response request (increment_requests metrics))
        as [body|e]; [eexists; repeat split|].
      destruct e; eexists; repeat split.
  - destruct e; eexists; repeat split.
Qed.

(** C1, on the code: each of the three parser timeouts is raised as a
    [ValueError], so the handler counts an error and answers 400 with the
    body "BAD REQUEST"; the 408 response of its [except asyncio.TimeoutError]
    clause is not written. *)
Theorem C1_parser_timeouts_answered_400 :
  forall host port connection,
    let answered_400 reader :=
      handle_client int_str host port reader Examples.fresh_writer
        Examples.no_metrics connection
      = Some {| writer_after := {| written := [error_response]; closing := true |};
                metrics_after := {| request_count := 1; error_count := 1 |};
                forwarded := None |} in
    let raises reader e :=
      option_map fst (parse_request_production int_str reader)
      = Some (Raise (ValueError e)) in
    let line_stalled := Examples.stalled_after [] in
    let headers_stalled :=
      Examples.stalled_after
        (b "GET / HTTP/1.1" ++ CRLF ++ b "Host: localhost" ++ CRLF) in
    let body_stalled :=
      Examples.stalled_after
        (b "POST / HTTP/1.1" ++ CRLF ++ b "Content-Length: 5" ++ CRLF ++ CRLF
         ++ b "ab") in
    (raises line_stalled (RequestLineTimeout 5) /\ answered_400 line_stalled)
    /\ (raises headers_stalled (HeaderTimeout 10) /\ answered_400 headers_stalled)
    /\ (raises body_stalled (BodyTimeout 30) /\ answered_400 body_stalled)
    /\ response_body error_response = Some (b "BAD REQUEST")
    /\ error_response <> timeout_response.
Proof.
  intros host port connection. cbv zeta.
  repeat split; try (vm_compute; reflexivity).
  intros E. assert (H : bytes_eqb error_response timeout_response = true).
  { rewrite E. apply (seq_eqb_refl Byte.eqb Byte_eqb_spec). }
  vm_compute in H. discriminate H.
Qed.

(** *** The forwarder *)

Lemma stream_response_closing (chunks : list (result bytes)) :
  forall w out w', stream_response chunks w = (out, w') ->
    closing w' = closing w
    /\ exists streamed, written w' = written w ++ streamed.
Proof.
  induction chunks as [|[chunk|e] chunks IH]; intros w out w' H; cbn in H.
  - injection H as _ <-. split; [reflexivity | exists []; symmetry; apply app_nil_r].
  - destruct (is_empty chunk).
    + injection H as _ <-. split; [reflexivity | exists []; symmetry; apply app_nil_r].
    + apply IH in H as [Hc [streamed Hw]]. cbn in Hc, Hw. split; [exact Hc|].
      exists (chunk :: streamed). rewrite Hw, <- app_assoc. reflexivity.
  - injection H as _ <-. split; [reflexivity | exists []; symmetry; apply app_nil_r].
Qed.

(** The forwarder only adds to what the client was written, and leaves the
    state of its connection as it found it. *)
Lemma forward_client (w : StreamWriter) (request : HTTPRequest)
    (host : str) (port : Z) (up : Upstream) :
  forall out w' sent, forward w request host port up = (out, w', sent) ->
    closing w' = closing w
    /\ exists streamed, written w' = written w ++ streamed.
Proof.
  intros out w' sent. unfold forward.
  assert (Hsame : closing w = closing w
                  /\ exists streamed, written w = written w ++ streamed)
    by (split; [reflexivity | exists []; symmetry; apply app_nil_r]).
  destruct (encode _) as [request_line|e]; [|intros [= _ <- _]; exact Hsame].
  destruct (write_headers _ _) as [[[]|e] sent0]; [|intros [= _ <- _]; exact Hsame].
  destruct (drain_raises up); [intros [= _ <- _]; exact Hsame|].
  destruct (stream_response (reads up) w) as [streamed w1] eqn:E.
  intros [= _ <- _]. apply (stream_response_closing _ _ _ _ E).
Qed.

(** The call of the forwarder ends with an exception only when the
    upstream connection was opened and [wait_closed] raises. *)
Lemma proxy_raised (w : StreamWriter) (request : HTTPRequest)
    (host : str) (port : Z) (connection : result Upstream) :
  raised (proxy_to_upstream w request host port connection)
  = match connection with
    | Return up => wait_closed_raises up
    | Raise _ => None
    end.
Proof.
  unfold proxy_to_upstream. destruct connection as [up|e]; [|reflexivity].
  destruct (forward w request host port up) as [[attempt w'] sent]. reflexivity.
Qed.

(** C8, as the code has it: when connecting to the upstream times out the
    forwarder writes the fixed 504 response, with an empty body, if the
    client connection is not closing, sends nothing upstream and does not
    connect again; on a failure that is not a timeout, when connecting,
    sending or streaming, it writes the fixed 502 response, with an empty
    body, after what it had streamed, again only if the client connection
    is not closing. After a failed connection the call returns; after a
    later failure it ends with what [wait_closed] raises, if it does. *)
Theorem C8_forwarder_failures :
  forall w request host port,
    proxy_to_upstream w request host port (Raise TimeoutError)
    = {| client := if is_closing w then w else write w gateway_timeout;
         sent_upstream := []; upstream_closed := false; raised := None |}
    /\ (forall e, e <> TimeoutError ->
          proxy_to_upstream w request host port (Raise e)
          = {| client := if is_closing w then w else write w bad_gateway;
               sent_upstream := []; upstream_closed := false; raised := None |})
    /\ (forall up e w' sent,
          forward w request host port up = (Raise e, w', sent) ->
          e <> TimeoutError ->
          proxy_to_upstream w request host port (Return up)
          = {| client := if is_closing w then w' else write w' bad_gateway;
               sent_upstream := sent; upstream_closed := true;
               raised := wait_closed_raises up |}
          /\ exists streamed, written w' = written w ++ streamed)
    /\ response_body gateway_timeout = Some []
    /\ response_body bad_gateway = Some [].
Proof.
  intros w request host port. unfold proxy_to_upstream, is_closing.
  split; [|split; [|split; [|split]]].
  - destruct (closing w); reflexivity.
  - intros e He. destruct e; try contradiction; destruct (closing w); reflexivity.
  - intros up e w' sent Hf He. rewrite Hf.
    destruct (forward_client _ _ _ _ _ _ _ _ Hf) as [Hc Hw].
    split; [|exact Hw].
    rewrite Hc.
    destruct e; try contradiction; destruct (closing w); reflexivity.
  - reflexivity.
  - reflexivity.
Qed.

(** C8 does not hold of a client connection that is closing: when the
    upstream refuses the connection, the forwarder writes nothing, no 502
    response. *)
Lemma C8_no_502_when_client_closing :
  written (client (proxy_to_upstream Examples.closing_writer
                     {| method := u "GET"; path := u "/"; version := u "HTTP/1.1";
                        headers := []; body := [] |}
                     (u "localhost") 3001 (Raise OSError)))
  = []
  /\ OSError <> TimeoutError.
Proof. split; [reflexivity | discriminate]. Qed.

Lemma write_headers_lines (hs : dict) :
  forall sent0 sent, write_headers hs sent0 = (Return tt, sent) ->
    exists lines,
      Forall2 (fun kv line =>
                 encode (fst kv ++ u ": " ++ snd kv ++ [0x0D; 0x0A]%N) = Return line)
        hs lines
      /\ sent = sent0 ++ lines.
Proof.
  induction hs as [|[k v] hs IH]; intros sent0 sent H; cbn [write_headers] in H.
  - injection H as <-. exists []. split; [constructor | symmetry; apply app_nil_r].
  - destruct (encode (k ++ u ": " ++ v ++ [0x0D; 0x0A]%N)) as [line|e] eqn:E;
      [|discriminate].
    apply IH in H as (lines & HF & ->).
    exists (line :: lines). split; [constructor; [exact E | exact HF]|].
    rewrite <- app_assoc. reflexivity.
Qed.

(** C9: when forwarding succeeds, what was written to the upstream is the
    request line made of the request's method, path and version, then one
    line [name: value] for each header of the request, in their order, with
    the value of [Host] replaced by [upstream_host:upstream_port] (and a
    [Host] line added last when the request had none), then the blank
    line, then the body when it is not empty. *)
Theorem C9_forwarded_request_bytes :
  forall w request host port up done w' sent,
    forward w request host port up = (Return done, w', sent) ->
    let host_value := host ++ u ":" ++ str_int port in
    let sent_headers := dict_set (u "Host") host_value (headers request) in
    sent_upstream (proxy_to_upstream w request host port (Return up)) = sent
    /\ (exists request_line header_lines,
           encode (method request ++ u " " ++ path request ++ u " "
                   ++ version request ++ [0x0D; 0x0A]%N) = Return request_line
           /\ Forall2 (fun kv line =>
                         encode (fst kv ++ u ": " ++ snd kv ++ [0x0D; 0x0A]%N)
                         = Return line)
                sent_headers header_lines
           /\ sent = [request_line] ++ header_lines ++ [CRLF]
                     ++ (if is_empty (body request) then [] else [body request])
           /\ concat sent = request_line ++ concat header_lines ++ CRLF
                            ++ body request)
    /\ dict_get (u "Host") sent_headers = Some host_value
    /\ (forall k, k <> u "Host" ->
          dict_get k sent_headers = dict_get k (headers request))
    /\ ((exists pre old post,
            headers request = pre ++ (u "Host", old) :: post
            /\ dict_get (u "Host") pre = None
            /\ sent_headers = pre ++ (u "Host", host_value) :: post)
        \/ (dict_get (u "Host") (headers request) = None
            /\ sent_headers = headers request ++ [(u "Host", host_value)])).
Proof.
  intros w request host port up done w' sent Hf. cbv zeta.
  split; [unfold proxy_to_upstream; rewrite Hf; reflexivity|].
  split; [|split; [apply dict_get_set_same
                  |split; [intros k Hk; apply dict_get_set_other, Hk
                          |apply dict_set_entries]]].
  unfold forward in Hf.
  destruct (encode (method request ++ _)) as [request_line|e] eqn:Hline;
    [|discriminate].
  destruct (write_headers _ _) as [[[]|e] sent0] eqn:Hheaders; [|discriminate].
  apply write_headers_lines in Hheaders as (lines & HF & ->).
  assert (Hsent : sent = [request_line] ++ lines ++ [CRLF]
                         ++ (if is_empty (body request) then []
                             else [body request])).
  { destruct (drain_raises up); [discriminate|].
    destruct (stream_response (reads up) w) as [streamed w1].
    injection Hf as _ _ <-.
    destruct (is_empty (body request)); rewrite <- ?app_assoc; reflexivity. }
  exists request_line, lines. repeat split; try assumption.
  rewrite Hsent, !concat_app. cbn [concat]. rewrite !app_nil_r.
  destruct (body request); cbn [is_empty concat]; rewrite ?app_nil_r; reflexivity.
Qed.

(** *** Routing *)

Lemma proxied_path_cases (request_path : str) :
  let rest := skipn (length PROXY_PREFIX) request_path in
  proxied_path request_path
  = if startswith N.eqb (u "/") rest then rest else u "/" ++ rest.
Proof.
  cbv zeta. unfold proxied_path.
  destruct (skipn (length PROXY_PREFIX) request_path) as [|c rest]; [reflexivity|].
  cbn [is_empty orb]. change (u "/") with [0x2F%N].
  cbn [startswith andb]. rewrite andb_true_r.
  destruct (N.eqb 0x2F c) eqn:E; [reflexivity|].
  cbn [negb]. unfold lstrip. cbn [dropwhile]. rewrite E. reflexivity.
Qed.

Section Routing.
Variable int : str -> int_result.
Variable UPSTREAM_HOST : str.
Variable UPSTREAM_PORT : Z.


(** C10, as the code has it: a parsed request whose path begins with the
    six characters "/proxy", whatever follows them, is handed to the
    forwarder; the path forwarded is what follows the prefix when that
    begins with "/", and "/" followed by it otherwise. The local
    responder is not called: when the forwarder returns, the handler
    writes nothing of its own and counts no error; when the forwarder
    ends with an exception, the one [wait_closed] raises on an upstream
    connection lost with an error, the handler counts an error and
    writes, after what the forwarder wrote, the response of the [except]
    clause of that exception, the 500 response unless the exception is a
    [TimeoutError] or a [ValueError]. *)
Theorem C10_prefix_routes_to_forwarder :
  forall reader reader' writer metrics connection request,
    parse_request_production int reader = Some (Return request, reader') ->
    startswith N.eqb PROXY_PREFIX (path request) = true ->
    let rest := skipn 6 (path request) in
    let run :=
      proxy_to_upstream writer
        {| method := method request;
           path := if startswith N.eqb (u "/") rest then rest else u "/" ++ rest;
           version := version request;
           headers := headers request;
           body := body request |}
        UPSTREAM_HOST UPSTREAM_PORT connection in
    path request = PROXY_PREFIX ++ rest
    /\ handle_client int UPSTREAM_HOST UPSTREAM_PORT reader writer metrics
         connection
       = Some
           match raised run with
           | None =>
               {| writer_after := close (client run);
                  metrics_after := increment_requests metrics;
                  forwarded := Some run |}
           | Some e =>
               {| writer_after :=
                    close (write (client run)
                             match e with
                             | ValueError _ => error_response
                             | TimeoutError => timeout_response
                             | _ => internal_error
                             end);
                  metrics_after := increment_errors (increment_requests metrics);
                  forwarded := Some run |}
           end
    /\ raised run
       = match connection with
         | Return up => wait_closed_raises up
         | Raise _ => None
         end.
Proof.
  intros reader reader' writer metrics connection request Hparse Hpath.
  cbv zeta. split; [|split].
  - apply (startswith_inv N.eqb N_eqb_spec) in Hpath. exact Hpath.
  - unfold handle_client, serve. rewrite Hparse, Hpath.
    rewrite proxied_path_cases.
    destruct (raised _) as [[]|]; reflexivity.
  - apply proxy_raised.
Qed.
End Routing.

(** C10 does not hold of "/proxy//a": it is forwarded as "//a", the
    leading slashes of what follows the prefix are not removed. *)
Lemma C10_leading_slashes_are_kept :
  let claimed_path := u "/" ++ lstrip (N.eqb 0x2F) (skipn 6 (u "/proxy//a")) in
  option_map (fun handled => option_map sent_upstream (forwarded handled))
    (handle_client int_str (u "localhost") 3001
       (Examples.closed_after (Examples.get "/proxy//a"))
       Examples.fresh_writer Examples.no_metrics (Examples.answering (b "ok")))
  = Some (Some [b "GET //a HTTP/1.1" ++ CRLF;
                b "Host: localhost:3001" ++ CRLF; CRLF])
  /\ claimed_path = u "/a"
  /\ proxied_path (u "/proxy//a") = u "//a"
  /\ proxied_path (u "/proxy//a") <> claimed_path.
Proof.
  cbv zeta. repeat split; try (vm_compute; reflexivity).
  vm_compute. discriminate.
Qed.

(** *** The claims on concrete connections *)


(** C8 on a fresh client: a connection that times out, one that is refused, and an upstream that breaks while streaming. *)
Lemma C8_witness :
  let request :=
    {| method := u "GET"; path := u "/"; version := u "HTTP/1.1";
       headers := []; body := [] |} in
  let sent := [b "GET / HTTP/1.1" ++ CRLF; b "Host: localhost:3001" ++ CRLF; CRLF] in
  let broken :=
    {| drain_raises := None;
       reads := [Return (b "HTTP/1.1 200 OK"); Raise ConnectionResetError];
       wait_closed_raises := Some ConnectionResetError |} in
  proxy_to_upstream Examples.fresh_writer request (u "localhost") 3001
    (Raise TimeoutError)
  = {| client := {| written := [gateway_timeout]; closing := false |};
       sent_upstream := []; upstream_closed := false; raised := None |}
  /\ proxy_to_upstream Examples.fresh_writer request (u "localhost") 3001
       (Raise OSError)
     = {| client := {| written := [bad_gateway]; closing := false |};
          sent_upstream := []; upstream_closed := false; raised := None |}
  /\ proxy_to_upstream Examples.fresh_writer request (u "localhost") 3001
       (Return broken)
     = {| client := {| written := [b "HTTP/1.1 200 OK"; bad_gateway];
                       closing := false |};
          sent_upstream := sent; upstream_closed := true;
          raised := Some ConnectionResetError |}.
Proof.
  cbv zeta.
  destruct (C8_forwarder_failures Examples.fresh_writer
              {| method := u "GET"; path := u "/"; version := u "HTTP/1.1";
                 headers := []; body := [] |} (u "localhost") 3001)
    as (Htimeout & Hconnect & Hlater & _).
  split; [exact Htimeout|].
  split; [apply Hconnect; discriminate|].
  destruct (Hlater
              {| drain_raises := None;
                 reads := [Return (b "HTTP/1.1 200 OK");
                           Raise ConnectionResetError];
                 wait_closed_raises := Some ConnectionResetError |}
              ConnectionResetError
              {| written := [b "HTTP/1.1 200 OK"]; closing := false |}
              [b "GET / HTTP/1.1" ++ CRLF; b "Host: localhost:3001" ++ CRLF; CRLF]
              eq_refl) as [Hrun _]; [discriminate|].
  exact Hrun.
Defined.

(** C9 on a [POST] with a [Host] header and a body. *)
Lemma C9_witness :
  let request :=
    {| method := u "POST"; path := u "/api"; version := u "HTTP/1.1";
       headers := [(u "Host", u "example.org"); (u "Content-Length", u "3")];
       body := b "abc" |} in
  let up := {| drain_raises := None; reads := [Return (b "ok")];
               wait_closed_raises := None |} in
  sent_upstream
    (proxy_to_upstream Examples.fresh_writer request (u "localhost") 3001 (Return up))
  = [b "POST /api HTTP/1.1" ++ CRLF; b "Host: localhost:3001" ++ CRLF;
     b "Content-Length: 3" ++ CRLF; CRLF; b "abc"]
  /\ dict_get (u "Content-Length")
       (dict_set (u "Host") (u "localhost" ++ u ":" ++ str_int 3001)
          (headers request))
     = Some (u "3").
Proof.
  cbv zeta.
  destruct (C9_forwarded_request_bytes Examples.fresh_writer
              {| method := u "POST"; path := u "/api"; version := u "HTTP/1.1";
                 headers := [(u "Host", u "example.org");
                             (u "Content-Length", u "3")];
                 body := b "abc" |}
              (u "localhost") 3001
              {| drain_raises := None; reads := [Return (b "ok")];
                 wait_closed_raises := None |}
              tt
              {| written := [b "ok"]; closing := false |}
              [b "POST /api HTTP/1.1" ++ CRLF; b "Host: localhost:3001" ++ CRLF;
               b "Content-Length: 3" ++ CRLF; CRLF; b "abc"]
              eq_refl) as (Hsent & _ & _ & Hother & _).
  split; [exact Hsent|].
  rewrite Hother; [reflexivity | discriminate].
Defined.

(** C10 on a request for "/proxytest", forwarded to an upstream that
    answers, and to one whose connection is reset while it answers. *)
Lemma C10_witness :
  let reader := Examples.closed_after (Examples.get "/proxytest") in
  let sent := [b "GET /test HTTP/1.1" ++ CRLF;
               b "Host: localhost:3001" ++ CRLF; CRLF] in
  let run :=
    {| client := {| written := [b "ok"]; closing := false |};
       sent_upstream := sent; upstream_closed := true; raised := None |} in
  let broken :=
    {| drain_raises := None;
       reads := [Return (b "ok"); Raise ConnectionResetError];
       wait_closed_raises := Some ConnectionResetError |} in
  let broken_run :=
    {| client := {| written := [b "ok"; bad_gateway]; closing := false |};
       sent_upstream := sent; upstream_closed := true;
       raised := Some ConnectionResetError |} in
  handle_client int_str (u "localhost") 3001 reader Examples.fresh_writer
    Examples.no_metrics (Examples.answering (b "ok"))
  = Some {| writer_after := {| written := [b "ok"]; closing := true |};
            metrics_after := {| request_count := 1; error_count := 0 |};
            forwarded := Some run |}
  /\ handle_client int_str (u "localhost") 3001 reader Examples.fresh_writer
       Examples.no_metrics (Return broken)
     = Some {| writer_after :=
                 {| written := [b "ok"; bad_gateway; internal_error];
                    closing := true |};
               metrics_after := {| request_count := 1; error_count := 1 |};
               forwarded := Some broken_run |}.
Proof.
  cbv zeta. split.
  - destruct (C10_prefix_routes_to_forwarder int_str (u "localhost") 3001
                (Examples.closed_after (Examples.get "/proxytest"))
                (Examples.closed_after [])
                Examples.fresh_writer Examples.no_metrics
                (Examples.answering (b "ok"))
                {| method := u "GET"; path := u "/proxytest";
                   version := u "HTTP/1.1";
                   headers := [(u "Host", u "localhost")]; body := [] |}
                eq_refl eq_refl) as (_ & Hhandled & _).
    rewrite Hhandled. reflexivity.
  - destruct (C10_prefix_routes_to_forwarder int_str (u "localhost") 3001
                (Examples.closed_after (Examples.get "/proxytest"))
                (Examples.closed_after [])
                Examples.fresh_writer Examples.no_metrics
                (Return {| drain_raises := None;
                           reads := [Return (b "ok"); Raise ConnectionResetError];
                           wait_closed_raises := Some ConnectionResetError |})
                {| method := u "GET"; path := u "/proxytest";
                   version := u "HTTP/1.1";
                   headers := [(u "Host", u "localhost")]; body := [] |}
                eq_refl eq_refl) as (_ & Hhandled & _).
    rewrite Hhandled. reflexivity.
Defined.

End ServerProofs.

(** ** The parser: what it raises, what it returns, what it reads *)

Module ParserInvariants.
Import Py PyLemmas Parser Parser.HTTPLimits Wire Views ParserProofs.

(** *** Reads *)

Lemma take_line_parts (bs : bytes) :
  forall line rest, take_line bs = Some (line, rest) ->
    bs = line ++ rest /\ line <> [].
Proof.
  induction bs as [|c bs IH]; intros line rest H; simpl in H; [discriminate|].
  destruct (Byte.eqb c LF).
  - injection H as <- <-. split; [reflexivity | discriminate].
  - destruct (take_line bs) as [[l r]|]; [|discriminate]. injection H as <- <-.
    destruct (IH l r eq_refl) as [-> _]. split; [reflexivity | discriminate].
Qed.

Lemma read_fits_stored (r : StreamReader) (c : connection_error) :
  exception r = Some c -> read_fits r (exception_of c).
Proof.
  intros Ex. destruct c; cbn.
  - exists Reset. split; [left; exact Ex | reflexivity].
  - right. left. exact Ex.
  - exists Failed. split; [left; exact Ex | reflexivity].
Qed.

Lemma read_fits_lost (r : StreamReader) (c : connection_error) :
  at_end r = Lost c -> read_fits r (exception_of c).
Proof.
  intros Ex. destruct c; cbn.
  - exists Reset. split; [right; exact Ex | reflexivity].
  - right. right. exact Ex.
  - exists Failed. split; [right; exact Ex | reflexivity].
Qed.

Lemma readline_cases (timeout : Z) (r r' : StreamReader) (res : result bytes) :
  readline timeout r = (res, r') ->
  at_end r' = at_end r
  /\ (exists consumed, buffer r = consumed ++ buffer r')
  /\ match res with
     | Return line =>
         buffer r = line ++ buffer r'
         /\ exception r = None /\ exception r' = None
         /\ (line = [] -> at_end r = EOF)
     | Raise e => read_fits r e /\ e <> IncompleteReadError
     end.
Proof.
  unfold readline, with_buffer, set_exception.
  destruct (exception r) as [c|] eqn:Ex.
  { intros [= <- <-]. split; [reflexivity|]. split; [exists []; reflexivity|].
    split; [apply read_fits_stored, Ex | destruct c; discriminate]. }
  destruct (take_line (buffer r)) as [[line rest]|] eqn:E.
  - apply take_line_parts in E as [E Hne].
    destruct (len line - 1 >? DEFAULT_LIMIT); intros [= <- <-];
      cbn [at_end buffer exception]; (split; [reflexivity|]);
      (split; [exists line; exact E|]).
    + cbn. split; [auto | discriminate].
    + split; [exact E|]. split; [reflexivity|]. split; [reflexivity|].
      intros ->. contradiction.
  - destruct (len (buffer r) >? DEFAULT_LIMIT).
    { intros [= <- <-]. cbn [at_end buffer exception].
      split; [reflexivity|]. split; [exists (buffer r); symmetry; apply app_nil_r|].
      cbn. split; [auto | discriminate]. }
    destruct (at_end r) as [| |c] eqn:Hend; intros [= <- <-];
      cbn [at_end buffer exception].
    + split; [reflexivity|]. split; [exists (buffer r); symmetry; apply app_nil_r|].
      split; [symmetry; apply app_nil_r|]. auto.
    + split; [exact Hend|]. split; [exists []; reflexivity|].
      split; [cbn; left; exact Hend | discriminate].
    + split; [reflexivity|]. split; [exists []; reflexivity|].
      split; [apply read_fits_lost, Hend | destruct c; discriminate].
Qed.

Lemma readexactly_cases (timeout n : Z) (r r' : StreamReader) (res : result bytes) :
  readexactly timeout n r = (res, r') ->
  at_end r' = at_end r
  /\ (exists consumed, buffer r = consumed ++ buffer r')
  /\ match res with
     | Return data =>
         buffer r = data ++ buffer r' /\ len data = n
         /\ exception r = None /\ exception r' = None
     | Raise e =>
         read_fits r e
         /\ (e = ValueError NegativeReadSize \/ forall v, e <> ValueError v)
     end.
Proof.
  unfold readexactly, with_buffer, set_exception.
  destruct (n <? 0) eqn:Hneg.
  { intros [= <- <-]. split; [reflexivity|]. split; [exists []; reflexivity|].
    cbn. auto. }
  destruct (exception r) as [c|] eqn:Ex.
  { intros [= <- <-]. split; [reflexivity|]. split; [exists []; reflexivity|].
    split; [apply read_fits_stored, Ex|]. right. destruct c; discriminate. }
  destruct (n =? 0) eqn:Hz.
  { intros [= <- <-]. split; [reflexivity|]. split; [exists []; reflexivity|].
    split; [reflexivity|]. split; [|auto]. apply Z.eqb_eq in Hz. subst n.
    reflexivity. }
  destruct (n <=? len (buffer r)) eqn:Hle.
  { intros [= <- <-]. cbn [at_end buffer exception]. split; [reflexivity|].
    split; [eexists; symmetry; apply firstn_skipn|].
    split; [symmetry; apply firstn_skipn|]. split; [|auto].
    apply Z.leb_le in Hle. apply Z.ltb_ge in Hneg.
    unfold len in *. rewrite length_firstn. lia. }
  destruct (at_end r) as [| |c] eqn:Hend; intros [= <- <-];
    cbn [at_end buffer exception].
  - split; [reflexivity|]. split; [exists (buffer r); symmetry; apply app_nil_r|].
    split; [cbn; auto | right; discriminate].
  - split; [exact Hend|]. split; [exists []; reflexivity|].
    split; [cbn; left; exact Hend | right; discriminate].
  - split; [reflexivity|]. split; [exists []; reflexivity|].
    split; [apply read_fits_lost, Hend | right; destruct c; discriminate].
Qed.

(** What a read raises, the parser raises as it is or as the error of its
    phase; from a later reader of the same stream, it fits the first. *)
Lemma fits_back (r r1 : StreamReader) (e : exn) :
  exception r = None -> exception r1 = None -> at_end r1 = at_end r ->
  fits r1 e -> fits r e.
Proof.
  intros Hr Hr1 Hend. unfold fits, lost_with. rewrite Hr, Hr1, Hend. auto.
Qed.

(** *** [strip] and [split] *)

Lemma dropwhile_head (p : N -> bool) (s : str) (c : N) (t : str) :
  dropwhile p s = c :: t -> p c = false.
Proof.
  induction s as [|x s IH]; simpl; [discriminate|].
  destruct (p x) eqn:E; [exact IH|]. intros [= <- _]. exact E.
Qed.

Lemma dropwhile_suffix (p : N -> bool) (s : str) :
  exists dropped, s = dropped ++ dropwhile p s.
Proof.
  induction s as [|x s [d IH]]; simpl; [exists []; reflexivity|].
  destruct (p x); [|exists []; reflexivity].
  exists (x :: d). simpl. f_equal. exact IH.
Qed.

Lemma rstrip_prefix (p : N -> bool) (s : str) :
  exists dropped, s = rstrip p s ++ dropped.
Proof.
  unfold rstrip. destruct (dropwhile_suffix p (rev s)) as [d Hd].
  exists (rev d). rewrite <- rev_app_distr, <- Hd. symmetry. apply rev_involutive.
Qed.

(** What [strip] leaves begins with no white space. *)
Lemma strip_head (s : str) (c : N) (t : str) :
  strip s = c :: t -> isspace c = false.
Proof.
  unfold strip, lstrip. intros H.
  destruct (rstrip_prefix isspace (dropwhile isspace s)) as [d Hd].
  rewrite H in Hd. apply (dropwhile_head isspace s c (t ++ d)). exact Hd.
Qed.

Lemma find_sep_single_notin (c0 : N) (s pre post : str) :
  find_sep N.eqb [c0] s = Some (pre, post) -> ~ In c0 pre.
Proof.
  revert pre post; induction s as [|c s IH]; intros pre post H.
  - cbn in H. discriminate.
  - cbn [find_sep startswith] in H. rewrite andb_true_r in H.
    destruct (N.eqb c0 c) eqn:E.
    + injection H as <- _. intros [].
    + destruct (find_sep N.eqb [c0] s) as [[p q]|] eqn:F; [|discriminate].
      injection H as <- _. intros [Hc|Hin].
      * subst c. rewrite N.eqb_refl in E. discriminate.
      * apply (IH p q eq_refl Hin).
Qed.

Lemma parse_request_line_raises (line : str) (e : exn) :
  parse_request_line line = Raise e ->
  exists cause, e = ValueError (MalformedRequestLine line cause).
Proof.
  unfold parse_request_line.
  destruct (split N.eqb (u " ") 2 line) as [|m [|p [|v [|x l]]]];
    try (intros [= <-]; eauto).
  destruct (elem N.eqb v [u "HTTP/1.0"; u "HTTP/1.1"]); [discriminate|].
  intros [= <-]; eauto.
Qed.

Lemma parse_request_line_fields (line m p v : str) :
  parse_request_line line = Return (m, p, v) ->
  line = m ++ u " " ++ p ++ u " " ++ v
  /\ ~ In 0x20%N m /\ ~ In 0x20%N p
  /\ (v = u "HTTP/1.0" \/ v = u "HTTP/1.1").
Proof.
  unfold parse_request_line. change (u " ") with [0x20%N]. cbn [split].
  destruct (find_sep N.eqb [0x20%N] line) as [[m' rest]|] eqn:F1; [|discriminate].
  destruct (find_sep N.eqb [0x20%N] rest) as [[p' v']|] eqn:F2; [|discriminate].
  destruct (elem N.eqb v' [u "HTTP/1.0"; u "HTTP/1.1"]) eqn:Hv; [|discriminate].
  intros [= <- <- <-].
  split; [|split; [|split]].
  - apply (find_sep_parts N.eqb N_eqb_spec) in F1, F2. subst. reflexivity.
  - apply (find_sep_single_notin _ _ _ _ F1).
  - apply (find_sep_single_notin _ _ _ _ F2).
  - unfold elem in Hv. cbn [existsb] in Hv.
    rewrite orb_false_r in Hv. apply orb_true_iff in Hv as [Hv|Hv];
      apply (seq_eqb_eq N.eqb N_eqb_spec) in Hv; auto.
Qed.

(** *** The three phases *)

(** What a read of a line raises, as the phase raises it: a
    [TimeoutError] as the timeout of the phase, any other as it is. *)
Lemma readline_raise_fits (r : StreamReader) (e : exn) (timeout : value_error) :
  read_fits r e -> e <> IncompleteReadError ->
  is_timeout_error timeout = true -> is_disconnect_error timeout = false ->
  fits r match e with TimeoutError => ValueError timeout | _ => e end.
Proof.
  intros Hfit Hne Ht Hd. destruct e; cbn in *.
  - destruct Hfit as [-> ->]. split; discriminate.
  - rewrite Ht, Hd. split; [intros _; exact Hfit | discriminate].
  - contradiction.
  - exact Hfit.
  - exact Hfit.
Qed.

Lemma read_request_line_cases (r r1 : StreamReader) (res : result (str * str * str)) :
  read_request_line r = (res, r1) ->
  at_end r1 = at_end r
  /\ (exists consumed,
         buffer r = consumed ++ buffer r1
         /\ (forall x, res = Return x -> len consumed <= MAX_REQUEST_LINE))
  /\ match res with
     | Return (m, p, v) =>
         m <> [] /\ ~ In 0x20%N m /\ ~ In 0x20%N p
         /\ (forall c t, m = c :: t -> isspace c = false)
         /\ (v = u "HTTP/1.0" \/ v = u "HTTP/1.1")
         /\ exception r = None /\ exception r1 = None
     | Raise e => fits r e
     end.
Proof.
  unfold read_request_line.
  destruct (readline REQUEST_TIMEOUT r) as [[line|e] r'] eqn:E;
    apply readline_cases in E as (Hend & Hcons & E).
  - destruct E as (Hbuf & Hx & Hx' & Hempty).
    destruct (is_empty line) eqn:Hl.
    { intros [= <- <-]. split; [exact Hend|]. split.
      - exists line. split; [exact Hbuf | discriminate].
      - destruct line; [|discriminate]. cbn. split; [discriminate | auto]. }
    destruct (len line >? MAX_REQUEST_LINE) eqn:Hlong.
    { intros [= <- <-]. split; [exact Hend|]. split.
      - exists line. split; [exact Hbuf | discriminate].
      - cbn. split; discriminate. }
    unfold decode. destruct (decode_utf8 line) as [s|] eqn:Hdec; cbn [bind].
    2:{ intros [= <- <-]. split; [exact Hend|]. split.
        - exists line. split; [exact Hbuf | discriminate].
        - cbn. split; discriminate. }
    intros [= Hparse <-]. split; [exact Hend|]. split.
    { exists line. split; [exact Hbuf | intros _ _; lia]. }
    destruct res as [[[m p] v]|e].
    + apply parse_request_line_fields in Hparse as (Hline & Hm & Hp & Hv).
      assert (Hhead : forall c t, m = c :: t -> isspace c = false).
      { intros c t ->. apply (strip_head s c (t ++ u " " ++ p ++ u " " ++ v)).
        exact Hline. }
      split; [|auto 7].
      intros ->. simpl in Hline.
      specialize (strip_head s _ _ Hline). discriminate.
    + apply parse_request_line_raises in Hparse as [cause ->]. cbn.
      split; discriminate.
  - destruct E as [Hfit Hne].
    pose proof (readline_raise_fits r e (RequestLineTimeout REQUEST_TIMEOUT)
                  Hfit Hne eq_refl eq_refl) as Hfits.
    destruct Hcons as [consumed Hcons].
    destruct e; intros [= <- <-]; (split; [exact Hend|]);
      (split; [exists consumed; split; [exact Hcons | discriminate]|]);
      exact Hfits.
Qed.

(** *** The header mapping *)

Lemma dict_get_None_iff (k : str) (d : dict) :
  dict_get k d = None <-> ~ In k (keys d).
Proof.
  unfold keys. induction d as [|[k' v'] d IH]; simpl; [tauto|].
  destruct (str_eqb k k') eqn:E.
  - apply str_eqb_eq in E. subst k'. split; [discriminate | intros H; elim H; auto].
  - rewrite IH. split.
    + intros H [Hk|Hk]; [|auto]. subst k'. rewrite str_eqb_refl in E. discriminate.
    + intros H Hk. apply H. auto.
Qed.

Lemma NoDup_keys_dict_set (k v : str) (d : dict) :
  NoDup (keys d) -> NoDup (keys (dict_set k v d)).
Proof.
  intros H. rewrite keys_dict_set. unfold dict_mem.
  destruct (dict_get k d) eqn:E; [exact H|].
  apply dict_get_None_iff in E.
  apply NoDup_rev in H. rewrite <- (rev_involutive (keys d ++ [k])).
  apply NoDup_rev. rewrite rev_app_distr. simpl.
  constructor; [rewrite <- in_rev; exact E | exact H].
Qed.

Lemma Forall_dict_set (P : str * str -> Prop) (k v : str) (d : dict) :
  Forall P d -> P (k, v) -> Forall P (dict_set k v d).
Proof.
  intros Hd Hkv. induction Hd as [|[k' v'] d Hx Hd IH]; simpl.
  - constructor; [exact Hkv | constructor].
  - destruct (str_eqb k k') eqn:E.
    + apply str_eqb_eq in E. subst k'. constructor; assumption.
    + constructor; assumption.
Qed.

Lemma length_dict_set (k v : str) (d : dict) :
  (length (dict_set k v d) <= S (length d))%nat.
Proof.
  induction d as [|[k' v'] d IH]; simpl; [lia|].
  destruct (str_eqb k k'); simpl; lia.
Qed.

Lemma len_app {A : Type} (x y : list A) : len (x ++ y) = len x + len y.
Proof. unfold len. rewrite length_app. lia. Qed.

(** A line split at its first [": "] gives a header within the limit of
    the line, with no [": "] in its name. *)
Lemma split_header_ok (line key value : str) :
  find_sep N.eqb (u ": ") line = Some (key, value) ->
  len line <= MAX_HEADER_SIZE ->
  header_ok (key, value).
Proof.
  intros Hfind Hlen.
  pose proof (find_sep_parts N.eqb N_eqb_spec _ _ _ _ Hfind) as Hline.
  unfold header_ok. cbn [fst snd]. split.
  - unfold contains.
    destruct (find_sep N.eqb (u ": ") key) as [[p q]|] eqn:Hkey; [|reflexivity].
    apply (find_sep_parts N.eqb N_eqb_spec) in Hkey.
    assert (Hline' : line = p ++ u ": " ++ (q ++ u ": " ++ value)).
    { rewrite Hline, Hkey, <- !app_assoc. reflexivity. }
    pose proof (find_sep_first N.eqb N_eqb_spec _ _ _ _ Hfind _ _ Hline') as Hle.
    rewrite Hkey, !length_app in Hle. simpl in Hle. lia.
  - rewrite Hline, !len_app in Hlen. change (len (u ": ")) with 2 in Hlen. lia.
Qed.

Lemma read_headers_cases (fuel : nat) :
  forall r total_size header_count headers res r2,
    read_headers fuel r total_size header_count headers = Some (res, r2) ->
    NoDup (keys headers) -> Forall header_ok headers ->
    Z.of_nat (length headers) <= header_count ->
    header_count <= MAX_HEADERS ->
    at_end r2 = at_end r
    /\ (exists consumed,
           buffer r = consumed ++ buffer r2
           /\ (forall hs ts hc, res = Return (hs, ts, hc) ->
                 ts = total_size + len consumed))
    /\ match res with
       | Return (hs, ts, hc) =>
           NoDup (keys hs) /\ Forall header_ok hs
           /\ Z.of_nat (length hs) <= hc /\ hc <= MAX_HEADERS
           /\ ts <= MAX_TOTAL_HEADERS
       | Raise e => fits r e
       end.
Proof.
  induction fuel as [|fuel IH]; intros r ts hc hs res r2 H Hnd Hok Hlen Hhc;
    [discriminate|].
  cbn [read_headers] in H.
  destruct (readline HEADER_TIMEOUT r) as [[line|e] r'] eqn:E;
    apply readline_cases in E as (Hend & Hcons & E).
  2:{ destruct E as [Hfit Hne].
      pose proof (readline_raise_fits r e (HeaderTimeout HEADER_TIMEOUT)
                    Hfit Hne eq_refl eq_refl) as Hfits.
      destruct Hcons as [consumed Hcons].
      destruct e; injection H as <- <-; (split; [exact Hend|]);
        (split; [exists consumed; split; [exact Hcons | discriminate]|]);
        exact Hfits. }
  destruct E as (Hbuf & Hx & Hx' & Hempty). clear Hcons.
  assert (Hstop : forall e2,
            (is_timeout_error e2 = false) ->
            (is_disconnect_error e2 = true -> at_end r = EOF) ->
            Some (Raise (ValueError e2), r') = Some (res, r2) ->
            at_end r2 = at_end r
            /\ (exists consumed,
                   buffer r = consumed ++ buffer r2
                   /\ (forall hs0 ts0 hc0, res = Return (hs0, ts0, hc0) ->
                         ts0 = ts + len consumed))
            /\ match res with
               | Return (hs0, ts0, hc0) =>
                   NoDup (keys hs0) /\ Forall header_ok hs0
                   /\ Z.of_nat (length hs0) <= hc0 /\ hc0 <= MAX_HEADERS
                   /\ ts0 <= MAX_TOTAL_HEADERS
               | Raise e => fits r e
               end).
  { intros e2 Ht Hd [= <- <-]. split; [exact Hend|].
    split; [exists line; split; [exact Hbuf | discriminate]|].
    cbn. rewrite Ht. split; [discriminate | intros Hd'; auto]. }
  destruct (is_empty line) eqn:Hl.
  { apply Hstop in H; [exact H | reflexivity|].
    intros _. destruct line; [auto | discriminate]. }
  destruct (ts + len line >? MAX_TOTAL_HEADERS) eqn:Hbig.
  { apply Hstop in H; [exact H | reflexivity | discriminate]. }
  unfold decode in H. destruct (decode_utf8 line) as [s|] eqn:Hdec.
  2:{ apply Hstop in H; [exact H | reflexivity | discriminate]. }
  destruct (is_empty (strip s)) eqn:Hblank.
  { injection H as <- <-. split; [exact Hend|].
    split; [exists line; split; [exact Hbuf | intros ? ? ? [= _ <- _]; reflexivity]|].
    repeat split; try assumption. lia. }
  destruct (len (strip s) >? MAX_HEADER_SIZE) eqn:Hlong.
  { apply Hstop in H; [exact H | reflexivity | discriminate]. }
  destruct (hc + 1 >? MAX_HEADERS) eqn:Hmany.
  { apply Hstop in H; [exact H | reflexivity | discriminate]. }
  assert (Hnext : forall hs1,
            read_headers fuel r' (ts + len line) (hc + 1) hs1 = Some (res, r2) ->
            NoDup (keys hs1) -> Forall header_ok hs1 ->
            Z.of_nat (length hs1) <= hc + 1 ->
            at_end r2 = at_end r
            /\ (exists consumed,
                   buffer r = consumed ++ buffer r2
                   /\ (forall hs0 ts0 hc0, res = Return (hs0, ts0, hc0) ->
                         ts0 = ts + len consumed))
            /\ match res with
               | Return (hs0, ts0, hc0) =>
                   NoDup (keys hs0) /\ Forall header_ok hs0
                   /\ Z.of_nat (length hs0) <= hc0 /\ hc0 <= MAX_HEADERS
                   /\ ts0 <= MAX_TOTAL_HEADERS
               | Raise e => fits r e
               end).
  { intros hs1 H1 Hnd1 Hok1 Hlen1.
    destruct (IH _ _ _ _ _ _ H1 Hnd1 Hok1 Hlen1) as (Hend' & Hcons & Hres); [lia|].
    split; [congruence|]. split.
    - destruct Hcons as (consumed & Hb & Hts). exists (line ++ consumed). split.
      + rewrite Hbuf, Hb, app_assoc. reflexivity.
      + intros hs0 ts0 hc0 Hr. rewrite (Hts _ _ _ Hr), len_app. lia.
    - destruct res as [[[hs0 ts0] hc0]|e0]; [exact Hres|].
      apply (fits_back r r'); assumption. }
  destruct (negb (contains N.eqb (u ": ") (strip s))) eqn:Hsep.
  { apply (Hnext hs H); try assumption. lia. }
  cbn [split] in H.
  destruct (find_sep N.eqb (u ": ") (strip s)) as [[key value]|] eqn:Hfind.
  - apply (Hnext _ H).
    + apply NoDup_keys_dict_set, Hnd.
    + apply Forall_dict_set; [exact Hok|].
      apply (split_header_ok (strip s)); [exact Hfind | lia].
    + pose proof (length_dict_set key value hs). lia.
  - apply Hstop in H; [exact H | reflexivity | discriminate].
Qed.

(** *** The body phase *)

Section Body.
Variable int : str -> int_result.

Lemma read_body_cases (r r3 : StreamReader) (headers : dict) (res : result bytes) :
  read_body int r headers = (res, r3) ->
  at_end r3 = at_end r
  /\ (exists consumed, buffer r = consumed ++ buffer r3)
  /\ match res with
     | Return body =>
         buffer r = body ++ buffer r3
         /\ len body <= MAX_BODY_SIZE
         /\ match dict_get (u "Content-Length") headers with
            | Some value => int value = IntValue (len body)
            | None => body = []
            end
     | Raise e => fits r e
     end.
Proof.
  unfold read_body.
  destruct (dict_get (u "Content-Length") headers) as [value|].
  2:{ intros [= <- <-]. split; [reflexivity|]. split; [exists []; reflexivity|].
      split; [reflexivity|]. split; [unfold len, MAX_BODY_SIZE; simpl; lia|].
      reflexivity. }
  destruct (int value) as [n| |] eqn:Hint.
  - destruct (n >? MAX_BODY_SIZE) eqn:Hbig.
    { cbn. intros [= <- <-]. split; [reflexivity|].
      split; [exists []; reflexivity|]. cbn. split; discriminate. }
    destruct (readexactly BODY_TIMEOUT n r) as [[data|e] r'] eqn:E;
      apply readexactly_cases in E as (Hend & Hcons & E).
    + intros [= <- <-]. destruct E as (Hbuf & Hlen & _).
      split; [exact Hend|]. split; [exists data; exact Hbuf|].
      split; [exact Hbuf|]. split; [lia|]. rewrite Hlen. reflexivity.
    + destruct E as [Hfit Hv].
      destruct e as [v| | | |]; cbn in Hfit |- *.
      * destruct Hv as [[= ->]|Hv]; [|elim (Hv v); reflexivity].
        cbn. intros [= <- <-]. split; [exact Hend|]. split; [exact Hcons|].
        cbn. split; discriminate.
      * intros [= <- <-]. split; [exact Hend|]. split; [exact Hcons|].
        cbn. split; [intros _; exact Hfit | discriminate].
      * intros [= <- <-]. split; [exact Hend|]. split; [exact Hcons|].
        cbn. split; [discriminate | intros _; exact Hfit].
      * intros [= <- <-]. split; [exact Hend|]. split; [exact Hcons|].
        exact Hfit.
      * intros [= <- <-]. split; [exact Hend|]. split; [exact Hcons|].
        exact Hfit.
  - cbn. intros [= <- <-]. split; [reflexivity|].
    split; [exists []; reflexivity|]. cbn. split; discriminate.
  - cbn. intros [= <- <-]. split; [reflexivity|].
    split; [exists []; reflexivity|]. cbn. split; discriminate.
Qed.

(** A parse that returns went through the three phases. *)
Lemma parse_returns_phases (r r' : StreamReader) (request : HTTPRequest) :
  parse_request_production int r = Some (Return request, r') ->
  exists r1 ts hc r2,
    read_request_line r
      = (Return (method request, path request, version request), r1)
    /\ read_headers header_turns r1 0 0 [] = Some (Return (headers request, ts, hc), r2)
    /\ read_body int r2 (headers request) = (Return (body request), r').
Proof.
  unfold parse_request_production.
  destruct (read_request_line r) as [[[[m p] v]|e] r1]; [|discriminate].
  destruct (read_headers header_turns r1 0 0 []) as [[[[[hs ts] hc]|e] r2]|]
    eqn:Hheaders; try discriminate.
  destruct (read_body int r2 hs) as [[bd|e] r3] eqn:Hbody; [|discriminate].
  intros [= <- <-]. exists r1, ts, hc, r2. cbn [method path version headers body].
  split; [reflexivity | split; [exact Hheaders | exact Hbody]].
Qed.
End Body.

(** *** What the parser raises *)

Lemma parse_raise_fits (int : str -> int_result) (r r' : StreamReader) (e : exn) :
  parse_request_production int r = Some (Raise e, r') -> fits r e.
Proof.
  unfold parse_request_production.
  destruct (read_request_line r) as [[[[m p] v]|e1] r1] eqn:E1;
    apply read_request_line_cases in E1 as (Hend1 & _ & H1).
  2:{ intros [= <- <-]. exact H1. }
  destruct H1 as (_ & _ & _ & _ & _ & Hx & Hx1).
  destruct (read_headers header_turns r1 0 0 []) as [[[[[hs ts] hc]|e2] r2]|] eqn:E2;
    [| |discriminate].
  2:{ intros [= <- <-].
      apply read_headers_cases in E2 as (_ & _ & H2);
        [apply (fits_back r r1); assumption | constructor | constructor
        | simpl; lia | unfold MAX_HEADERS; lia]. }
  pose proof (read_headers_returns _ _ _ _ _ _ _ E2) as Hx2.
  apply read_headers_cases in E2 as (Hend2 & _ & _);
    [| constructor | constructor | simpl; lia | unfold MAX_HEADERS; lia].
  destruct (read_body int r2 hs) as [[bd|e3] r3] eqn:E3; [discriminate|].
  apply read_body_cases in E3 as (_ & _ & H3).
  intros [= <- <-]. apply (fits_back r r2); [assumption | assumption | congruence|].
  exact H3.
Qed.

(** Whatever the stream, the parser raises a [ValueError] or the error
    the client's connection is lost with, and neither a [TimeoutError]
    nor an [IncompleteReadError]; it names a timeout only when the client
    stalled or the connection was lost with a timeout, and a
    disconnection only when the client closed its side and the
    connection was not lost. *)
Theorem parser_exceptions_fit_the_stream :
  forall int r e r',
    parse_request_production int r = Some (Raise e, r') -> fits r e.
Proof. intros int r e r'. apply parse_raise_fits. Qed.

(** On a client that stalls before its request line, and on one whose
    connection is reset after its request line. *)
Lemma parser_exceptions_fit_the_stream_witness :
  fits (Examples.stalled_after []) (ValueError (RequestLineTimeout 5))
  /\ fits (Examples.lost_after (b "GET / HTTP/1.1" ++ CRLF) Reset)
       ConnectionResetError.
Proof.
  split.
  - apply (parser_exceptions_fit_the_stream int_str (Examples.stalled_after [])
             (ValueError (RequestLineTimeout 5)) (Examples.stalled_after [])
             eq_refl).
  - apply (parser_exceptions_fit_the_stream int_str
             (Examples.lost_after (b "GET / HTTP/1.1" ++ CRLF) Reset)
             ConnectionResetError
             {| buffer := []; exception := Some Reset; at_end := Lost Reset |}
             eq_refl).
Defined.

(** *** What the parser returns *)

(** The request line of a request the parser returns: the method is not
    empty and does not begin with white space, neither the method nor the
    path holds a space, and the version is one of the two supported. *)
Theorem parsed_request_line_fields :
  forall int r request r',
    parse_request_production int r = Some (Return request, r') ->
    method request <> []
    /\ (forall c t, method request = c :: t -> isspace c = false)
    /\ ~ In 0x20%N (method request)
    /\ ~ In 0x20%N (path request)
    /\ (version request = u "HTTP/1.0" \/ version request = u "HTTP/1.1").
Proof.
  intros int r request r' H.
  apply parse_returns_phases in H as (r1 & ts & hc & r2 & H1 & _ & _).
  apply read_request_line_cases in H1 as (_ & _ & Hm & Hsp & Hp & Hhead & Hv & _).
  auto.
Qed.

(** On a [GET] for "/index.html". *)
Lemma parsed_request_line_fields_witness :
  ~ In 0x20%N (u "GET") /\ ~ In 0x20%N (u "/index.html").
Proof.
  destruct (parsed_request_line_fields int_str
              (Examples.closed_after (Examples.get "/index.html"))
              {| method := u "GET"; path := u "/index.html";
                 version := u "HTTP/1.1";
                 headers := [(u "Host", u "localhost")]; body := [] |}
              (Examples.closed_after []) eq_refl) as (_ & _ & Hm & Hp & _).
  split; [exact Hm | exact Hp].
Defined.

(** The headers of a request the parser returns: at most 100, no name
    twice, no [": "] in a name, and name, separator and value within the
    8192 characters of one header. *)
Theorem parsed_headers_within_limits :
  forall int r request r',
    parse_request_production int r = Some (Return request, r') ->
    len (headers request) <= MAX_HEADERS
    /\ NoDup (keys (headers request))
    /\ Forall header_ok (headers request).
Proof.
  intros int r request r' H.
  apply parse_returns_phases in H as (r1 & ts & hc & r2 & _ & H2 & _).
  apply read_headers_cases in H2 as (_ & _ & Hnd & Hok & Hlen & Hhc & _);
    [| constructor | constructor | simpl; lia | unfold MAX_HEADERS; lia].
  unfold len. split; [lia | auto].
Qed.

(** On a request that gives [Host] twice. *)
Lemma parsed_headers_within_limits_witness :
  NoDup (keys [(u "Host", u "b"); (u "Accept", u "*/*")]).
Proof.
  destruct (parsed_headers_within_limits int_str
              (Examples.closed_after
                 (b "GET / HTTP/1.1" ++ CRLF ++ b "Host: a" ++ CRLF
                  ++ b "Accept: */*" ++ CRLF ++ b "Host: b" ++ CRLF ++ CRLF))
              {| method := u "GET"; path := u "/"; version := u "HTTP/1.1";
                 headers := [(u "Host", u "b"); (u "Accept", u "*/*")];
                 body := [] |}
              (Examples.closed_after []) eq_refl) as (_ & Hnd & _).
  exact Hnd.
Defined.

(** *** What the parser reads *)

(** The parser reads the stream from its front and leaves the rest as it
    is: what it leaves is what follows the bytes it took. When it returns
    a request, the bytes it took are a head of at most 4096 + 65536 bytes,
    the request line and the header lines, and then the body, of at most
    10,000,000 bytes, nothing else. *)
Theorem parser_reads_a_prefix :
  forall int r res r',
    parse_request_production int r = Some (res, r') ->
    at_end r' = at_end r
    /\ exists consumed,
         buffer r = consumed ++ buffer r'
         /\ forall request, res = Return request ->
              exists head,
                consumed = head ++ body request
                /\ len head <= MAX_REQUEST_LINE + MAX_TOTAL_HEADERS
                /\ len (body request) <= MAX_BODY_SIZE.
Proof.
  intros int r res r'. unfold parse_request_production.
  destruct (read_request_line r) as [[[[m p] v]|e1] r1] eqn:E1;
    apply read_request_line_cases in E1 as (Hend1 & (c1 & Hb1 & Hl1) & _).
  2:{ intros [= <- <-]. split; [exact Hend1|]. exists c1.
      split; [exact Hb1 | discriminate]. }
  specialize (Hl1 _ eq_refl).
  destruct (read_headers header_turns r1 0 0 []) as [[[[[hs ts] hc]|e2] r2]|] eqn:E2;
    [| |discriminate];
    (apply read_headers_cases in E2 as (Hend2 & (c2 & Hb2 & Hts) & Hres2);
     [| constructor | constructor | simpl; lia | unfold MAX_HEADERS; lia]).
  2:{ intros [= <- <-]. split; [congruence|]. exists (c1 ++ c2).
      split; [rewrite Hb1, Hb2, app_assoc; reflexivity | discriminate]. }
  specialize (Hts _ _ _ eq_refl).
  destruct Hres2 as (_ & _ & _ & _ & Hsize).
  destruct (read_body int r2 hs) as [[bd|e3] r3] eqn:E3;
    apply read_body_cases in E3 as (Hend3 & (c3 & Hb3) & Hres3).
  - intros [= <- <-]. split; [congruence|]. destruct Hres3 as (Hbd & Hmax & _).
    exists ((c1 ++ c2) ++ bd). split.
    + rewrite Hb1, Hb2, Hbd, <- !app_assoc. reflexivity.
    + intros request [= <-]. cbn [body]. exists (c1 ++ c2).
      split; [reflexivity|]. split; [|exact Hmax].
      rewrite len_app. lia.
  - intros [= <- <-]. split; [congruence|]. exists ((c1 ++ c2) ++ c3). split.
    + rewrite Hb1, Hb2, Hb3, <- !app_assoc. reflexivity.
    + discriminate.
Qed.

(** On two requests sent one after the other: the second is left unread. *)
Lemma parser_reads_a_prefix_witness :
  exists consumed,
    Examples.get "/a" ++ Examples.get "/b" = consumed ++ Examples.get "/b".
Proof.
  destruct (parser_reads_a_prefix int_str
              (Examples.closed_after (Examples.get "/a" ++ Examples.get "/b"))
              (Return {| method := u "GET"; path := u "/a"; version := u "HTTP/1.1";
                         headers := [(u "Host", u "localhost")]; body := [] |})
              (Examples.closed_after (Examples.get "/b")) eq_refl)
    as (_ & consumed & Hb & _).
  exists consumed. exact Hb.
Defined.

(** *** A [Content-Length] the parser refuses *)

(** After the header phase, a [Content-Length] that is not an integer
    fails as "Invalid Content-Length", one above 10,000,000 as "Body too
    big", a negative one with the reader's own error; a client that
    stalls before the announced bytes are there fails as "Body timeout".
    In each case no body byte is taken from the stream. *)
Theorem content_length_refused :
  forall int r m p v r1 hs ts hc r2 value,
    read_request_line r = (Return (m, p, v), r1) ->
    read_headers header_turns r1 0 0 [] = Some (Return (hs, ts, hc), r2) ->
    dict_get (u "Content-Length") hs = Some value ->
    (int value = IntInvalidLiteral ->
     parse_request_production int r
     = Some (Raise (ValueError (InvalidContentLength value)), r2))
    /\ (forall n, int value = IntValue n -> n > MAX_BODY_SIZE ->
          parse_request_production int r
          = Some (Raise (ValueError (BodyTooBig n)), r2))
    /\ (forall n, int value = IntValue n -> n < 0 ->
          parse_request_production int r
          = Some (Raise (ValueError NegativeReadSize), r2))
    /\ (forall n, int value = IntValue n -> n <= MAX_BODY_SIZE ->
          len (buffer r2) < n -> at_end r2 = Stall ->
          parse_request_production int r
          = Some (Raise (ValueError (BodyTimeout BODY_TIMEOUT)), r2)).
Proof.
  intros int r m p v r1 hs ts hc r2 value H1 H2 Hget.
  unfold parse_request_production, read_body. rewrite H1, H2, Hget.
  split; [|split; [|split]].
  - intros ->. reflexivity.
  - intros n -> Hn. assert (Hgt : (n >? MAX_BODY_SIZE) = true) by lia.
    rewrite Hgt. reflexivity.
  - intros n -> Hn.
    assert (Hgt : (n >? MAX_BODY_SIZE) = false) by (unfold MAX_BODY_SIZE; lia).
    rewrite Hgt. unfold readexactly.
    assert (Hneg : (n <? 0) = true) by lia. rewrite Hneg. reflexivity.
  - intros n -> Hn Hshort Hstall.
    assert (Hgt : (n >? MAX_BODY_SIZE) = false) by lia.
    rewrite Hgt. unfold readexactly. unfold len in Hshort.
    assert (Hneg : (n <? 0) = false) by lia. rewrite Hneg.
    assert (Hz : (n =? 0) = false) by lia. rewrite Hz.
    assert (Hle : (n <=? len (buffer r2)) = false) by (unfold len; lia).
    rewrite (read_headers_returns _ _ _ _ _ _ _ H2), Hle, Hstall. reflexivity.
Qed.

(** On [Content-Length: abc], [99999999] and [-1]. *)
Lemma content_length_refused_witness :
  let request (value : string) :=
    Examples.closed_after
      (b "POST / HTTP/1.1" ++ CRLF ++ b "Content-Length: " ++ b value ++ CRLF
       ++ CRLF ++ b "abc") in
  parse_request_production int_str (request "abc"%string)
  = Some (Raise (ValueError (InvalidContentLength (u "abc"))),
          Examples.closed_after (b "abc"))
  /\ parse_request_production int_str (request "99999999"%string)
     = Some (Raise (ValueError (BodyTooBig 99999999)),
             Examples.closed_after (b "abc"))
  /\ parse_request_production int_str (request "-1"%string)
     = Some (Raise (ValueError NegativeReadSize), Examples.closed_after (b "abc")).
Proof.
  cbv zeta. split; [|split].
  - destruct (content_length_refused int_str
                (Examples.closed_after
                   (b "POST / HTTP/1.1" ++ CRLF ++ b "Content-Length: " ++ b "abc"
                    ++ CRLF ++ CRLF ++ b "abc"))
                (u "POST") (u "/") (u "HTTP/1.1")
                (Examples.closed_after
                   (b "Content-Length: abc" ++ CRLF ++ CRLF ++ b "abc"))
                [(u "Content-Length", u "abc")] 23 1
                (Examples.closed_after (b "abc")) (u "abc")
                eq_refl eq_refl eq_refl) as (H & _).
    apply H. reflexivity.
  - destruct (content_length_refused int_str
                (Examples.closed_after
                   (b "POST / HTTP/1.1" ++ CRLF ++ b "Content-Length: "
                    ++ b "99999999" ++ CRLF ++ CRLF ++ b "abc"))
                (u "POST") (u "/") (u "HTTP/1.1")
                (Examples.closed_after
                   (b "Content-Length: 99999999" ++ CRLF ++ CRLF ++ b "abc"))
                [(u "Content-Length", u "99999999")] 28 1
                (Examples.closed_after (b "abc")) (u "99999999")
                eq_refl eq_refl eq_refl) as (_ & H & _).
    apply (H 99999999); [reflexivity | reflexivity].
  - destruct (content_length_refused int_str
                (Examples.closed_after
                   (b "POST / HTTP/1.1" ++ CRLF ++ b "Content-Length: " ++ b "-1"
                    ++ CRLF ++ CRLF ++ b "abc"))
                (u "POST") (u "/") (u "HTTP/1.1")
                (Examples.closed_after
                   (b "Content-Length: -1" ++ CRLF ++ CRLF ++ b "abc"))
                [(u "Content-Length", u "-1")] 22 1
                (Examples.closed_after (b "abc")) (u "-1")
                eq_refl eq_refl eq_refl) as (_ & _ & H & _).
    apply (H (-1)); [reflexivity | reflexivity].
Defined.

End ParserInvariants.

(** ** From the wire and back *)

Module RoundTrip.
Import Py PyLemmas Parser Parser.HTTPLimits Server Wire Views ParserProofs
  ParserInvariants.

(** *** ASCII *)

Lemma byte_of_to_N (c : N) : (c < 256)%N -> Byte.to_N (byte_of c) = c.
Proof.
  intros H. unfold byte_of. rewrite N.mod_small by exact H.
  destruct (Byte.of_N c) eqn:E; [apply Byte.to_of_N, E|].
  apply Byte.of_N_None_iff in E. lia.
Qed.

Lemma printable_range (c : N) : printable c = true -> (0x20 <= c <= 0x7E)%N.
Proof. unfold printable. rewrite andb_true_iff, !N.leb_le. tauto. Qed.

Lemma graphic_range (c : N) : graphic c = true -> (0x21 <= c <= 0x7E)%N.
Proof. unfold graphic. rewrite andb_true_iff, !N.leb_le. tauto. Qed.

Lemma graphic_printable (c : N) : graphic c = true -> printable c = true.
Proof.
  intros H. apply graphic_range in H. unfold printable.
  apply andb_true_iff. rewrite !N.leb_le. lia.
Qed.

Lemma graphic_not_space (c : N) : graphic c = true -> isspace c = false.
Proof.
  intros H. apply graphic_range in H. unfold isspace.
  repeat (apply orb_false_iff; split);
    try (apply N.eqb_neq; lia);
    apply andb_false_iff;
    first [left; apply N.leb_gt; lia | right; apply N.leb_gt; lia].
Qed.

Lemma graphic_not_sp (c : N) : graphic c = true -> N.eqb 0x20 c = false.
Proof. intros H. apply graphic_range in H. apply N.eqb_neq. lia. Qed.

Lemma forallb_Forall {A : Type} (p : A -> bool) (l : list A) :
  forallb p l = true -> Forall (fun x => p x = true) l.
Proof. rewrite forallb_forall, Forall_forall. auto. Qed.

Lemma len_ascii_bytes (s : str) : len (ascii_bytes s) = len s.
Proof. unfold len, ascii_bytes. rewrite length_map. reflexivity. Qed.

Lemma ascii_bytes_app (x y : str) :
  ascii_bytes (x ++ y) = ascii_bytes x ++ ascii_bytes y.
Proof. apply map_app. Qed.

Lemma encode_ascii (s : str) :
  Forall (fun c => (c < 0x80)%N) s -> encode_utf8 s = Some (ascii_bytes s).
Proof.
  induction 1 as [|c s Hc _ IH]; [reflexivity|].
  cbn [encode_utf8 ascii_bytes map]. unfold encode_char.
  assert (Hlt : (c <? 0x80)%N = true) by (apply N.ltb_lt; lia).
  rewrite Hlt, IH. reflexivity.
Qed.

Lemma printable_ascii (s : str) :
  Forall (fun c => printable c = true) s -> Forall (fun c => (c < 0x80)%N) s.
Proof.
  intros H. eapply Forall_impl; [|exact H]. intros c Hc. cbn beta in *.
  apply printable_range in Hc. lia.
Qed.

Lemma decode_ascii_bytes (s : str) :
  Forall (fun c => (c < 0x80)%N) s -> decode_utf8 (ascii_bytes s) = Some s.
Proof.
  intros H. rewrite decode_ascii.
  - f_equal. unfold ascii_bytes. rewrite map_map.
    induction H as [|c s Hc _ IH]; [reflexivity|].
    simpl. rewrite IH, byte_of_to_N by lia. reflexivity.
  - unfold ascii_bytes. rewrite Forall_map.
    eapply Forall_impl; [|exact H]. intros c Hc. cbn beta in *.
    rewrite byte_of_to_N by lia. apply N.ltb_lt. exact Hc.
Qed.

Lemma printable_no_LF (s : str) :
  Forall (fun c => printable c = true) s ->
  Forall (fun x => Byte.eqb x LF = false) (ascii_bytes s).
Proof.
  intros H. unfold ascii_bytes. rewrite Forall_map.
  eapply Forall_impl; [|exact H]. intros c Hc. cbn beta.
  apply printable_range in Hc.
  destruct (Byte.eqb (byte_of c) LF) eqn:E; [|reflexivity].
  apply Byte.byte_dec_bl in E.
  assert (Hn : Byte.to_N (byte_of c) = 10%N) by (rewrite E; reflexivity).
  rewrite byte_of_to_N in Hn by lia. lia.
Qed.

(** *** Lines *)

Lemma take_line_line (l rest : bytes) :
  Forall (fun x => Byte.eqb x LF = false) l ->
  take_line (l ++ LF :: rest) = Some (l ++ [LF], rest).
Proof.
  induction 1 as [|c l Hc _ IH]; [reflexivity|].
  cbn [app take_line]. rewrite Hc, IH. reflexivity.
Qed.

Lemma readline_wire_line (timeout : Z) (line : str) (rest : bytes) (e : stream_end) :
  Forall (fun c => printable c = true) line ->
  len line < DEFAULT_LIMIT ->
  readline timeout
    {| buffer := ascii_bytes line ++ CRLF ++ rest; exception := None;
       at_end := e |}
  = (Return (ascii_bytes line ++ CRLF),
     {| buffer := rest; exception := None; at_end := e |}).
Proof.
  intros H Hlen. unfold readline, with_buffer. cbn [buffer at_end exception].
  change (ascii_bytes line ++ CRLF ++ rest)
    with (ascii_bytes line ++ [CR] ++ LF :: rest).
  rewrite app_assoc, take_line_line.
  - assert (Hl : (len ((ascii_bytes line ++ [CR]) ++ [LF]) - 1 >? DEFAULT_LIMIT)
                 = false).
    { rewrite !len_app, len_ascii_bytes.
      change (len [CR]) with 1. change (len [LF]) with 1. lia. }
    rewrite Hl, <- app_assoc. reflexivity.
  - apply Forall_app. split; [apply printable_no_LF, H|].
    constructor; [reflexivity | constructor].
Qed.

Lemma dropwhile_all {A : Type} (p : A -> bool) (l : list A) :
  Forall (fun x => p x = true) l -> dropwhile p l = [].
Proof. induction 1 as [|c l Hc _ IH]; simpl; [reflexivity|]. rewrite Hc. exact IH. Qed.

(** [strip] leaves a text as it is when it neither begins nor ends with
    white space. *)
Lemma strip_keeps (s ws : str) :
  (forall c t, s = c :: t -> isspace c = false) ->
  (forall c t, rev s = c :: t -> isspace c = false) ->
  Forall (fun x => isspace x = true) ws ->
  strip (s ++ ws) = s.
Proof.
  intros Hfirst Hlast Hws. unfold strip, lstrip, rstrip.
  destruct s as [|c t].
  - simpl. rewrite (dropwhile_all isspace ws Hws). reflexivity.
  - cbn [app dropwhile]. rewrite (Hfirst c t eq_refl).
    change (c :: t ++ ws) with ((c :: t) ++ ws). rewrite rev_app_distr.
    destruct (rev (c :: t)) as [|l t'] eqn:E.
    + apply (f_equal (@length N)) in E. rewrite length_rev in E. discriminate.
    + rewrite (dropwhile_app_stop isspace (rev ws) t' l);
        [| apply Forall_rev, Hws | apply (Hlast l t' eq_refl)].
      rewrite <- E. apply rev_involutive.
Qed.

Lemma line_end_space : Forall (fun x => isspace x = true) [0x0D; 0x0A]%N.
Proof. repeat constructor. Qed.

(** A printable line with its line end, as the parser decodes and strips
    it. *)
Lemma decode_strip_line (line : str) :
  Forall (fun c => printable c = true) line ->
  (forall c t, line = c :: t -> graphic c = true) ->
  (forall c t, rev line = c :: t -> graphic c = true) ->
  exists s, decode_utf8 (ascii_bytes line ++ CRLF) = Some s /\ strip s = line.
Proof.
  intros Hp Hfirst Hlast. exists (line ++ [0x0D; 0x0A]%N). split.
  - change CRLF with (ascii_bytes [0x0D; 0x0A]%N).
    rewrite <- ascii_bytes_app. apply decode_ascii_bytes.
    apply Forall_app. split.
    + eapply Forall_impl; [|exact Hp]. intros c Hc. cbn beta.
      apply printable_range in Hc. lia.
    + repeat constructor.
  - apply strip_keeps.
    + intros c t E. apply graphic_not_space, (Hfirst c t E).
    + intros c t E. apply graphic_not_space, (Hlast c t E).
    + exact line_end_space.
Qed.

(** *** One turn of the header loop *)

Lemma turn_store (fuel : nat) (r r' : StreamReader) (line : bytes) (s key value : str)
    (total_size header_count : Z) (headers : dict) :
  readline HEADER_TIMEOUT r = (Return line, r') ->
  line <> [] ->
  total_size + len line <= MAX_TOTAL_HEADERS ->
  decode_utf8 line = Some s ->
  find_sep N.eqb (u ": ") (strip s) = Some (key, value) ->
  len (strip s) <= MAX_HEADER_SIZE ->
  header_count + 1 <= MAX_HEADERS ->
  read_headers (S fuel) r total_size header_count headers
  = read_headers fuel r' (total_size + len line) (header_count + 1)
      (dict_set key value headers).
Proof.
  intros Hread Hne Hsize Hdec Hfind Hlen Hcount.
  cbn [read_headers]. rewrite Hread.
  destruct line as [|c line]; [contradiction|]. cbn [is_empty].
  assert (H1 : (total_size + len (c :: line) >? MAX_TOTAL_HEADERS) = false) by lia.
  rewrite H1. unfold decode. rewrite Hdec.
  pose proof (find_sep_parts N.eqb N_eqb_spec _ _ _ _ Hfind) as Hline.
  destruct (strip s) as [|c0 t] eqn:Hs.
  { destruct key; discriminate Hline. }
  cbn [is_empty].
  assert (H2 : (len (c0 :: t) >? MAX_HEADER_SIZE) = false) by lia.
  rewrite H2.
  assert (H3 : (header_count + 1 >? MAX_HEADERS) = false) by lia.
  rewrite H3. unfold contains. cbn [split]. rewrite Hfind. reflexivity.
Qed.

Lemma turn_blank (fuel : nat) (r r' : StreamReader) (line : bytes) (s : str)
    (total_size header_count : Z) (headers : dict) :
  readline HEADER_TIMEOUT r = (Return line, r') ->
  line <> [] ->
  total_size + len line <= MAX_TOTAL_HEADERS ->
  decode_utf8 line = Some s ->
  strip s = [] ->
  read_headers (S fuel) r total_size header_count headers
  = Some (Return (headers, total_size + len line, header_count), r').
Proof.
  intros Hread Hne Hsize Hdec Hs.
  cbn [read_headers]. rewrite Hread.
  destruct line as [|c line]; [contradiction|]. cbn [is_empty].
  assert (H1 : (total_size + len (c :: line) >? MAX_TOTAL_HEADERS) = false) by lia.
  rewrite H1. unfold decode. rewrite Hdec, Hs. reflexivity.
Qed.

(** *** Headers on the wire *)

Lemma find_sep_colon (k v : str) :
  contains N.eqb (u ": ") k = false ->
  find_sep N.eqb (u ": ") (k ++ u ": " ++ v) = Some (k, v).
Proof.
  unfold contains. change (u ": ") with [0x3A; 0x20]%N.
  induction k as [|c k IH]; intros Hk.
  - apply (find_sep_here N.eqb N_eqb_spec [0x3A; 0x20]%N v).
  - cbn [find_sep] in Hk.
    destruct (startswith N.eqb [0x3A; 0x20]%N (c :: k)) eqn:Hs; [discriminate|].
    destruct (find_sep N.eqb [0x3A; 0x20]%N k) as [[p q]|] eqn:Hf; [discriminate|].
    change ((c :: k) ++ [0x3A; 0x20]%N ++ v) with (c :: (k ++ [0x3A; 0x20]%N ++ v)).
    cbn [find_sep].
    assert (Hs' : startswith N.eqb [0x3A; 0x20]%N (c :: k ++ [0x3A; 0x20]%N ++ v)
                  = false).
    { cbn [startswith] in *. destruct (N.eqb 0x3A c); [|reflexivity].
      cbn [andb] in *. destruct k as [|d k]; [reflexivity|].
      cbn [app]. destruct (N.eqb 0x20 d); [discriminate Hs | reflexivity]. }
    rewrite Hs', IH by reflexivity. reflexivity.
Qed.

Lemma header_text_line (k v : str) :
  header_text (k, v) = true ->
  let line := k ++ u ": " ++ v in
  Forall (fun c => printable c = true) line
  /\ (forall c t, line = c :: t -> graphic c = true)
  /\ (forall c t, rev line = c :: t -> graphic c = true)
  /\ contains N.eqb (u ": ") k = false
  /\ len line = len k + 2 + len v
  /\ len line <= MAX_HEADER_SIZE.
Proof.
  unfold header_text. rewrite !andb_true_iff, negb_true_iff.
  intros [[[[[Hk Hv] Hc] Hf] Hl] Hlen]. cbv zeta.
  apply forallb_Forall in Hk, Hv.
  assert (Hlen' : len (k ++ u ": " ++ v) = len k + 2 + len v).
  { rewrite !len_app. change (len (u ": ")) with 2. lia. }
  split; [|split; [|split; [|split; [exact Hc | split; [exact Hlen' | lia]]]]].
  - apply Forall_app. split; [exact Hk|]. apply Forall_app. split; [|exact Hv].
    repeat constructor.
  - intros c t E. destruct k as [|c' k']; cbn in Hf, E.
    + injection E as <- _. reflexivity.
    + injection E as <- _. exact Hf.
  - intros c t E. unfold last_graphic in Hl.
    rewrite !rev_app_distr in E.
    destruct (rev v) as [|c' t']; [discriminate Hl|].
    cbn in E. injection E as <- _. exact Hl.
Qed.

Lemma headers_size_nonneg (hs : dict) : 0 <= headers_size hs.
Proof.
  induction hs as [|[k v] hs IH]; simpl; [lia|]. unfold len in *. lia.
Qed.

Lemma read_headers_wire (hs : dict) :
  forall acc total_size header_count fuel rest e,
    forallb header_text hs = true ->
    total_size + headers_size hs + 2 <= MAX_TOTAL_HEADERS ->
    header_count + len hs <= MAX_HEADERS ->
    (length hs < fuel)%nat ->
    read_headers fuel
      {| buffer := concat (map header_wire hs) ++ CRLF ++ rest;
         exception := None; at_end := e |}
      total_size header_count acc
    = Some (Return (stored hs acc, total_size + headers_size hs + 2,
                    header_count + len hs),
            {| buffer := rest; exception := None; at_end := e |}).
Proof.
  induction hs as [|[k v] hs IH]; intros acc ts hc fuel rest e Htext Hsize Hcount Hfuel.
  - destruct fuel as [|fuel]; [simpl in Hfuel; lia|].
    cbn [map concat app headers_size stored fold_left].
    rewrite (turn_blank fuel _
               {| buffer := rest; exception := None; at_end := e |} CRLF
               [0x0D; 0x0A]%N).
    + change (len CRLF) with 2. unfold len. cbn [length].
      match goal with
      | |- Some (Return (_, ?x, ?y), _) = Some (Return (_, ?x', ?y'), _) =>
          replace x' with x by lia; replace y' with y by lia; reflexivity
      end.
    + reflexivity.
    + discriminate.
    + change (len CRLF) with 2. cbn [headers_size] in Hsize. lia.
    + reflexivity.
    + reflexivity.
  - destruct fuel as [|fuel]; [simpl in Hfuel; lia|].
    cbn [forallb] in Htext. apply andb_true_iff in Htext as [Hkv Htext].
    destruct (header_text_line k v Hkv) as (Hp & Hfirst & Hlast & Hc & Hlen & Hmax).
    destruct (decode_strip_line _ Hp Hfirst Hlast) as (s & Hdec & Hstrip).
    cbn [map concat]. unfold header_wire at 1. cbn [fst snd].
    rewrite <- !app_assoc.
    pose proof (headers_size_nonneg hs) as Hnn.
    cbn [headers_size] in Hsize.
    assert (Hll : len (ascii_bytes (k ++ u ": " ++ v) ++ CRLF)
                  = len k + 2 + len v + 2).
    { rewrite len_app, len_ascii_bytes, Hlen. reflexivity. }
    assert (Hcnt : len ((k, v) :: hs) = 1 + len hs).
    { unfold len. cbn [length]. lia. }
    rewrite (turn_store fuel _
               {| buffer := concat (map header_wire hs) ++ CRLF ++ rest;
                  exception := None; at_end := e |}
               (ascii_bytes (k ++ u ": " ++ v) ++ CRLF) s k v).
    + rewrite IH; try assumption.
      * cbn [stored fold_left fst snd headers_size]. rewrite Hll, Hcnt.
        match goal with
        | |- Some (Return (_, ?x, ?y), _) = Some (Return (_, ?x', ?y'), _) =>
            replace x' with x by lia; replace y' with y by lia; reflexivity
        end.
      * lia.
      * unfold len in *. lia.
      * simpl in Hfuel. lia.
    + apply readline_wire_line; [exact Hp|].
      unfold MAX_HEADER_SIZE in Hmax. unfold DEFAULT_LIMIT. lia.
    + destruct (ascii_bytes (k ++ u ": " ++ v)); discriminate.
    + lia.
    + exact Hdec.
    + rewrite Hstrip. apply find_sep_colon, Hc.
    + rewrite Hstrip. exact Hmax.
    + unfold len in *. lia.
Qed.

Lemma distinct_cons (k : str) (ks : list str) :
  distinct (k :: ks) = true -> ~ In k ks /\ distinct ks = true.
Proof.
  cbn [distinct]. rewrite andb_true_iff, negb_true_iff. intros [He Hd].
  split; [|exact Hd]. intros Hin.
  assert (existsb (str_eqb k) ks = true).
  { apply existsb_exists. exists k. split; [exact Hin | apply str_eqb_refl]. }
  congruence.
Qed.

Lemma dict_set_new (k v : str) (d : dict) :
  ~ In k (keys d) -> dict_set k v d = d ++ [(k, v)].
Proof.
  intros H. apply dict_get_None_iff in H.
  destruct (dict_set_entries k v d) as [(pre & old & post & Hd & Hpre & _)|[_ Hset]];
    [|exact Hset].
  exfalso. subst d. apply dict_get_None_iff in H. apply H.
  unfold keys. rewrite map_app. apply in_or_app. right. left. reflexivity.
Qed.

(** Lines with distinct names are stored as they are, in their order. *)
Lemma stored_distinct (hs : dict) :
  forall acc,
    distinct (keys hs) = true ->
    (forall k, In k (keys hs) -> ~ In k (keys acc)) ->
    stored hs acc = acc ++ hs.
Proof.
  induction hs as [|[k v] hs IH]; intros acc Hd Hnew.
  - symmetry. apply app_nil_r.
  - cbn [keys map fst] in Hd. apply distinct_cons in Hd as [Hk Hd].
    cbn [stored fold_left fst snd]. rewrite dict_set_new.
    + change (fold_left (fun d kv => dict_set (fst kv) (snd kv) d) hs
                (acc ++ [(k, v)])) with (stored hs (acc ++ [(k, v)])).
      rewrite IH; [rewrite <- app_assoc; reflexivity | exact Hd |].
      intros k0 Hin. unfold keys. rewrite map_app, in_app_iff.
      intros [Hacc|[<-|[]]].
      * apply (Hnew k0); [right; exact Hin | exact Hacc].
      * apply Hk. exact Hin.
    + apply Hnew. left. reflexivity.
Qed.

(** *** A request on the wire *)

Lemma version_cases (v : str) :
  elem N.eqb v [u "HTTP/1.0"; u "HTTP/1.1"] = true ->
  v = u "HTTP/1.0" \/ v = u "HTTP/1.1".
Proof.
  unfold elem. cbn [existsb]. rewrite orb_false_r. intros H.
  apply orb_true_iff in H as [H|H]; apply (seq_eqb_eq N.eqb N_eqb_spec) in H; auto.
Qed.

Lemma graphic_Forall_printable (s : str) :
  forallb graphic s = true -> Forall (fun c => printable c = true) s.
Proof.
  intros H. apply forallb_Forall in H. eapply Forall_impl; [|exact H].
  intros c Hc. apply graphic_printable, Hc.
Qed.

Lemma request_line_text (m p v : str) :
  m <> [] -> forallb graphic m = true -> forallb graphic p = true ->
  v = u "HTTP/1.0" \/ v = u "HTTP/1.1" ->
  let line := m ++ u " " ++ p ++ u " " ++ v in
  Forall (fun c => printable c = true) line
  /\ (forall c t, line = c :: t -> graphic c = true)
  /\ (forall c t, rev line = c :: t -> graphic c = true)
  /\ len line = len m + len p + 10.
Proof.
  intros Hne Hm Hp Hv. cbv zeta.
  assert (Hvp : Forall (fun c => printable c = true) v)
    by (destruct Hv as [-> | ->]; repeat constructor).
  split; [|split; [|split]].
  - repeat (apply Forall_app; split);
      try (apply graphic_Forall_printable; assumption);
      try exact Hvp; repeat constructor.
  - intros c t E. destruct m as [|c' m']; [contradiction|].
    cbn in E, Hm. injection E as <- _.
    apply andb_true_iff in Hm. tauto.
  - intros c t E. rewrite !rev_app_distr in E.
    destruct Hv as [-> | ->]; cbn in E; injection E as <- _; reflexivity.
  - rewrite !len_app. change (len (u " ")) with 1.
    destruct Hv as [-> | ->];
      [change (len (u "HTTP/1.0")) with 8 | change (len (u "HTTP/1.1")) with 8];
      lia.
Qed.

Lemma read_request_line_wire (m p v : str) (rest : bytes) (e : stream_end) :
  m <> [] -> forallb graphic m = true -> forallb graphic p = true ->
  v = u "HTTP/1.0" \/ v = u "HTTP/1.1" ->
  len m + len p + 12 <= MAX_REQUEST_LINE ->
  read_request_line
    {| buffer := ascii_bytes (m ++ u " " ++ p ++ u " " ++ v) ++ CRLF ++ rest;
       exception := None; at_end := e |}
  = (Return (m, p, v), {| buffer := rest; exception := None; at_end := e |}).
Proof.
  intros Hne Hm Hp Hv Hlen.
  destruct (request_line_text m p v Hne Hm Hp Hv) as (Htext & Hfirst & Hlast & Hl).
  destruct (decode_strip_line _ Htext Hfirst Hlast) as (s & Hdec & Hstrip).
  unfold read_request_line. rewrite readline_wire_line;
    [| exact Htext
     | unfold MAX_REQUEST_LINE in Hlen; unfold DEFAULT_LIMIT; lia].
  assert (Hnonempty : is_empty (ascii_bytes (m ++ u " " ++ p ++ u " " ++ v) ++ CRLF)
                      = false).
  { destruct m; [contradiction | reflexivity]. }
  rewrite Hnonempty.
  assert (Hshort : (len (ascii_bytes (m ++ u " " ++ p ++ u " " ++ v) ++ CRLF)
                    >? MAX_REQUEST_LINE) = false).
  { rewrite len_app, len_ascii_bytes, Hl. change (len CRLF) with 2. lia. }
  rewrite Hshort. unfold decode. rewrite Hdec. cbn [bind]. rewrite Hstrip.
  unfold parse_request_line. rewrite split_three.
  - destruct Hv as [-> | ->]; reflexivity.
  - apply forallb_Forall in Hm. eapply Forall_impl; [|exact Hm].
    intros c Hc. apply graphic_not_sp, Hc.
  - apply forallb_Forall in Hp. eapply Forall_impl; [|exact Hp].
    intros c Hc. apply graphic_not_sp, Hc.
Qed.

Section Wired.
Variable int : str -> int_result.

Lemma read_body_wire (hs : dict) (body rest : bytes) (e : stream_end) :
  match dict_get (u "Content-Length") hs with
  | Some value =>
      match int value with
      | IntValue n => (n =? len body) && (n <=? MAX_BODY_SIZE)
      | _ => false
      end
  | None => is_empty body
  end = true ->
  read_body int {| buffer := body ++ rest; exception := None; at_end := e |} hs
  = (Return body, {| buffer := rest; exception := None; at_end := e |}).
Proof.
  unfold read_body. destruct (dict_get (u "Content-Length") hs) as [value|].
  2:{ destruct body; [reflexivity | discriminate]. }
  destruct (int value) as [n| |]; try discriminate.
  rewrite andb_true_iff, Z.eqb_eq, Z.leb_le. intros [-> Hmax].
  assert (Hgt : (len body >? MAX_BODY_SIZE) = false) by lia. rewrite Hgt.
  unfold readexactly, with_buffer. cbn [buffer at_end exception].
  assert (Hneg : (len body <? 0) = false) by (apply Z.ltb_ge; unfold len; lia).
  rewrite Hneg.
  destruct (len body =? 0) eqn:Hz.
  - apply Z.eqb_eq in Hz. unfold len in Hz.
    destruct body; [reflexivity | cbn [length] in Hz; lia].
  - assert (Hle : (len body <=? len (body ++ rest)) = true)
      by (apply Z.leb_le; rewrite len_app; unfold len; lia).
    rewrite Hle. unfold len. rewrite Nat2Z.id.
    rewrite firstn_app, firstn_all, Nat.sub_diag, skipn_app, skipn_all,
      Nat.sub_diag. cbn [firstn skipn app]. rewrite app_nil_r. reflexivity.
Qed.

(** The parser on a well-formed request written on the wire, whatever
    follows it in the stream. *)
Lemma parse_wire (request : HTTPRequest) (rest : bytes) (e : stream_end) :
  well_formed int request = true ->
  parse_request_production int
    {| buffer := wire request ++ rest; exception := None; at_end := e |}
  = Some (Return request, {| buffer := rest; exception := None; at_end := e |}).
Proof.
  destruct request as [m p v hs bd]. unfold well_formed, wire.
  cbn [method path version headers body].
  rewrite !andb_true_iff, negb_true_iff, !Z.leb_le.
  intros [[[[[[[[[Hne Hm] Hp] Hv] Hline] Htext] Hdist] Hcount] Hsize] Hbody].
  apply version_cases in Hv.
  unfold parse_request_production. rewrite <- !app_assoc.
  rewrite read_request_line_wire;
    [| destruct m; [discriminate | discriminate] | assumption | assumption
     | assumption | assumption].
  rewrite (read_headers_wire hs [] 0 0 header_turns (bd ++ rest) e);
    [| exact Htext | lia | lia
     | unfold header_turns, len, MAX_HEADERS in *; lia].
  rewrite stored_distinct; [| exact Hdist | intros k _ []].
  cbn [app]. rewrite read_body_wire by exact Hbody. reflexivity.
Qed.
End Wired.

(** *** What the forwarder writes *)

Lemma header_text_printable (hs : dict) :
  forallb header_text hs = true ->
  Forall (fun kv => Forall (fun c => printable c = true) (fst kv ++ u ": " ++ snd kv)) hs.
Proof.
  intros H. apply forallb_Forall in H. eapply Forall_impl; [|exact H].
  intros [k v] Hkv. apply (header_text_line k v Hkv).
Qed.

Lemma encode_line (line : str) :
  Forall (fun c => printable c = true) line ->
  encode (line ++ [0x0D; 0x0A]%N) = Return (ascii_bytes line ++ CRLF).
Proof.
  intros H. unfold encode. rewrite encode_ascii.
  - rewrite ascii_bytes_app. reflexivity.
  - apply Forall_app. split; [apply printable_ascii, H | repeat constructor].
Qed.

Lemma write_headers_wire (hs : dict) :
  forall sent,
    Forall (fun kv => Forall (fun c => printable c = true)
                        (fst kv ++ u ": " ++ snd kv)) hs ->
    write_headers hs sent = (Return tt, sent ++ map header_wire hs).
Proof.
  induction hs as [|[k v] hs IH]; intros sent H; cbn [write_headers map].
  - rewrite app_nil_r. reflexivity.
  - inversion H as [|? ? Hkv Hrest]; subst. cbn [fst snd] in Hkv.
    replace (k ++ u ": " ++ v ++ [0x0D; 0x0A]%N)
      with ((k ++ u ": " ++ v) ++ [0x0D; 0x0A]%N) by (rewrite <- !app_assoc; reflexivity).
    rewrite encode_line by exact Hkv. rewrite IH by exact Hrest.
    rewrite <- app_assoc. reflexivity.
Qed.

Lemma forward_sent_wire (w : StreamWriter) (request : HTTPRequest)
    (host : str) (port : Z) (up : Upstream) :
  let sent_request :=
    {| method := method request; path := path request;
       version := version request;
       headers := dict_set (u "Host") (host ++ u ":" ++ str_int port)
                    (headers request);
       body := body request |} in
  Forall (fun c => printable c = true)
    (method request ++ u " " ++ path request ++ u " " ++ version request) ->
  forallb header_text (headers sent_request) = true ->
  forall out w' sent,
    forward w request host port up = (out, w', sent) ->
    concat sent = wire sent_request.
Proof.
  cbv zeta. cbn [headers]. intros Hline Hheaders out w' sent. unfold forward.
  replace (method request ++ u " " ++ path request ++ u " " ++ version request
           ++ [0x0D; 0x0A]%N)
    with ((method request ++ u " " ++ path request ++ u " " ++ version request)
          ++ [0x0D; 0x0A]%N) by (rewrite <- !app_assoc; reflexivity).
  rewrite encode_line by exact Hline.
  rewrite write_headers_wire by (apply header_text_printable, Hheaders).
  unfold wire. cbn [method path version headers body].
  assert (Hdone : forall X : list bytes,
            concat X = ascii_bytes (method request ++ u " " ++ path request
                                    ++ u " " ++ version request) ++ CRLF
                       ++ concat (map header_wire
                                    (dict_set (u "Host")
                                       (host ++ u ":" ++ str_int port)
                                       (headers request)))
                       ++ CRLF ++ body request ->
            forall res : result unit * StreamWriter * list bytes,
              snd res = X -> res = (out, w', sent) ->
              concat sent = ascii_bytes (method request ++ u " " ++ path request
                                         ++ u " " ++ version request) ++ CRLF
                            ++ concat (map header_wire
                                         (dict_set (u "Host")
                                            (host ++ u ":" ++ str_int port)
                                            (headers request)))
                            ++ CRLF ++ body request).
  { intros X HX res Hres ->. cbn [snd] in Hres. subst X. exact HX. }
  destruct (is_empty (body request)) eqn:Hb.
  - apply Hdone with
      (X := ([ascii_bytes (method request ++ u " " ++ path request ++ u " "
                           ++ version request) ++ CRLF]
             ++ map header_wire
                  (dict_set (u "Host") (host ++ u ":" ++ str_int port)
                     (headers request)))
            ++ [CRLF]).
    + destruct (body request); [|discriminate].
      rewrite !concat_app. cbn [concat]. rewrite !app_nil_r, <- !app_assoc.
      reflexivity.
    + destruct (drain_raises up);
        [|destruct (stream_response (reads up) w)]; reflexivity.
  - apply Hdone with
      (X := (([ascii_bytes (method request ++ u " " ++ path request ++ u " "
                            ++ version request) ++ CRLF]
              ++ map header_wire
                   (dict_set (u "Host") (host ++ u ":" ++ str_int port)
                      (headers request)))
             ++ [CRLF]) ++ [body request]).
    + rewrite !concat_app. cbn [concat]. rewrite !app_nil_r, <- !app_assoc.
      reflexivity.
    + destruct (drain_raises up);
        [|destruct (stream_response (reads up) w)]; reflexivity.
Qed.

Lemma well_formed_parts (int : str -> int_result) (request : HTTPRequest) :
  well_formed int request = true ->
  method request <> []
  /\ forallb graphic (method request) = true
  /\ forallb graphic (path request) = true
  /\ (version request = u "HTTP/1.0" \/ version request = u "HTTP/1.1")
  /\ forallb header_text (headers request) = true.
Proof.
  unfold well_formed. rewrite !andb_true_iff, negb_true_iff.
  intros [[[[[[[[[Hne Hm] Hp] Hv] _] Htext] _] _] _] _].
  split; [destruct (method request); discriminate|].
  split; [exact Hm | split; [exact Hp | split; [apply version_cases, Hv | exact Htext]]].
Qed.

(** *** The round trips *)

(** A well-formed request written on the wire (ASCII tokens and headers
    within the limits, names distinct, the body announced by
    [Content-Length]), in the buffer of a reader on which no error is
    stored, is read back by the parser as it was written, field by field
    and header by header in their order, whatever follows it in the
    buffer and whatever a read would find after that; what follows is
    left unread. When an error is stored on the reader, the request is
    not read: the first read raises the error, which the parser raises
    as it is, or as the timeout of the request line when it is a
    timeout. *)
Theorem parser_reads_back_wire_request :
  forall int request rest e,
    well_formed int request = true ->
    parse_request_production int
      {| buffer := wire request ++ rest; exception := None; at_end := e |}
    = Some (Return request, {| buffer := rest; exception := None; at_end := e |})
    /\ forall c,
         let lost :=
           {| buffer := wire request ++ rest; exception := Some c; at_end := e |} in
         parse_request_production int lost
         = Some (Raise match c with
                       | TimedOut => ValueError (RequestLineTimeout REQUEST_TIMEOUT)
                       | _ => exception_of c
                       end, lost).
Proof.
  intros int request rest e Hwf. split; [apply parse_wire, Hwf|].
  intros c. cbv zeta. unfold parse_request_production, read_request_line, readline.
  cbn [exception]. destruct c; reflexivity.
Qed.

(** On a [POST] with a body, followed by the start of another request, on
    a stream that then stalls. *)
Lemma parser_reads_back_wire_request_witness :
  let request :=
    {| method := u "POST"; path := u "/api/items?id=7"; version := u "HTTP/1.1";
       headers := [(u "Host", u "example.org"); (u "X-Note", u "a: b");
                   (u "Content-Length", u "3")];
       body := b "abc" |} in
  parse_request_production int_str
    (Examples.stalled_after (wire request ++ b "GET /next"))
  = Some (Return request, Examples.stalled_after (b "GET /next")).
Proof.
  cbv zeta.
  apply (proj1 (parser_reads_back_wire_request int_str
                  {| method := u "POST"; path := u "/api/items?id=7";
                     version := u "HTTP/1.1";
                     headers := [(u "Host", u "example.org");
                                 (u "X-Note", u "a: b");
                                 (u "Content-Length", u "3")];
                     body := b "abc" |} (b "GET /next") Stall eq_refl)).
Defined.

(** When the request the forwarder is given is well formed once its
    [Host] is replaced, what the forwarder writes to the upstream is that
    request as it stands on the wire, and the parser of this very program
    reads those bytes back as that request. *)
Theorem forwarded_request_parses_back :
  forall int w request host port up rest e,
    let sent_request :=
      {| method := method request; path := path request;
         version := version request;
         headers := dict_set (u "Host") (host ++ u ":" ++ str_int port)
                      (headers request);
         body := body request |} in
    let sent :=
      sent_upstream (proxy_to_upstream w request host port (Return up)) in
    well_formed int sent_request = true ->
    concat sent = wire sent_request
    /\ parse_request_production int
         {| buffer := concat sent ++ rest; exception := None; at_end := e |}
       = Some (Return sent_request,
               {| buffer := rest; exception := None; at_end := e |}).
Proof.
  intros int w request host port up rest e. cbv zeta. intros Hwf.
  destruct (well_formed_parts int _ Hwf) as (Hne & Hm & Hp & Hv & Htext).
  cbn [method path version headers] in Hne, Hm, Hp, Hv, Htext.
  assert (Hsent : concat (sent_upstream
                            (proxy_to_upstream w request host port (Return up)))
                  = wire {| method := method request; path := path request;
                            version := version request;
                            headers := dict_set (u "Host")
                                         (host ++ u ":" ++ str_int port)
                                         (headers request);
                            body := body request |}).
  { unfold proxy_to_upstream.
    destruct (forward w request host port up) as [[out w'] sent] eqn:F.
    cbn [sent_upstream].
    apply (forward_sent_wire w request host port up) with (out := out) (w' := w').
    - apply (request_line_text _ _ _ Hne Hm Hp Hv).
    - exact Htext.
    - exact F. }
  split; [exact Hsent|]. rewrite Hsent. apply parse_wire, Hwf.
Qed.

(** On a [POST] with its own [Host], forwarded to localhost:3001. *)
Lemma forwarded_request_parses_back_witness :
  let request :=
    {| method := u "POST"; path := u "/api"; version := u "HTTP/1.1";
       headers := [(u "Host", u "example.org"); (u "Content-Length", u "3")];
       body := b "abc" |} in
  let sent :=
    sent_upstream
      (proxy_to_upstream Examples.fresh_writer request (u "localhost") 3001
         (Examples.answering (b "ok"))) in
  parse_request_production int_str (Examples.closed_after (concat sent))
  = Some (Return {| method := u "POST"; path := u "/api"; version := u "HTTP/1.1";
                    headers := [(u "Host", u "localhost:3001");
                                (u "Content-Length", u "3")];
                    body := b "abc" |},
          Examples.closed_after []).
Proof.
  cbv zeta.
  destruct (forwarded_request_parses_back int_str Examples.fresh_writer
              {| method := u "POST"; path := u "/api"; version := u "HTTP/1.1";
                 headers := [(u "Host", u "example.org");
                             (u "Content-Length", u "3")];
                 body := b "abc" |}
              (u "localhost") 3001
              {| drain_raises := None; reads := [Return (b "ok"); Return []];
                 wait_closed_raises := None |}
              [] EOF) as [_ Hparse]; [vm_compute; reflexivity|].
  rewrite app_nil_r in Hparse. exact Hparse.
Defined.

End RoundTrip.

(** ** The forwarder and the handler, further *)

Module HandlerProperties.
Import Py PyLemmas Parser Parser.HTTPLimits Server Tests Wire Views ParserProofs
  ServerProofs ParserInvariants RoundTrip.

(** *** Relaying the upstream's response *)

Lemma stream_response_relayed (chunks : list (result bytes)) :
  forall w out w', stream_response chunks w = (out, w') ->
    written w' = written w ++ relayed chunks.
Proof.
  induction chunks as [|[chunk|e] chunks IH]; intros w out w' H;
    cbn [stream_response relayed] in *.
  - injection H as _ <-. symmetry. apply app_nil_r.
  - destruct (is_empty chunk).
    + injection H as _ <-. symmetry. apply app_nil_r.
    + apply IH in H. rewrite H. cbn [write written].
      rewrite <- app_assoc. reflexivity.
  - injection H as _ <-. symmetry. apply app_nil_r.
Qed.

Lemma relayed_nonempty (chunks : list (result bytes)) :
  Forall (fun chunk => chunk <> []) (relayed chunks).
Proof.
  induction chunks as [|[chunk|e] chunks IH]; cbn [relayed]; try constructor.
  destruct chunk as [|c chunk]; cbn [is_empty]; constructor;
    [discriminate | exact IH].
Qed.

(** When forwarding succeeds, the client is written the chunks the
    upstream gave, each as it came and in their order, up to the end of
    the stream, and nothing else: no chunk is empty, none is written after
    the empty read, and no gateway error follows. The upstream connection
    is closed, and the call ends with what [wait_closed] raises, if it
    does. *)
Theorem upstream_response_relayed :
  forall w request host port up done w' sent,
    forward w request host port up = (Return done, w', sent) ->
    proxy_to_upstream w request host port (Return up)
    = {| client := w'; sent_upstream := sent; upstream_closed := true;
         raised := wait_closed_raises up |}
    /\ written w' = written w ++ relayed (reads up)
    /\ closing w' = closing w
    /\ Forall (fun chunk => chunk <> []) (relayed (reads up)).
Proof.
  intros w request host port up done w' sent Hf.
  split; [unfold proxy_to_upstream; rewrite Hf; reflexivity|].
  split; [|split; [apply (forward_client _ _ _ _ _ _ _ _ Hf)
                  | apply relayed_nonempty]].
  unfold forward in Hf.
  destruct (encode _) as [request_line|e]; [|discriminate].
  destruct (write_headers _ _) as [[[]|e] sent0]; [|discriminate].
  destruct (drain_raises up); [discriminate|].
  destruct (stream_response (reads up) w) as [streamed w1] eqn:E.
  injection Hf as _ <- _. apply (stream_response_relayed _ _ _ _ E).
Qed.

(** On an upstream that answers in two chunks; what it would give after
    the end of the stream is not relayed. *)
Lemma upstream_response_relayed_witness :
  let up :=
    {| drain_raises := None;
       reads := [Return (b "HTTP/1.1 200 OK"); Return (b "hello"); Return [];
                 Return (b "late")];
       wait_closed_raises := None |} in
  written (client
             (proxy_to_upstream Examples.fresh_writer
                {| method := u "GET"; path := u "/"; version := u "HTTP/1.1";
                   headers := []; body := [] |}
                (u "localhost") 3001 (Return up)))
  = [b "HTTP/1.1 200 OK"; b "hello"].
Proof.
  cbv zeta.
  destruct (upstream_response_relayed Examples.fresh_writer
              {| method := u "GET"; path := u "/"; version := u "HTTP/1.1";
                 headers := []; body := [] |}
              (u "localhost") 3001
              {| drain_raises := None;
                 reads := [Return (b "HTTP/1.1 200 OK"); Return (b "hello");
                           Return []; Return (b "late")];
                 wait_closed_raises := None |}
              tt
              {| written := [b "HTTP/1.1 200 OK"; b "hello"]; closing := false |}
              [b "GET / HTTP/1.1" ++ CRLF; b "Host: localhost:3001" ++ CRLF; CRLF]
              eq_refl) as (Hrun & _).
  rewrite Hrun. reflexivity.
Defined.

(** *** The path that is forwarded *)

(** The path given to the forwarder always begins with "/". Putting the
    prefix before a path that begins with "/" and stripping it gives the
    path back; before any other text, stripping gives "/" and that
    text. *)
Theorem proxied_path_begins_with_slash :
  (forall p, startswith N.eqb (u "/") (proxied_path p) = true)
  /\ (forall q, startswith N.eqb (u "/") q = true ->
        proxied_path (PROXY_PREFIX ++ q) = q
        /\ strip_proxy_prefix (PROXY_PREFIX ++ q) = q)
  /\ (forall q, startswith N.eqb (u "/") q = false ->
        proxied_path (PROXY_PREFIX ++ q) = u "/" ++ q
        /\ strip_proxy_prefix (PROXY_PREFIX ++ q) = u "/" ++ q).
Proof.
  assert (Hstrip : forall q, strip_proxy_prefix (PROXY_PREFIX ++ q)
                             = proxied_path (PROXY_PREFIX ++ q)).
  { intros q. unfold strip_proxy_prefix, proxied_path.
    rewrite (startswith_app N.eqb N_eqb_spec). reflexivity. }
  assert (Hrest : forall q, skipn (length PROXY_PREFIX) (PROXY_PREFIX ++ q) = q)
    by reflexivity.
  split; [|split].
  - intros p. rewrite proxied_path_cases.
    destruct (startswith N.eqb (u "/") (skipn (length PROXY_PREFIX) p)) eqn:E;
      [exact E | reflexivity].
  - intros q Hq. rewrite Hstrip, proxied_path_cases, Hrest, Hq. auto.
  - intros q Hq. rewrite Hstrip, proxied_path_cases, Hrest, Hq. auto.
Qed.

(** On "/proxy/api" and on "/proxyapi". *)
Lemma proxied_path_begins_with_slash_witness :
  strip_proxy_prefix (u "/proxy/api") = u "/api"
  /\ strip_proxy_prefix (u "/proxyapi") = u "/api".
Proof.
  destruct proxied_path_begins_with_slash as (_ & Hkept & Hadded).
  split.
  - apply (Hkept (u "/api")). reflexivity.
  - apply (Hadded (u "api")). reflexivity.
Defined.

(** *** What the handler answers *)

Lemma generate_response_raises (request : HTTPRequest) (metrics : Metrics) (e : exn) :
  generate_response request metrics = Raise e -> exists v, e = ValueError v.
Proof.
  unfold generate_response, snapshot, encode.
  destruct (str_eqb (path request) (u "/metrics"));
    destruct (encode_utf8 _); try discriminate; intros [= <-]; eauto.
Qed.

Lemma proxy_client_appends (w : StreamWriter) (request : HTTPRequest)
    (host : str) (port : Z) (connection : result Upstream) :
  exists more,
    written (client (proxy_to_upstream w request host port connection))
    = written w ++ more.
Proof.
  unfold proxy_to_upstream, is_closing.
  destruct connection as [up|e].
  - destruct (forward w request host port up) as [[out w'] sent] eqn:F.
    destruct (forward_client _ _ _ _ _ _ _ _ F) as [Hc [streamed Hw]].
    cbn [client].
    destruct out as [done|e]; [exists streamed; exact Hw|].
    destruct e; destruct (closing w'); cbn [negb write written];
      try (exists streamed; exact Hw);
      eexists; rewrite Hw, <- app_assoc; reflexivity.
  - cbn [client].
    destruct e; destruct (closing w); cbn [negb write written];
      try (exists []; symmetry; apply app_nil_r); eexists; reflexivity.
Qed.

Lemma response_200_not_timeout (body : bytes) : response_200 body <> timeout_response.
Proof.
  intros E. apply (f_equal (firstn 10)) in E. unfold response_200 in E.
  cbn in E. discriminate E.
Qed.

Section Answers.
Variable int : str -> int_result.
Variable UPSTREAM_HOST : str.
Variable UPSTREAM_PORT : Z.

(** A parse that fails is answered with the 400 response, whatever the
    failure, a timeout included, unless the parser raised the error the
    client's connection is lost with, which is no timeout then and is
    answered with the 500 response; in both cases one error is counted,
    the forwarder is not called and the connection is closed. *)
Theorem parse_failures_answered :
  forall reader writer metrics connection e reader',
    parse_request_production int reader = Some (Raise e, reader') ->
    exists response,
      handle_client int UPSTREAM_HOST UPSTREAM_PORT reader writer metrics connection
      = Some {| writer_after := close (write writer response);
                metrics_after := increment_errors (increment_requests metrics);
                forwarded := None |}
      /\ (((exists v, e = ValueError v) /\ response = error_response)
          \/ ((exists c, c <> TimedOut /\ lost_with reader c
                         /\ exception_of c = e)
              /\ response = internal_error)).
Proof.
  intros reader writer metrics connection e reader' Hparse.
  pose proof (parse_raise_fits int _ _ _ Hparse) as Hfits.
  unfold handle_client, serve. rewrite Hparse.
  destruct e; cbn in Hfits; try contradiction.
  - exists error_response. split; [reflexivity | left; eauto].
  - exists internal_error. split; [reflexivity | right].
    destruct Hfits as (c & Hc & He). split; [|reflexivity].
    exists c. split; [intros ->; discriminate He | auto].
  - exists internal_error. split; [reflexivity | right].
    destruct Hfits as (c & Hc & He). split; [|reflexivity].
    exists c. split; [intros ->; discriminate He | auto].
Qed.


(** When the handler forwards, what the client is written begins with
    what the forwarder wrote, after what was written before. When the
    forwarder returns, the handler adds nothing, closes the connection,
    counts the request and counts no error, a gateway error the
    forwarder answered included. When the forwarder ends with an
    exception, the handler counts an error and writes the response of
    the [except] clause of that exception before it closes. The
    forwarder ends with an exception only when it had connected to the
    upstream and [wait_closed] raises. *)
Theorem forwarder_outcome_decides_the_count :
  forall reader writer metrics connection handled run,
    handle_client int UPSTREAM_HOST UPSTREAM_PORT reader writer metrics connection
    = Some handled ->
    forwarded handled = Some run ->
    (exists more, written (client run) = written writer ++ more)
    /\ match raised run with
       | None =>
           writer_after handled = close (client run)
           /\ metrics_after handled = increment_requests metrics
           /\ error_count (metrics_after handled) = error_count metrics
       | Some e =>
           writer_after handled = close (write (client run) (answer_to e))
           /\ metrics_after handled = increment_errors (increment_requests metrics)
           /\ error_count (metrics_after handled) = error_count metrics + 1
       end
    /\ raised run
       = match connection with
         | Return up => wait_closed_raises up
         | Raise _ => None
         end.
Proof.
  intros reader writer metrics connection handled run.
  unfold handle_client, serve.
  destruct (parse_request_production int reader) as [[[request|e] r']|];
    [| |discriminate].
  - destruct (startswith N.eqb PROXY_PREFIX (path request)).
    + match goal with
      | |- context [raised ?r] =>
          pose proof (proxy_client_appends writer
                        {| method := method request;
                           path := proxied_path (path request);
                           version := version request;
                           headers := headers request;
                           body := body request |}
                        UPSTREAM_HOST UPSTREAM_PORT connection) as Happ;
          pose proof (proxy_raised writer
                        {| method := method request;
                           path := proxied_path (path request);
                           version := version request;
                           headers := headers request;
                           body := body request |}
                        UPSTREAM_HOST UPSTREAM_PORT connection) as Hraised;
          destruct (raised r) as [e|] eqn:Hr
      end.
      * destruct e; intros [= <-]; cbn [forwarded writer_after metrics_after];
          intros [= <-]; rewrite Hr; (split; [exact Happ|]);
          (split; [|exact Hraised]); repeat split.
      * intros [= <-]. cbn [forwarded writer_after metrics_after].
        intros [= <-]. rewrite Hr. split; [exact Happ|].
        split; [|exact Hraised]. repeat split.
    + destruct (generate_response request (increment_requests metrics));
        [|destruct e]; intros [= <-]; discriminate.
  - destruct e; intros [= <-]; discriminate.
Qed.
End Answers.

(** On a client that stalls, on one that sends a bad request line, and on
    one whose connection is reset after its request line. *)
Lemma parse_failures_answered_witness :
  let answered reader response :=
    handle_client int_str (u "localhost") 3001 reader Examples.fresh_writer
      Examples.no_metrics (Raise OSError)
    = Some {| writer_after := {| written := [response]; closing := true |};
              metrics_after := {| request_count := 1; error_count := 1 |};
              forwarded := None |} in
  answered (Examples.closed_after (b "nonsense" ++ CRLF)) error_response
  /\ answered (Examples.lost_after (b "GET / HTTP/1.1" ++ CRLF) Reset)
       internal_error.
Proof.
  cbv zeta. split.
  - destruct (parse_failures_answered int_str (u "localhost") 3001
                (Examples.closed_after (b "nonsense" ++ CRLF))
                Examples.fresh_writer Examples.no_metrics (Raise OSError)
                (ValueError (MalformedRequestLine (u "nonsense")
                               (NotEnoughValuesToUnpack 3 1)))
                (Examples.closed_after []) eq_refl)
      as (response & Hhandled & [[_ ->]|[(c & _ & _ & Hc) _]]);
      [|destruct c; discriminate Hc].
    exact Hhandled.
  - destruct (parse_failures_answered int_str (u "localhost") 3001
                (Examples.lost_after (b "GET / HTTP/1.1" ++ CRLF) Reset)
                Examples.fresh_writer Examples.no_metrics (Raise OSError)
                ConnectionResetError
                {| buffer := []; exception := Some Reset; at_end := Lost Reset |}
                eq_refl)
      as (response & Hhandled & [[[v Hv] _]|[_ ->]]); [discriminate Hv|].
    exact Hhandled.
Defined.


(** On a request forwarded to an upstream that refuses the connection:
    the client is written the 502 response and no error is counted; and
    on one forwarded to an upstream whose connection is reset while it
    answers: the client is written what was relayed, the 502 response
    and the 500 response, and one error is counted. *)
Lemma forwarder_outcome_decides_the_count_witness :
  let refused :=
    {| client := {| written := [bad_gateway]; closing := false |};
       sent_upstream := []; upstream_closed := false; raised := None |} in
  let broken :=
    {| client := {| written := [b "HTTP/1.1 200 OK"; bad_gateway];
                    closing := false |};
       sent_upstream := [b "GET /x HTTP/1.1" ++ CRLF;
                         b "Host: localhost:3001" ++ CRLF; CRLF];
       upstream_closed := true; raised := Some ConnectionResetError |} in
  handle_client int_str (u "localhost") 3001
    (Examples.closed_after (Examples.get "/proxy/x"))
    Examples.fresh_writer Examples.no_metrics (Raise OSError)
  = Some {| writer_after := {| written := [bad_gateway]; closing := true |};
            metrics_after := {| request_count := 1; error_count := 0 |};
            forwarded := Some refused |}
  /\ handle_client int_str (u "localhost") 3001
       (Examples.closed_after (Examples.get "/proxy/x"))
       Examples.fresh_writer Examples.no_metrics
       (Return {| drain_raises := None;
                  reads := [Return (b "HTTP/1.1 200 OK");
                            Raise ConnectionResetError];
                  wait_closed_raises := Some ConnectionResetError |})
     = Some {| writer_after :=
                 {| written := [b "HTTP/1.1 200 OK"; bad_gateway; internal_error];
                    closing := true |};
               metrics_after := {| request_count := 1; error_count := 1 |};
               forwarded := Some broken |}
  /\ error_count {| request_count := 1; error_count := 0 |}
     = error_count Examples.no_metrics
  /\ error_count {| request_count := 1; error_count := 1 |}
     = error_count Examples.no_metrics + 1.
Proof.
  cbv zeta. split; [reflexivity|]. split; [reflexivity|]. split.
  - destruct (forwarder_outcome_decides_the_count int_str (u "localhost") 3001
                (Examples.closed_after (Examples.get "/proxy/x"))
                Examples.fresh_writer Examples.no_metrics (Raise OSError)
                {| writer_after := {| written := [bad_gateway]; closing := true |};
                   metrics_after := {| request_count := 1; error_count := 0 |};
                   forwarded :=
                     Some {| client := {| written := [bad_gateway];
                                          closing := false |};
                             sent_upstream := []; upstream_closed := false;
                             raised := None |} |}
                {| client := {| written := [bad_gateway]; closing := false |};
                   sent_upstream := []; upstream_closed := false;
                   raised := None |}
                eq_refl eq_refl) as (_ & (_ & _ & Herr) & _).
    exact Herr.
  - destruct (forwarder_outcome_decides_the_count int_str (u "localhost") 3001
                (Examples.closed_after (Examples.get "/proxy/x"))
                Examples.fresh_writer Examples.no_metrics
                (Return {| drain_raises := None;
                           reads := [Return (b "HTTP/1.1 200 OK");
                                     Raise ConnectionResetError];
                           wait_closed_raises := Some ConnectionResetError |})
                {| writer_after :=
                     {| written := [b "HTTP/1.1 200 OK"; bad_gateway;
                                    internal_error];
                        closing := true |};
                   metrics_after := {| request_count := 1; error_count := 1 |};
                   forwarded :=
                     Some {| client := {| written := [b "HTTP/1.1 200 OK";
                                                      bad_gateway];
                                          closing := false |};
                             sent_upstream := [b "GET /x HTTP/1.1" ++ CRLF;
                                               b "Host: localhost:3001" ++ CRLF;
                                               CRLF];
                             upstream_closed := true;
                             raised := Some ConnectionResetError |} |}
                {| client := {| written := [b "HTTP/1.1 200 OK"; bad_gateway];
                                closing := false |};
                   sent_upstream := [b "GET /x HTTP/1.1" ++ CRLF;
                                     b "Host: localhost:3001" ++ CRLF; CRLF];
                   upstream_closed := true;
                   raised := Some ConnectionResetError |}
                eq_refl eq_refl) as (_ & (_ & _ & Herr) & _).
    exact Herr.
Defined.

(** *** The generated bodies *)

Lemma ascii_bytes_u (text : string) : ascii_bytes (u text) = b text.
Proof.
  unfold ascii_bytes, u, b. rewrite map_map.
  induction (list_byte_of_string text) as [|x l IH]; [reflexivity|].
  cbn [map]. rewrite IH. f_equal. unfold byte_of.
  pose proof (Byte.to_N_bounded x).
  rewrite N.mod_small by lia. rewrite Byte.of_to_N. reflexivity.
Qed.

Lemma uint_ascii (d : Decimal.uint) :
  Forall (fun c => (c < 0x80)%N) (u (DecimalString.NilEmpty.string_of_uint d)).
Proof.
  induction d; simpl; constructor; (reflexivity || assumption).
Qed.

Lemma str_int_ascii (z : Z) : Forall (fun c => (c < 0x80)%N) (str_int z).
Proof.
  unfold str_int, str_of_int. destruct (Z.to_int z) as [d|d].
  - apply uint_ascii.
  - cbn [DecimalString.NilEmpty.string_of_int]. constructor;
      [reflexivity | apply uint_ascii].
Qed.

Lemma encode_app (x y : str) (bx by_ : bytes) :
  encode_utf8 x = Some bx -> encode_utf8 y = Some by_ ->
  encode_utf8 (x ++ y) = Some (bx ++ by_).
Proof.
  revert bx. induction x as [|c x IH]; intros bx Hx Hy.
  - injection Hx as <-. exact Hy.
  - cbn [app encode_utf8] in *. destruct (encode_char c) as [bc|]; [|discriminate].
    destruct (encode_utf8 x) as [bx'|]; [|discriminate].
    injection Hx as <-. rewrite (IH bx' eq_refl Hy), app_assoc. reflexivity.
Qed.

Lemma encode_u (text : string) :
  Forall (fun c => (c < 0x80)%N) (u text) -> encode_utf8 (u text) = Some (b text).
Proof. intros H. rewrite encode_ascii by exact H. rewrite ascii_bytes_u. reflexivity. Qed.

Lemma encode_str_int (z : Z) : encode_utf8 (str_int z) = Some (bytes_int z).
Proof. apply encode_u, str_int_ascii. Qed.

(** The body of the metrics answer. *)
Lemma metrics_body (request : HTTPRequest) (metrics : Metrics) :
  path request = u "/metrics" ->
  generate_response request metrics
  = Return (b "requests_total " ++ bytes_int (request_count metrics) ++ [LF]
            ++ b " errors_total " ++ bytes_int (error_count metrics) ++ [LF]).
Proof.
  intros Hpath. unfold generate_response, snapshot, encode. rewrite Hpath.
  rewrite (str_eqb_refl (u "/metrics")).
  assert (H : encode_utf8 (u "requests_total " ++ str_int (request_count metrics)
                           ++ NL ++ u " errors_total "
                           ++ str_int (error_count metrics) ++ NL)
              = Some (b "requests_total " ++ bytes_int (request_count metrics)
                      ++ [LF] ++ b " errors_total "
                      ++ bytes_int (error_count metrics) ++ [LF])).
  { apply encode_app; [apply encode_u; repeat constructor|].
    apply encode_app; [apply encode_str_int|].
    apply (encode_app NL _ [LF]); [reflexivity|].
    apply encode_app; [apply encode_u; repeat constructor|].
    apply encode_app; [apply encode_str_int | reflexivity]. }
  rewrite H. reflexivity.
Qed.

(** The body of the echo answer, for a method and a path in ASCII. *)
Lemma echo_body (request : HTTPRequest) (metrics : Metrics) :
  str_eqb (path request) (u "/metrics") = false ->
  Forall (fun c => (c < 0x80)%N) (method request) ->
  Forall (fun c => (c < 0x80)%N) (path request) ->
  generate_response request metrics
  = Return (b "Hello from DevProxy! You requested: "
            ++ ascii_bytes (method request) ++ b " "
            ++ ascii_bytes (path request)).
Proof.
  intros Hpath Hm Hp. unfold generate_response, encode. rewrite Hpath.
  assert (H : encode_utf8 (u "Hello from DevProxy! You requested: "
                           ++ method request ++ u " " ++ path request)
              = Some (b "Hello from DevProxy! You requested: "
                      ++ ascii_bytes (method request) ++ b " "
                      ++ ascii_bytes (path request))).
  { apply encode_app; [apply encode_u; repeat constructor|].
    apply encode_app; [apply encode_ascii, Hm|].
    apply encode_app; [apply encode_u; repeat constructor | apply encode_ascii, Hp]. }
  rewrite H. reflexivity.
Qed.

Lemma graphic_ascii (s : str) :
  forallb graphic s = true -> Forall (fun c => (c < 0x80)%N) s.
Proof. intros H. apply printable_ascii, graphic_Forall_printable, H. Qed.

Lemma forallb_skipn {A : Type} (p : A -> bool) (n : nat) (l : list A) :
  forallb p l = true -> forallb p (skipn n l) = true.
Proof.
  revert l; induction n as [|n IH]; intros [|x l] H; try exact H.
  cbn [forallb] in H. apply andb_true_iff in H as [_ H]. apply IH, H.
Qed.

Lemma proxied_path_graphic (request_path : str) :
  forallb graphic request_path = true ->
  forallb graphic (proxied_path request_path) = true.
Proof.
  intros H. rewrite proxied_path_cases.
  pose proof (forallb_skipn graphic (length PROXY_PREFIX) _ H) as Hrest.
  destruct (startswith N.eqb (u "/") (skipn (length PROXY_PREFIX) request_path));
    [exact Hrest | exact Hrest].
Qed.

Lemma header_text_dict_set (k v : str) (hs : dict) :
  forallb header_text hs = true -> header_text (k, v) = true ->
  forallb header_text (dict_set k v hs) = true.
Proof.
  intros Hhs Hkv. induction hs as [|[k' v'] hs IH]; cbn [dict_set forallb].
  - rewrite Hkv. reflexivity.
  - cbn [forallb] in Hhs. apply andb_true_iff in Hhs as [H1 H2].
    destruct (str_eqb k k') eqn:E; cbn [forallb].
    + apply str_eqb_eq in E. subst k'. rewrite Hkv, H2. reflexivity.
    + rewrite H1, (IH H2). reflexivity.
Qed.

Section EndToEnd.
Variable int : str -> int_result.
Variable UPSTREAM_HOST : str.
Variable UPSTREAM_PORT : Z.



(** A well-formed request on the wire whose path begins with "/proxy" is
    handed to the forwarder, and when the upstream accepts the connection
    the bytes written to it are the client's request as it stood on the
    wire with two changes only: the prefix is taken off the path and the
    [Host] header carries the upstream's host and port. The handler then
    closes the client's connection; it counts an error, and writes the
    response of its [except] clause after what the forwarder wrote, when
    [wait_closed] raises on the upstream connection, and only then. *)
Theorem proxied_request_end_to_end :
  forall request rest e writer metrics up,
    well_formed int request = true ->
    startswith N.eqb PROXY_PREFIX (path request) = true ->
    header_text (u "Host", UPSTREAM_HOST ++ u ":" ++ str_int UPSTREAM_PORT) = true ->
    exists run,
      handle_client int UPSTREAM_HOST UPSTREAM_PORT
        {| buffer := wire request ++ rest; exception := None; at_end := e |}
        writer metrics (Return up)
      = Some {| writer_after :=
                  match wait_closed_raises up with
                  | None => close (client run)
                  | Some raised => close (write (client run) (answer_to raised))
                  end;
                metrics_after :=
                  match wait_closed_raises up with
                  | None => increment_requests metrics
                  | Some _ => increment_errors (increment_requests metrics)
                  end;
                forwarded := Some run |}
      /\ upstream_closed run = true
      /\ raised run = wait_closed_raises up
      /\ concat (sent_upstream run)
         = wire {| method := method request;
                   path := proxied_path (path request);
                   version := version request;
                   headers := dict_set (u "Host")
                                (UPSTREAM_HOST ++ u ":" ++ str_int UPSTREAM_PORT)
                                (headers request);
                   body := body request |}.
Proof.
  intros request rest e writer metrics up Hwf Hproxy Hhost.
  destruct (well_formed_parts int _ Hwf) as (Hne & Hm & Hp & Hv & Htext).
  unfold handle_client, serve. rewrite (parse_wire int request rest e Hwf).
  rewrite Hproxy, proxy_raised.
  eexists. split; [destruct (wait_closed_raises up) as [[]|]; reflexivity|].
  split; [|split; [apply proxy_raised|]].
  - unfold proxy_to_upstream.
    destruct (forward writer _ UPSTREAM_HOST UPSTREAM_PORT up) as [[out w'] sent].
    reflexivity.
  - unfold proxy_to_upstream.
    destruct (forward writer _ UPSTREAM_HOST UPSTREAM_PORT up)
      as [[out w'] sent] eqn:F.
    cbn [sent_upstream].
    apply (forward_sent_wire writer _ UPSTREAM_HOST UPSTREAM_PORT up)
      with (out := out) (w' := w') in F; [exact F | |].
    + cbn [method path version].
      apply (request_line_text _ _ _ Hne Hm (proxied_path_graphic _ Hp) Hv).
    + cbn [headers]. apply header_text_dict_set; assumption.
Qed.
End EndToEnd.



(** On a [GET] for "/proxy/users" with a header of the client. *)
Lemma proxied_request_end_to_end_witness :
  let request :=
    {| method := u "GET"; path := u "/proxy/users"; version := u "HTTP/1.1";
       headers := [(u "Host", u "example.org"); (u "Accept", u "*/*")];
       body := [] |} in
  option_map (fun handled => option_map (fun run => concat (sent_upstream run))
                               (forwarded handled))
    (handle_client int_str (u "localhost") 3001
       (Examples.closed_after (wire request)) Examples.fresh_writer
       Examples.no_metrics (Examples.answering (b "ok")))
  = Some (Some (b "GET /users HTTP/1.1" ++ CRLF
                ++ b "Host: localhost:3001" ++ CRLF
                ++ b "Accept: */*" ++ CRLF ++ CRLF)).
Proof.
  cbv zeta.
  destruct (proxied_request_end_to_end int_str (u "localhost") 3001
              {| method := u "GET"; path := u "/proxy/users";
                 version := u "HTTP/1.1";
                 headers := [(u "Host", u "example.org"); (u "Accept", u "*/*")];
                 body := [] |}
              [] EOF Examples.fresh_writer Examples.no_metrics
              {| drain_raises := None; reads := [Return (b "ok"); Return []];
                 wait_closed_raises := None |}
              eq_refl eq_refl eq_refl) as (run & Hhandled & _ & _ & Hsent).
  rewrite app_nil_r in Hhandled.
  unfold Examples.closed_after, Examples.answering. rewrite Hhandled.
  cbn [option_map forwarded]. rewrite Hsent. reflexivity.
Defined.

End HandlerProperties.

(** ** [send_error_response] and [Config.from_env] *)

Module Responses.
Import Py PyLemmas Parser Server Wire Views ServerProofs Configuration RoundTrip
  HandlerProperties.

(** The error response around a reason phrase [R], read as a client reads
    it, when no blank line and neither header name starts inside the
    status line and the content type. *)
Lemma error_response_read_with (R S D body : bytes) :
  let T := b " " ++ R ++ CRLF ++ b "Content-Type: text/plain; charset=utf-8" in
  let L := CRLF ++ b "Content-Length: " in
  let C := CRLF ++ b "Connection: " in
  let response :=
    b "HTTP/1.1 " ++ S ++ T ++ L ++ D ++ C ++ b "close" ++ (CRLF ++ CRLF) ++ body in
  Forall not_CR S -> Forall not_CR D ->
  (forall s, misses (CRLF ++ CRLF) T s = true) ->
  (forall s, misses C T s = true) ->
  (forall s, misses L T s = true) ->
  response_header (b "Connection") response = Some (b "close")
  /\ response_header (b "Content-Length") response = Some D
  /\ response_body response = Some body.
Proof.
  cbv zeta. intros HS HD Hblank Hconn Hlen.
  set (T := b " " ++ R ++ CRLF ++ b "Content-Type: text/plain; charset=utf-8") in *.
  set (L := CRLF ++ b "Content-Length: ") in *.
  set (C := CRLF ++ b "Connection: ") in *.
  assert (Hsplit : response_head_body
                     (b "HTTP/1.1 " ++ S ++ T ++ L ++ D ++ C ++ b "close"
                      ++ (CRLF ++ CRLF) ++ body)
                   = Some (b "HTTP/1.1 " ++ S ++ T ++ L ++ D ++ C ++ b "close", body)).
  { unfold response_head_body.
    rewrite find_sep_misses by reflexivity.
    change (CRLF ++ CRLF) with (CR :: [LF; CR; LF]).
    rewrite (find_sep_skip Byte.eqb CR [LF; CR; LF] S) by exact HS.
    change (CR :: [LF; CR; LF]) with (CRLF ++ CRLF).
    rewrite find_sep_misses by apply Hblank.
    rewrite (find_sep_misses (CRLF ++ CRLF) L) by reflexivity.
    change (CRLF ++ CRLF) with (CR :: [LF; CR; LF]).
    rewrite (find_sep_skip Byte.eqb CR [LF; CR; LF] D) by exact HD.
    change (CR :: [LF; CR; LF]) with (CRLF ++ CRLF).
    rewrite (find_sep_misses (CRLF ++ CRLF) C) by reflexivity.
    rewrite (find_sep_misses (CRLF ++ CRLF) (b "close")) by reflexivity.
    rewrite (find_sep_here Byte.eqb Byte_eqb_spec).
    rewrite app_nil_r. reflexivity. }
  unfold response_header, response_body. rewrite Hsplit. cbn [option_map snd].
  split; [|split; [|reflexivity]].
  - change (CRLF ++ b "Connection" ++ b ": ") with C.
    rewrite find_sep_misses by reflexivity.
    change C with (CR :: (LF :: b "Connection: ")).
    rewrite (find_sep_skip Byte.eqb CR _ S) by exact HS.
    change (CR :: (LF :: b "Connection: ")) with C.
    rewrite find_sep_misses by apply Hconn.
    rewrite (find_sep_misses C L) by reflexivity.
    change C with (CR :: (LF :: b "Connection: ")).
    rewrite (find_sep_skip Byte.eqb CR _ D) by exact HD.
    change (CR :: (LF :: b "Connection: ")) with C.
    rewrite (find_sep_here Byte.eqb Byte_eqb_spec). reflexivity.
  - change (CRLF ++ b "Content-Length" ++ b ": ") with L.
    rewrite find_sep_misses by reflexivity.
    change L with (CR :: (LF :: b "Content-Length: ")).
    rewrite (find_sep_skip Byte.eqb CR _ S) by exact HS.
    change (CR :: (LF :: b "Content-Length: ")) with L.
    rewrite find_sep_misses by apply Hlen.
    rewrite (find_sep_here Byte.eqb Byte_eqb_spec).
    change CRLF with (CR :: [LF]).
    rewrite (find_sep_skip Byte.eqb CR [LF] D) by exact HD.
    change (CR :: [LF]) with CRLF. unfold C.
    rewrite <- app_assoc.
    rewrite (find_sep_here Byte.eqb Byte_eqb_spec).
    rewrite app_nil_r. reflexivity.
Qed.

Lemma error_response_for_read (status : Z) (body : bytes) :
  response_header (b "Connection") (error_response_for status body)
  = Some (b "close")
  /\ response_header (b "Content-Length") (error_response_for status body)
     = Some (bytes_int (len body))
  /\ response_body (error_response_for status body) = Some body.
Proof.
  assert (Hshape : forall R,
            b "HTTP/1.1 " ++ bytes_int status ++ b " " ++ R ++ CRLF
            ++ b "Content-Type: text/plain; charset=utf-8" ++ CRLF
            ++ b "Content-Length: " ++ bytes_int (len body) ++ CRLF
            ++ b "Connection: close" ++ CRLF ++ CRLF ++ body
            = b "HTTP/1.1 " ++ bytes_int status
              ++ (b " " ++ R ++ CRLF ++ b "Content-Type: text/plain; charset=utf-8")
              ++ (CRLF ++ b "Content-Length: ") ++ bytes_int (len body)
              ++ (CRLF ++ b "Connection: ") ++ b "close" ++ (CRLF ++ CRLF) ++ body).
  { intros R. rewrite <- !app_assoc. reflexivity. }
  unfold error_response_for. rewrite Hshape.
  apply error_response_read_with;
    try apply bytes_int_not_CR;
    unfold status_reason;
    destruct (status =? 400); try (intros s; reflexivity);
    destruct (status =? 408); try (intros s; reflexivity);
    destruct (status =? 500); intros s; reflexivity.
Qed.



(** *** [Config.from_env] *)

(** When [Config.from_env] returns, the host strings are those of the
    environment, or the defaults, the three numbers are what [int] gives
    of theirs, and the upstream host and port are the ones the module of
    the server takes from the same environment; when it raises, the
    exception is that of [int] on one of the three numbers. *)
Theorem from_env_reads_the_environment :
  forall int env,
    match from_env int env with
    | Return config =>
        host config = getenv env (u "DEVPROXY_HOST") (u "127.0.0.1")
        /\ int (getenv env (u "DEVPROXY_PORT") (u "8889")) = IntValue (port config)
        /\ int (getenv env (u "MAX_CONNECTIONS") (u "1000"))
           = IntValue (max_connections config)
        /\ upstream_host config = upstream_host_of env
        /\ upstream_port_of int env = Return (upstream_port config)
    | Raise e =>
        exists name default,
          In (name, default)
            [(u "DEVPROXY_PORT", u "8889"); (u "UPSTREAM_PORT", u "3001");
             (u "MAX_CONNECTIONS", u "1000")]
          /\ int_of int (getenv env name default) = Raise e
    end.
Proof.
  intros int env. unfold from_env, upstream_port_of, upstream_host_of, int_of.
  destruct (int (getenv env (u "DEVPROXY_PORT") (u "8889"))) as [p| |] eqn:E1;
    cbn [bind].
  2:{ exists (u "DEVPROXY_PORT"), (u "8889"). split; [left; reflexivity|].
      rewrite E1. reflexivity. }
  2:{ exists (u "DEVPROXY_PORT"), (u "8889"). split; [left; reflexivity|].
      rewrite E1. reflexivity. }
  destruct (int (getenv env (u "UPSTREAM_PORT") (u "3001"))) as [q| |] eqn:E2;
    cbn [bind].
  2:{ exists (u "UPSTREAM_PORT"), (u "3001").
      split; [right; left; reflexivity|]. rewrite E2. reflexivity. }
  2:{ exists (u "UPSTREAM_PORT"), (u "3001").
      split; [right; left; reflexivity|]. rewrite E2. reflexivity. }
  destruct (int (getenv env (u "MAX_CONNECTIONS") (u "1000"))) as [m| |] eqn:E3;
    cbn [bind].
  2:{ exists (u "MAX_CONNECTIONS"), (u "1000").
      split; [right; right; left; reflexivity|]. rewrite E3. reflexivity. }
  2:{ exists (u "MAX_CONNECTIONS"), (u "1000").
      split; [right; right; left; reflexivity|]. rewrite E3. reflexivity. }
  cbn. auto.
Qed.

End Responses.
